(** * Legal-case extraction pipeline: a shallow embedding and its properties

    The development follows the scripts of the repository:
    - [qctext.py]: segmentation of the corpus, the extraction worker, the
      scheduler ([run_processing]), the repair pass
      ([run_verification_and_repair]), the combined file
      ([update_combined_file]) and [main];
    - [embedder_bge_m3.py]: [load_and_validate_cases] and
      [prepare_texts_for_embedding];
    - [vector_creation.py]: [ChromaDBManager.is_id_exist], [add_data],
      [clear_collection] and [main];
    - [chatbot_app.py]: [LegalMemoGenerator.generate_memo].

    Python strings are sequences of Unicode code points, so a string is a
    list of code points [N].  The pieces of the Python runtime the scripts
    rely on are embedded first: the [str] methods, then [re] and [json] in
    modules of those names, then the pydantic models.  The model of the
    model's answers and of the vector store is what the scripts see of
    them: a function from prompts to answers, a finite map from ids to
    entries.

    A function that can raise has a result type with a constructor for the
    exception.  The exceptions followed are those decided by the shape of
    the data at hand: a decoded value without [get], a response body of
    another shape, a sort key that cannot be compared, a missing key.  The
    exceptions decided by the interpreter or the file system are left out:
    the limits of [json.loads] on digits and on nesting, the
    [UnicodeEncodeError] of writing a lone surrogate, the errors of [open].
    Accordingly, what is stated of the files a function leaves or of the
    value it returns is stated for the calls that return. *)

From Stdlib Require Import String Ascii DecimalString.
From stdpp Require Import base option list gmap sets.

Local Open Scope N_scope.
Local Set Warnings "-register-all".

(** ** Strings *)

Definition str := list N.

(** An ASCII literal as a Python string. *)
Definition lit (s : string) : str :=
  map N_of_ascii (list_ascii_of_string s).

(** The same, with every apostrophe read as a double quote, to write JSON
    text inside a literal. *)
Definition qlit (s : string) : str :=
  map (fun c => if c =? 39 then 34 else c) (lit s).

Arguments lit s%_string.
Arguments qlit s%_string.

Definition c_newline : N := 10.
Definition c_quote : N := 34.
Definition c_dash : N := 45.
Definition c_dot : N := 46.
Definition c_slash : N := 47.
Definition c_lbrace : N := 123.
Definition c_rbrace : N := 125.

Definition in_ranges (rs : list (N * N)) (c : N) : bool :=
  existsb (fun r => (fst r <=? c) && (c <=? snd r)) rs.

(** Decimal digits: the code points [\d] matches in a [str] pattern
    (Unicode category Nd, Unicode 14). *)
Definition decimal_ranges : list (N * N) :=
  [ (48, 57); (1632, 1641); (1776, 1785); (1984, 1993); (2406, 2415);
    (2534, 2543); (2662, 2671); (2790, 2799); (2918, 2927); (3046, 3055);
    (3174, 3183); (3302, 3311); (3430, 3439); (3558, 3567); (3664, 3673);
    (3792, 3801); (3872, 3881); (4160, 4169); (4240, 4249); (6112, 6121);
    (6160, 6169); (6470, 6479); (6608, 6617); (6784, 6793); (6800, 6809);
    (6992, 7001); (7088, 7097); (7232, 7241); (7248, 7257); (42528, 42537);
    (43216, 43225); (43264, 43273); (43472, 43481); (43504, 43513);
    (43600, 43609); (44016, 44025); (65296, 65305); (66720, 66729);
    (68912, 68921); (69734, 69743); (69872, 69881); (69942, 69951);
    (70096, 70105); (70384, 70393); (70736, 70745); (70864, 70873);
    (71248, 71257); (71360, 71369); (71472, 71481); (71904, 71913);
    (72016, 72025); (72784, 72793); (73040, 73049); (73120, 73129);
    (92768, 92777); (92864, 92873); (93008, 93017); (120782, 120831);
    (123200, 123209); (123632, 123641); (125264, 125273); (130032, 130041) ].

Definition is_decimal (c : N) : bool := in_ranges decimal_ranges c.

(** White space: the code points [str.isspace] accepts; [str.strip] and
    [\s] use the same set. *)
Definition space_ranges : list (N * N) :=
  [ (9, 13); (28, 32); (133, 133); (160, 160); (5760, 5760); (8192, 8202);
    (8232, 8233); (8239, 8239); (8287, 8287); (12288, 12288) ].

Definition is_space (c : N) : bool := in_ranges space_ranges c.

Definition str_eqb (a b : str) : bool := bool_decide (a = b).

Fixpoint str_startswith (p s : str) : bool :=
  match p, s with
  | [], _ => true
  | a :: p', b :: s' => (a =? b) && str_startswith p' s'
  | _ :: _, [] => false
  end.

(** [s.endswith(p)] *)
Definition str_endswith (p s : str) : bool := str_startswith (rev p) (rev s).

(** [s.lstrip()], [s.rstrip()], [s.strip()] *)
Fixpoint str_lstrip (s : str) : str :=
  match s with
  | c :: r => if is_space c then str_lstrip r else s
  | [] => []
  end.

Definition str_rstrip (s : str) : str := rev (str_lstrip (rev s)).

Definition str_strip (s : str) : str := str_rstrip (str_lstrip s).

(** [s.replace(old, new)] for a non-empty [old]: occurrences are taken from
    the left and do not overlap.  [skip] counts the characters of the
    occurrence being replaced that are still to be passed over. *)
Fixpoint str_replace_from (old new : str) (skip : nat) (s : str) : str :=
  match s with
  | [] => []
  | c :: r =>
      match skip with
      | S k => str_replace_from old new k r
      | O =>
          if str_startswith old s
          then new ++ str_replace_from old new (pred (length old)) r
          else c :: str_replace_from old new O r
      end
  end.

Definition str_replace (old new s : str) : str := str_replace_from old new O s.

(** [s.split(sep)] for a non-empty [sep]; [cur] holds the current piece
    reversed. *)
Fixpoint str_split_from (sep : str) (skip : nat) (cur : str) (s : str) : list str :=
  match s with
  | [] => [rev cur]
  | c :: r =>
      match skip with
      | S k => str_split_from sep k cur r
      | O =>
          if str_startswith sep s
          then rev cur :: str_split_from sep (pred (length sep)) [] r
          else str_split_from sep O (c :: cur) r
      end
  end.

Definition str_split (sep s : str) : list str := str_split_from sep O [] s.

(** ** The [re] module, for the patterns the scripts use

    Every pattern in the scripts is a sequence of single-character classes,
    each with a repetition count.  The matcher is the backtracking one of
    [re]: alternatives are tried in priority order (greedy: longest first,
    lazy: shortest first) and the first that lets the rest of the pattern
    succeed wins. *)
Module re.

Inductive cclass :=
| Lit (c : N)   (* one literal character *)
| Dot           (* .  without re.DOTALL: anything but a newline *)
| AnyChar       (* .  under re.DOTALL *)
| Digit         (* \d *)
| NotDigit      (* [^\d] *)
| Space.        (* \s *)

Definition cmatch (k : cclass) (c : N) : bool :=
  match k with
  | Lit a => c =? a
  | Dot => negb (c =? c_newline)
  | AnyChar => true
  | Digit => is_decimal c
  | NotDigit => negb (is_decimal c)
  | Space => is_space c
  end.

(** [cls{lo,hi}] ([hi = None] for no upper bound), lazy when followed by
    [?]. *)
Record item := Item { cls : cclass; lo : nat; hi : option nat; lazy : bool }.

Definition one (k : cclass) : item := Item k 1 (Some 1%nat) false.
Definition star (k : cclass) : item := Item k 0 None false.
Definition plus (k : cclass) : item := Item k 1 None false.
Definition lazy_star (k : cclass) : item := Item k 0 None true.
Definition times (k : cclass) (n : nat) : item := Item k n (Some n) false.

Definition pattern := list item.

(** How many further repetitions are allowed. *)
Definition room (lo : nat) (hi : option nat) : option nat :=
  match hi with Some h => Some (h - lo)%nat | None => None end.

Definition may_take (more : option nat) : bool :=
  match more with Some O => false | _ => true end.

Definition taken (more : option nat) : option nat :=
  match more with Some n => Some (pred n) | None => None end.

Section Matcher.
Context {R : Type}.

(** The mandatory repetitions. *)
Fixpoint exactly (k : cclass) (n : nat) (s : str)
    (cont : str -> option R) : option R :=
  match n with
  | O => cont s
  | S n' =>
      match s with
      | c :: r => if cmatch k c then exactly k n' r cont else None
      | [] => None
      end
  end.

(** Optional repetitions, longest first. *)
Fixpoint greedy (k : cclass) (more : option nat) (s : str)
    (cont : str -> option R) : option R :=
  match s with
  | c :: r =>
      if cmatch k c && may_take more
      then match greedy k (taken more) r cont with
           | Some x => Some x
           | None => cont s
           end
      else cont s
  | [] => cont s
  end.

(** Optional repetitions, shortest first. *)
Fixpoint lazily (k : cclass) (more : option nat) (s : str)
    (cont : str -> option R) : option R :=
  match cont s with
  | Some x => Some x
  | None =>
      match s with
      | c :: r =>
          if cmatch k c && may_take more
          then lazily k (taken more) r cont
          else None
      | [] => None
      end
  end.

Definition match_item (it : item) (s : str)
    (cont : str -> option R) : option R :=
  exactly (cls it) (lo it) s
    (fun s' =>
       (if lazy it then lazily else greedy)
         (cls it) (room (lo it) (hi it)) s' cont).

Fixpoint match_seq (p : pattern) (s : str)
    (cont : str -> option R) : option R :=
  match p with
  | [] => cont s
  | it :: p' => match_item it s (fun s' => match_seq p' s' cont)
  end.
End Matcher.

(** [p.match(s)]: the text matched at the start of [s], and what follows. *)
Definition match_ (p : pattern) (s : str) : option (str * str) :=
  match match_seq p s Some with
  | Some rest => Some (take (length s - length rest)%nat s, rest)
  | None => None
  end.

(** [p.fullmatch(s)], as a truth value. *)
Definition fullmatch (p : pattern) (s : str) : bool :=
  match match_seq p s (fun rest => match rest with [] => Some tt | _ => None end) with
  | Some _ => true
  | None => false
  end.

(** [p.search(s).group(0)]: the text of the leftmost match.  In the
    scripts' patterns with a group, the group spans the whole pattern, so
    [group(1)] is the same text. *)
Fixpoint search (p : pattern) (s : str) : option str :=
  match match_ p s with
  | Some (m, _) => Some m
  | None =>
      match s with
      | _ :: r => search p r
      | [] => None
      end
  end.

End re.

(** The patterns of [qctext.py]. *)

(** [r'.*?\d+/\d{4}'] *)
Definition case_number_pattern : re.pattern :=
  [ re.lazy_star re.Dot; re.plus re.Digit; re.one (re.Lit c_slash);
    re.times re.Digit 4 ].

(** [r'(\d+/\d{4})'] *)
Definition case_id_pattern : re.pattern :=
  [ re.plus re.Digit; re.one (re.Lit c_slash); re.times re.Digit 4 ].

(** [r'\{.*\}'] with [re.DOTALL] *)
Definition json_block_pattern : re.pattern :=
  [ re.one (re.Lit c_lbrace); re.star re.AnyChar; re.one (re.Lit c_rbrace) ].

(** The docket pattern as the specification words it:
    [^[^\d]*\d+/\d{4}$], used with a full match. *)
Definition docket_pattern_spec : re.pattern :=
  [ re.star re.NotDigit; re.plus re.Digit; re.one (re.Lit c_slash);
    re.times re.Digit 4 ].

(** ** The [json] module

    [json.loads] as the decoder of CPython reads a document: a scanner that
    dispatches on the next character, with the object and array loops of
    the decoder.  Numbers keep their lexeme (the scripts never compute with
    them); a Python [dict] is the list of its items in insertion order, with
    one item per key. *)
Module json.

Inductive value :=
| Null
| Bool (b : bool)
| Num (lexeme : str)
| Str (s : str)
| Arr (xs : list value)
| Obj (items : list (str * value)).

Definition dict := list (str * value).

(** [d.get(k)] *)
Fixpoint dict_get (k : str) (d : dict) : option value :=
  match d with
  | [] => None
  | (k', v) :: r => if str_eqb k k' then Some v else dict_get k r
  end.

(** [d[k] = v]: an existing key keeps its place. *)
Fixpoint dict_set (k : str) (v : value) (d : dict) : dict :=
  match d with
  | [] => [(k, v)]
  | (k', v') :: r =>
      if str_eqb k k' then (k, v) :: r else (k', v') :: dict_set k v r
  end.

(** The outcome of decoding: a result, a [JSONDecodeError], or the
    recursion budget of the model used up (never the case from [loads],
    which allows two levels of recursion per character, see
    [loads_fuel_enough]). *)
Inductive res (A : Type) :=
| Ok (a : A)
| DecodeError
| OutOfFuel.
Arguments Ok {A} a.
Arguments DecodeError {A}.
Arguments OutOfFuel {A}.

Definition bind {A B} (r : res A) (f : A -> res B) : res B :=
  match r with
  | Ok a => f a
  | DecodeError => DecodeError
  | OutOfFuel => OutOfFuel
  end.

#[export] Instance res_bind : MBind res := fun A B f r => bind r f.

Definition is_ws (c : N) : bool :=
  (c =? 32) || (c =? 9) || (c =? 10) || (c =? 13).

Fixpoint skip_ws (s : str) : str :=
  match s with
  | c :: r => if is_ws c then skip_ws r else s
  | [] => []
  end.

Definition ascii_digit (c : N) : bool := (48 <=? c) && (c <=? 57).

Definition hex_val (c : N) : option N :=
  if ascii_digit c then Some (c - 48)
  else if (97 <=? c) && (c <=? 102) then Some (c - 87)
  else if (65 <=? c) && (c <=? 70) then Some (c - 55)
  else None.

(** The four hexadecimal digits of a [\uXXXX] escape. *)
Definition hex4 (a b c d : N) : option N :=
  match hex_val a, hex_val b, hex_val c, hex_val d with
  | Some x, Some y, Some z, Some w => Some (((x * 16 + y) * 16 + z) * 16 + w)
  | _, _, _, _ => None
  end.

Definition simple_escape (e : N) : option N :=
  if e =? 34 then Some 34            (* a quote *)
  else if e =? 92 then Some 92       (* a backslash *)
  else if e =? 47 then Some 47       (* a slash *)
  else if e =? 98 then Some 8        (* \b *)
  else if e =? 102 then Some 12      (* \f *)
  else if e =? 110 then Some 10      (* \n *)
  else if e =? 114 then Some 13      (* \r *)
  else if e =? 116 then Some 9       (* \t *)
  else None.

Definition is_high_surrogate (u : N) : bool := (55296 <=? u) && (u <=? 56319).
Definition is_low_surrogate (u : N) : bool := (56320 <=? u) && (u <=? 57343).

(** [scanstring] in strict mode, from just after the opening quote; [acc]
    is the decoded text so far, reversed. *)
Fixpoint scanstring (s : str) (acc : str) : res (str * str) :=
  match s with
  | [] => DecodeError
  | c :: r =>
      if c =? 34 then Ok (rev acc, r)
      else if c <? 32 then DecodeError
      else if c =? 92 then
        match r with
        | [] => DecodeError
        | e :: r1 =>
            if e =? 117 then
              match r1 with
              | h1 :: h2 :: h3 :: h4 :: r2 =>
                  match hex4 h1 h2 h3 h4 with
                  | None => DecodeError
                  | Some u =>
                      match r2 with
                      | b :: v :: g1 :: g2 :: g3 :: g4 :: r3 =>
                          if is_high_surrogate u && (b =? 92) && (v =? 117)
                          then
                            match hex4 g1 g2 g3 g4 with
                            | None => DecodeError
                            | Some u2 =>
                                if is_low_surrogate u2
                                then scanstring r3
                                       (65536 + (u - 55296) * 1024
                                          + (u2 - 56320) :: acc)
                                else scanstring r2 (u :: acc)
                            end
                          else scanstring r2 (u :: acc)
                      | _ => scanstring r2 (u :: acc)
                      end
                  end
              | _ => DecodeError
              end
            else
              match simple_escape e with
              | Some x => scanstring r1 (x :: acc)
              | None => DecodeError
              end
        end
      else scanstring r (c :: acc)
  end.

Fixpoint span_digits (s : str) : str * str :=
  match s with
  | c :: r =>
      if ascii_digit c
      then let '(ds, rest) := span_digits r in (c :: ds, rest)
      else ([], s)
  | [] => ([], [])
  end.

(** The longest prefix that is a JSON number: an optional minus sign, an
    integer part (a single 0, or digits not starting with 0), an optional
    fraction (a dot and digits) and an optional exponent (e or E, an
    optional sign, digits). *)
Definition number_sign (s : str) : str * str :=
  match s with
  | c :: r => if c =? 45 then ([c], r) else ([], s)
  | [] => ([], s)
  end.

Definition number_int (s : str) : option (str * str) :=
  match s with
  | [] => None
  | c :: r =>
      if c =? 48 then Some ([c], r)
      else if ascii_digit c
           then let '(ds, rest) := span_digits r in Some (c :: ds, rest)
           else None
  end.

Definition number_frac (s : str) : str * str :=
  match s with
  | p :: d :: r =>
      if (p =? 46) && ascii_digit d
      then let '(ds, rest) := span_digits r in (p :: d :: ds, rest)
      else ([], s)
  | _ => ([], s)
  end.

Definition number_exp (s : str) : str * str :=
  match s with
  | e :: r =>
      if (e =? 101) || (e =? 69) then
        let '(sg, r') :=
          match r with
          | g :: t => if (g =? 45) || (g =? 43) then ([g], t) else ([], r)
          | [] => ([], r)
          end in
        match span_digits r' with
        | ([], _) => ([], s)
        | (ds, rest) => (e :: sg ++ ds, rest)
        end
      else ([], s)
  | [] => ([], s)
  end.

Definition match_number (s : str) : option (str * str) :=
  let '(sign, s1) := number_sign s in
  match number_int s1 with
  | None => None
  | Some (int, s2) =>
      let '(frac, s3) := number_frac s2 in
      let '(exp, s4) := number_exp s3 in
      Some (sign ++ int ++ frac ++ exp, s4)
  end.

Definition keyword (w : string) (v : value) (s : str) : option (value * str) :=
  if str_startswith (lit w) s
  then Some (v, drop (length (lit w)) s)
  else None.

(** [scan_once], with [JSONObject] and [JSONArray] as the two loops.
    [members] is entered where a property name is expected, [elements]
    where an array element is. *)
Fixpoint scan_once (fuel : nat) (s : str) : res (value * str) :=
  match fuel with
  | O => OutOfFuel
  | S f =>
      match s with
      | [] => DecodeError
      | c :: r =>
          if c =? 34 then
            '(x, rest) ← scanstring r []; Ok (Str x, rest)
          else if c =? 123 then
            match skip_ws r with
            | c' :: r' =>
                if c' =? 125 then Ok (Obj [], r')
                else members f [] (c' :: r')
            | [] => DecodeError
            end
          else if c =? 91 then
            match skip_ws r with
            | c' :: r' =>
                if c' =? 93 then Ok (Arr [], r')
                else elements f [] (c' :: r')
            | [] => DecodeError
            end
          else
            let const :=
              if c =? 110 then keyword "null" Null s
              else if c =? 116 then keyword "true" (Bool true) s
              else if c =? 102 then keyword "false" (Bool false) s
              else if c =? 78 then keyword "NaN" (Num (lit "NaN")) s
              else if c =? 73 then keyword "Infinity" (Num (lit "Infinity")) s
              else if c =? 45 then keyword "-Infinity" (Num (lit "-Infinity")) s
              else None in
            match const with
            | Some x => Ok x
            | None =>
                match match_number s with
                | Some (lexeme, rest) => Ok (Num lexeme, rest)
                | None => DecodeError
                end
            end
      end
  end
with members (fuel : nat) (acc : dict) (s : str) : res (value * str) :=
  match fuel with
  | O => OutOfFuel
  | S f =>
      match s with
      | q :: r =>
          if q =? 34 then
            '(key, s1) ← scanstring r [];
            match skip_ws s1 with
            | colon :: s2 =>
                if colon =? 58 then
                  '(v, s3) ← scan_once f (skip_ws s2);
                  let acc' := dict_set key v acc in
                  match skip_ws s3 with
                  | d :: s4 =>
                      if d =? 125 then Ok (Obj acc', s4)
                      else if d =? 44 then members f acc' (skip_ws s4)
                      else DecodeError
                  | [] => DecodeError
                  end
                else DecodeError
            | [] => DecodeError
            end
          else DecodeError
      | [] => DecodeError
      end
  end
with elements (fuel : nat) (acc : list value) (s : str) : res (value * str) :=
  match fuel with
  | O => OutOfFuel
  | S f =>
      '(v, s1) ← scan_once f s;
      match skip_ws s1 with
      | d :: s2 =>
          if d =? 93 then Ok (Arr (rev (v :: acc)), s2)
          else if d =? 44 then elements f (v :: acc) (skip_ws s2)
          else DecodeError
      | [] => DecodeError
      end
  end.

(** [JSONDecoder.decode]: one value, white space around it, nothing
    else. *)
Definition decode (fuel : nat) (s : str) : res value :=
  match s with
  | 65279 :: _ => DecodeError       (* a leading byte-order mark *)
  | _ =>
      '(v, rest) ← scan_once fuel (skip_ws s);
      match skip_ws rest with
      | [] => Ok v
      | _ :: _ => DecodeError
      end
  end.

(** [json.loads(s)]: [None] stands for [JSONDecodeError].  The decoder can
    raise two other exceptions, which depend on the settings of the
    interpreter and are left out: [ValueError] on an integer literal longer
    than the limit on digits, and [RecursionError] on nesting deeper than
    the stack allows.  On such a text [loads] gives what the decoder gives
    without these limits. *)
Definition loads (s : str) : option value :=
  match decode (S (2 * length s)) s with
  | Ok v => Some v
  | _ => None
  end.

End json.

(** ** [qctext.py]: the pydantic models *)

Definition field_str (d : json.dict) (k : string) : bool :=
  match json.dict_get (lit k) d with
  | Some (json.Str _) => true
  | _ => false
  end.

(** [Optional[str] = Field(default=None)]: absent, [null] or a string. *)
Definition field_optional_str (d : json.dict) (k : string) : bool :=
  match json.dict_get (lit k) d with
  | None => true
  | Some json.Null => true
  | Some (json.Str _) => true
  | Some _ => false
  end.

(** [List[T]] without a default: the field must be there and be a list whose
    elements validate as [T]. *)
Definition field_list (elem : json.value -> bool) (d : json.dict) (k : string) : bool :=
  match json.dict_get (lit k) d with
  | Some (json.Arr xs) => forallb elem xs
  | _ => false
  end.

Definition is_str (v : json.value) : bool :=
  match v with json.Str _ => true | _ => false end.

(** [class Court(BaseModel): name: str; role: str] *)
Definition Court_validate (v : json.value) : bool :=
  match v with
  | json.Obj d => field_str d "name" && field_str d "role"
  | _ => false
  end.

(** [class Party(BaseModel): name: str; role: str] *)
Definition Party_validate (v : json.value) : bool :=
  match v with
  | json.Obj d => field_str d "name" && field_str d "role"
  | _ => false
  end.

(** [LegalCase.model_validate(json_data)]: [true] when no [ValidationError]
    is raised. *)
Definition LegalCase_model_validate (v : json.value) : bool :=
  match v with
  | json.Obj d =>
      field_str d "document_type"
      && field_str d "case_number"
      && field_list Court_validate d "involved_courts"
      && field_list Party_validate d "parties"
      && field_list is_str d "referenced_laws"
      && field_optional_str d "case_background_full"
      && field_optional_str d "plaintiffs_argument_full"
      && field_optional_str d "defendants_argument_full"
      && field_optional_str d "committee_reasoning_full"
      && field_optional_str d "final_decision"
  | _ => false
  end.

(** ** [qctext.py]: the output directory

    A file of the output directory is known by what [json.load] makes of
    it: a decoded document, or a [JSONDecodeError].  [json.dump] of a value
    leaves a file that decodes to that value.  The directory lists its files
    in the order of [os.listdir]. *)
Inductive file :=
| Doc (v : json.value)
| Malformed.

Definition directory := list (str * file).

Definition listdir (d : directory) : list str := map fst d.

Fixpoint dir_read (name : str) (d : directory) : option file :=
  match d with
  | [] => None
  | (n, f) :: r => if str_eqb name n then Some f else dir_read name r
  end.

(** Opening [name] for writing and dumping [f] into it. *)
Fixpoint dir_write (name : str) (f : file) (d : directory) : directory :=
  match d with
  | [] => [(name, f)]
  | (n, g) :: r =>
      if str_eqb name n then (n, f) :: r else (n, g) :: dir_write name f r
  end.

Definition dot_json : str := lit ".json".
Definition key_case_number : str := lit "case_number".

(** The part of a number's lexeme before its exponent. *)
Fixpoint mantissa (l : str) : str :=
  match l with
  | [] => []
  | c :: r => if (c =? 101) || (c =? 69) then [] else c :: mantissa r
  end.

(** Python truth value of a decoded document; a number is false when it is
    zero, that is when its mantissa has no digit from 1 to 9 (and it is
    neither NaN nor an infinity). *)
Definition truthy (v : json.value) : bool :=
  match v with
  | json.Null => false
  | json.Bool b => b
  | json.Num l =>
      existsb (fun c => (49 <=? c) && (c <=? 57) || (c =? 78) || (c =? 73))
        (mantissa l)
  | json.Str s => negb (str_eqb s [])
  | json.Arr xs => match xs with [] => false | _ => true end
  | json.Obj d => match d with [] => false | _ => true end
  end.

(** ** [qctext.py], [chatbot_app.py]: reading the answer out of the response

    Both clients end [get_completion] with
    [result.get('choices', [{}])[0].get('message', {}).get('content')] on
    the decoded body, inside a [try] whose clauses name [KeyError] and
    [IndexError]. *)
Inductive chain_result :=
| ChainValue (v : json.value)           (* a value; [json.Null] is [None] *)
| ChainCaught                           (* [KeyError], [IndexError]: logged, [None] returned *)
| ChainUncaught.                        (* [AttributeError], [TypeError]: leaves the method *)

Definition chain_bind (r : chain_result) (k : json.value -> chain_result) : chain_result :=
  match r with
  | ChainValue v => k v
  | ChainCaught => ChainCaught
  | ChainUncaught => ChainUncaught
  end.

(** [x.get(key, dflt)]: only a decoded object has [get]. *)
Definition py_get (x : json.value) (key : string) (dflt : json.value) : chain_result :=
  match x with
  | json.Obj d => ChainValue (default dflt (json.dict_get (lit key) d))
  | _ => ChainUncaught
  end.

(** [x[0]]: the first element of a list, the first character of a string;
    no key of a decoded object is [0]; nothing else can be indexed. *)
Definition py_item0 (x : json.value) : chain_result :=
  match x with
  | json.Arr (v :: _) => ChainValue v
  | json.Arr [] => ChainCaught
  | json.Str (c :: _) => ChainValue (json.Str [c])
  | json.Str [] => ChainCaught
  | json.Obj _ => ChainCaught
  | _ => ChainUncaught
  end.

Definition response_content (result : json.value) : chain_result :=
  chain_bind (py_get result "choices" (json.Arr [json.Obj []])) (fun choices =>
  chain_bind (py_item0 choices) (fun choice =>
  chain_bind (py_get choice "message" (json.Obj [])) (fun message =>
  py_get message "content" json.Null))).

(** ** [qctext.py]: the extraction client, the worker and the scheduler *)
Section Pipeline.

(** [OpenRouterConnector.get_completion]: the model's answer to a prompt,
    [None] after a transport or response-shape failure. *)
Variable get_completion : str -> option str.

(** The f-string of [extract_data_for_single_case], as a function of the
    preprocessed document placed in it. *)
Variable prompt : str -> str.

(** [r'---\s*Page\s*\d+\s*---'] *)
Definition page_marker_pattern : re.pattern :=
  [ re.times (re.Lit c_dash) 3; re.star re.Space;
    re.one (re.Lit 80); re.one (re.Lit 97); re.one (re.Lit 103);
    re.one (re.Lit 101); re.star re.Space; re.plus re.Digit;
    re.star re.Space; re.times (re.Lit c_dash) 3 ].

(** [r'\s{2,}'] *)
Definition spaces_pattern : re.pattern := [ re.Item re.Space 2 None false ].

(** [re.sub(p, repl, s)] for a pattern that matches no empty text. *)
Fixpoint re_sub_from (p : re.pattern) (repl : str) (skip : nat) (s : str) : str :=
  match s with
  | [] => []
  | c :: r =>
      match skip with
      | S k => re_sub_from p repl k r
      | O =>
          match re.match_ p s with
          | Some (_ :: m, _) => repl ++ re_sub_from p repl (length m) r
          | _ => c :: re_sub_from p repl O r
          end
      end
  end.

Definition re_sub (p : re.pattern) (repl s : str) : str := re_sub_from p repl O s.

Definition _preprocess_text (text : str) : str :=
  let processed_text := re_sub page_marker_pattern [] text in
  str_strip (re_sub spaces_pattern (lit " ") processed_text).

(** The parsing half of [extract_data_for_single_case]: what is returned
    for a given answer of the model. *)
Definition parse_llm_response (llm_response_str : option str) : option json.value :=
  match llm_response_str with
  | None => None
  | Some [] => None
  | Some resp =>
      match re.search json_block_pattern resp with
      | None => None
      | Some block => json.loads block
      end
  end.

Definition extract_data_for_single_case (single_case_text : str) : option json.value :=
  let clean_text := _preprocess_text single_case_text in
  parse_llm_response (get_completion (prompt clean_text)).

Inductive status := success | failed | skipped_no_id.

(** What a worker hands back: the dictionary it returns, or an exception
    other than [ValidationError] leaving it.  Of these exceptions
    [process_case_worker] below follows the one that depends on the shape
    of the decoded answer, the [AttributeError] of a value without [get].
    It leaves out those that come from elsewhere: out of [get_completion],
    out of [json.loads] (see [json.loads]), out of [re.search] on a content
    that is not a text, out of [open], and out of [json.dump] (a
    [UnicodeEncodeError] on a lone surrogate, after which the file is partly
    written).  What is stated below of the result of a worker concerns the
    calls that return. *)
Inductive worker_result :=
| Returned (st : status) (case_number : option str)
| Raised.

Definition ai_number_is_valid (ai_case_number : option json.value) : bool :=
  match ai_case_number with
  | Some (json.Str s) => re.fullmatch case_number_pattern s
  | _ => false
  end.

Definition process_case_worker (single_case_text : str) (output_dir : directory)
    : worker_result * directory :=
  match re.search case_id_pattern single_case_text with
  | None => (Returned skipped_no_id None, output_dir)
  | Some id =>
      let case_id_for_filename := str_replace [c_slash] [c_dash] id in
      let case_id_for_fallback := id in
      let output_filename := case_id_for_filename ++ dot_json in
      match extract_data_for_single_case single_case_text with
      | Some data =>
          if truthy data then
            match data with
            | json.Obj json_data =>
                let ai_case_number := json.dict_get key_case_number json_data in
                let json_data :=
                  if ai_number_is_valid ai_case_number then json_data
                  else json.dict_set key_case_number
                         (json.Str case_id_for_fallback) json_data in
                if LegalCase_model_validate (json.Obj json_data)
                then (Returned success (Some case_id_for_filename),
                      dir_write output_filename (Doc (json.Obj json_data)) output_dir)
                else (Returned failed (Some case_id_for_filename), output_dir)
            | _ => (Raised, output_dir)    (* no [get] on this value *)
            end
          else (Returned failed (Some case_id_for_filename), output_dir)
      | None => (Returned failed (Some case_id_for_filename), output_dir)
      end
  end.

Record counts := Counts { n_success : nat; n_failed : nat; n_skipped_no_id : nat }.

Definition tally (r : worker_result) (c : counts) : counts :=
  match r with
  | Returned success _ => Counts (S (n_success c)) (n_failed c) (n_skipped_no_id c)
  | Returned failed _ => Counts (n_success c) (S (n_failed c)) (n_skipped_no_id c)
  | Returned skipped_no_id _ => Counts (n_success c) (n_failed c) (S (n_skipped_no_id c))
  | Raised => Counts (n_success c) (S (n_failed c)) (n_skipped_no_id c)
  end.

(** The pool: every task is run once and its result counted.  A worker
    reads nothing from the output directory and writes one file, so the
    tasks are run one after the other, in the order of the task list;
    neither the counts nor the set of files left depends on that order
    ([run_workers_counts_any_order], [run_workers_files_any_order]). *)
Fixpoint run_workers (tasks : list str) (c : counts) (output_dir : directory)
    : counts * directory :=
  match tasks with
  | [] => (c, output_dir)
  | task :: rest =>
      let '(r, output_dir') := process_case_worker task output_dir in
      run_workers rest (tally r c) output_dir'
  end.

(** The case delimiter: 27 underscores. *)
Definition delimiter : str := replicate 27 95.

Definition existing_case_ids (force : bool) (output_dir : directory) : gset str :=
  if force then ∅
  else list_to_set
         (map (fun filename =>
                 str_replace [c_dash] [c_slash] (str_replace dot_json [] filename))
            (filter (fun filename => str_endswith dot_json filename = true)
               (listdir output_dir))).

(** What the files of the input folder add up to, read in sorted order. *)
Definition all_raw_text (md_texts : list str) : str :=
  concat (map (fun t => t ++ [c_newline] ++ delimiter ++ [c_newline]) md_texts).

(** The filter of [run_processing]: the segments handed to the pool. *)
Fixpoint select_cases (existing : gset str) (segments : list str) : list str :=
  match segments with
  | [] => []
  | case_text :: rest =>
      match str_strip case_text with
      | [] => select_cases existing rest
      | stripped =>
          match re.search case_id_pattern case_text with
          | Some id =>
              if bool_decide (id ∈ existing)
              then select_cases existing rest
              else stripped :: select_cases existing rest
          | None => select_cases existing rest
          end
      end
  end.

Definition cases_to_process (force : bool) (md_texts : list str)
    (output_dir : directory) : list str :=
  select_cases (existing_case_ids force output_dir)
    (str_split delimiter (all_raw_text md_texts)).

(** How a run ends: without the input folder, without [.md] files, with
    nothing to process, or with the summary it logs. *)
Inductive run_outcome :=
| NoInputDir
| NoMdFiles
| NoNewCases
| Summary (c : counts).

(** [run_processing]; [input_dir] is [None] when the input folder does not
    exist, and otherwise holds the texts of its [.md] files in the order
    they are read. *)
Definition run_processing (force : bool) (input_dir : option (list str))
    (output_dir : directory) : run_outcome * directory :=
  match input_dir with
  | None => (NoInputDir, output_dir)
  | Some [] => (NoMdFiles, output_dir)
  | Some md_texts =>
      match cases_to_process force md_texts output_dir with
      | [] => (NoNewCases, output_dir)
      | tasks =>
          let '(c, output_dir') := run_workers tasks (Counts 0 0 0) output_dir in
          (Summary c, output_dir')
      end
  end.

End Pipeline.

(** ** [qctext.py]: the repair pass *)

Definition combined_filename_leaf : str := lit "_ALL_CASES_COMBINED.json".

(** [r'.*?\d+/\d{4}'], compiled again in [run_verification_and_repair]. *)
Definition validation_pattern : re.pattern := case_number_pattern.

Definition files_to_check (output_dir : directory) : list str :=
  filter (fun f => str_endswith dot_json f = true ∧ f ≠ combined_filename_leaf)
    (listdir output_dir).

(** The case number the repair pass derives from a file name. *)
Definition new_case_number (filename : str) : str :=
  str_replace [c_dash] [c_slash] (str_replace dot_json [] filename).

(** How the pass ends: no file to check, the summary it logs, or an
    exception its [except] clause does not name leaving the loop.  Of these
    exceptions [repair_loop] below follows the [AttributeError] of a decoded
    value without [get].  It leaves out the exceptions of [json.load] other
    than [JSONDecodeError] and the [UnicodeEncodeError] of [json.dump],
    which end the pass in the same way, the second with the file partly
    overwritten.  What is stated below of the files a pass leaves concerns
    the passes that are not aborted. *)
Inductive repair_outcome :=
| NoJsonFiles
| Finished (valid_count repaired_count : nat)
| Aborted.

Definition current_is_valid (current_case_number : json.value) : bool :=
  match current_case_number with
  | json.Str s => re.fullmatch validation_pattern s
  | _ => false
  end.

(** The loop over [files_to_check]. *)
Fixpoint repair_loop (files : list str) (valid_count repaired_count : nat)
    (output_dir : directory) : repair_outcome * directory :=
  match files with
  | [] => (Finished valid_count repaired_count, output_dir)
  | filename :: rest =>
      match dir_read filename output_dir with
      | None | Some Malformed =>
          (* IOError or JSONDecodeError: logged, next file *)
          repair_loop rest valid_count repaired_count output_dir
      | Some (Doc (json.Obj data)) =>
          let current_case_number :=
            default (json.Str []) (json.dict_get key_case_number data) in
          if current_is_valid current_case_number
          then repair_loop rest (S valid_count) repaired_count output_dir
          else
            let data := json.dict_set key_case_number
                          (json.Str (new_case_number filename)) data in
            repair_loop rest valid_count (S repaired_count)
              (dir_write filename (Doc (json.Obj data)) output_dir)
      | Some (Doc _) =>
          (* AttributeError: the decoded value has no [get] *)
          (Aborted, output_dir)
      end
  end.

Definition run_verification_and_repair (output_dir : directory)
    : repair_outcome * directory :=
  match files_to_check output_dir with
  | [] => (NoJsonFiles, output_dir)
  | files => repair_loop files 0 0 output_dir
  end.

(** ** [qctext.py]: the combined file and [main] *)

(** How [main] ends: it runs to its last line, or an exception leaves it;
    either way with the output directory as it is then. *)
Inductive main_outcome :=
| Completed (output_dir : directory)
| MainRaised (output_dir : directory).

Section Combined.

(** [sorted(file_list, key=natural_sort_key)]: the names in the order of the
    sort, [None] when the sort raises (a part of a name that [isdigit]
    accepts and [int] refuses, or a number compared with a text). *)
Variable natural_sorted : list str -> option (list str).

Variable get_completion : str -> option str.
Variable prompt : str -> str.

(** What the loop of [update_combined_file] appends for a file: the decoded
    document, nothing for an empty file or one that does not decode. *)
Definition loaded_record (output_dir : directory) (filename : str) : option json.value :=
  match dir_read filename output_dir with
  | Some (Doc v) => Some v
  | _ => None
  end.

(** [update_combined_file]: the directory it leaves when it returns, [None]
    when it raises.  The exception followed is the one of the sort; the
    exceptions of [json.load] other than [JSONDecodeError] and the
    [UnicodeEncodeError] of [json.dump], raised after the combined file was
    emptied, are left out.  What is stated below of the combined file
    concerns the calls that return. *)
Definition update_combined_file (output_dir : directory) : option directory :=
  let file_list :=
    filter (fun f => str_endswith dot_json f = true ∧ f ≠ combined_filename_leaf)
      (listdir output_dir) in
  match natural_sorted file_list with
  | None => None
  | Some sorted_list =>
      let all_successful_cases := omap (loaded_record output_dir) sorted_list in
      match all_successful_cases with
      | [] => Some output_dir
      | _ => Some (dir_write combined_filename_leaf
                     (Doc (json.Arr all_successful_cases)) output_dir)
      end
  end.

(** [main], with the two flags of the command line; the output directory
    exists when the passes start. *)
Definition main (force verify_only : bool) (input_dir : option (list str))
    (output_dir : directory) : main_outcome :=
  let output_dir :=
    if verify_only then output_dir
    else (run_processing get_completion prompt force input_dir output_dir).2 in
  match run_verification_and_repair output_dir with
  | (Aborted, output_dir) => MainRaised output_dir
  | (_, output_dir) =>
      match update_combined_file output_dir with
      | Some output_dir => Completed output_dir
      | None => MainRaised output_dir
      end
  end.

End Combined.

(** ** [vector_creation.py]: [ChromaDBManager]

    The collection is a finite map from ids to entries.  A row of the
    embeddings array is kept abstract.  [collection.add] refuses a batch
    that names an id twice and never replaces an entry that is there. *)
Section VectorStore.

Variable vector : Type.

Record entry := Entry {
  entry_embedding : vector;
  entry_document : str;
  entry_metadata : gmap str str
}.

(** [collection.get(ids=...)['ids']] *)
Definition collection_get (c : gmap str entry) (ids : list str) : list str :=
  filter (fun i => is_Some (c !! i)) ids.

Definition add_one (c : gmap str entry) (r : str * entry) : gmap str entry :=
  match c !! r.1 with
  | Some _ => c
  | None => <[r.1 := r.2]> c
  end.

(** [collection.add(...)]: [None] when it raises (an id twice in the
    batch). *)
Definition collection_add (c : gmap str entry) (records : list (str * entry))
    : option (gmap str entry) :=
  if bool_decide (NoDup (map fst records))
  then Some (foldl add_one c records)
  else None.

Definition is_id_exist (c : gmap str entry) (doc_id : str) : bool :=
  bool_decide (0 < length (collection_get c [doc_id]))%nat.

(** The duplicate filter of [add_data]: the loop over
    [zip(embeddings, documents, metadatas, ids)]. *)
Fixpoint new_records (c : gmap str entry) (embeddings : list vector)
    (documents : list str) (metadatas : list (gmap str str)) (ids : list str)
    : list (str * entry) :=
  match embeddings, documents, metadatas, ids with
  | emb :: embeddings', doc :: documents', meta :: metadatas', doc_id :: ids' =>
      let rest := new_records c embeddings' documents' metadatas' ids' in
      if is_id_exist c doc_id then rest
      else (doc_id, Entry emb doc meta) :: rest
  | _, _, _, _ => []
  end.

(** What [add_data] logs before it returns. *)
Inductive add_outcome :=
| LengthMismatch
| NothingNew
| Added (n : nat)
| AddFailed.

Definition add_data (c : gmap str entry) (embeddings : list vector)
    (documents : list str) (metadatas : list (gmap str str)) (ids : list str)
    : add_outcome * gmap str entry :=
  if bool_decide (length embeddings = length documents
                  ∧ length documents = length metadatas
                  ∧ length metadatas = length ids)
  then
    match new_records c embeddings documents metadatas ids with
    | [] => (NothingNew, c)
    | news =>
        match collection_add c news with
        | Some c' => (Added (length news), c')
        | None => (AddFailed, c)
        end
    end
  else (LengthMismatch, c).

End VectorStore.

Arguments Entry {vector}.
Arguments entry_embedding {vector}.
Arguments entry_document {vector}.
Arguments entry_metadata {vector}.
Arguments collection_get {vector}.
Arguments collection_add {vector}.
Arguments add_one {vector}.
Arguments is_id_exist {vector}.
Arguments new_records {vector}.
Arguments add_data {vector}.

(** ** [embedder_bge_m3.py]: loading the combined file

    The embedder declares the models again.  [Court] and [Party] are as in
    [qctext.py]; in [LegalCase] the five text fields are [str | None]
    without a default, so each of them must be there. *)
Module embedder.

(** [str | None] without a default: [null] or a string, and not absent. *)
Definition field_nullable_str (d : json.dict) (k : string) : bool :=
  match json.dict_get (lit k) d with
  | Some json.Null => true
  | Some (json.Str _) => true
  | _ => false
  end.

Definition LegalCase_model_validate (v : json.value) : bool :=
  match v with
  | json.Obj d =>
      field_str d "document_type"
      && field_str d "case_number"
      && field_list Court_validate d "involved_courts"
      && field_list Party_validate d "parties"
      && field_list is_str d "referenced_laws"
      && field_nullable_str d "case_background_full"
      && field_nullable_str d "plaintiffs_argument_full"
      && field_nullable_str d "defendants_argument_full"
      && field_nullable_str d "committee_reasoning_full"
      && field_nullable_str d "final_decision"
  | _ => false
  end.

(** A validated case, with the fields the embedder reads afterwards. *)
Record LegalCase := {
  case_number : str;
  case_background_full : option str;
  plaintiffs_argument_full : option str;
  defendants_argument_full : option str;
  committee_reasoning_full : option str;
  final_decision : option str
}.

Definition text_of (d : json.dict) (k : string) : option str :=
  match json.dict_get (lit k) d with
  | Some (json.Str s) => Some s
  | _ => None
  end.

(** [LegalCase.model_validate(case)]: the model, [None] for a
    [ValidationError]. *)
Definition LegalCase_of (v : json.value) : option LegalCase :=
  match v with
  | json.Obj d =>
      if LegalCase_model_validate v then
        Some {| case_number := default [] (text_of d "case_number");
                case_background_full := text_of d "case_background_full";
                plaintiffs_argument_full := text_of d "plaintiffs_argument_full";
                defendants_argument_full := text_of d "defendants_argument_full";
                committee_reasoning_full := text_of d "committee_reasoning_full";
                final_decision := text_of d "final_decision" |}
      else None
  | _ => None
  end.

(** [for case in sublist]: the elements of a list, the characters of a
    string, the keys of an object; [None] for a [TypeError]. *)
Definition iterate (sublist : json.value) : option (list json.value) :=
  match sublist with
  | json.Arr xs => Some xs
  | json.Str s => Some (map (fun c => json.Str [c]) s)
  | json.Obj d => Some (map (fun kv => json.Str kv.1) d)
  | _ => None
  end.

(** The list that is validated: [data] itself, or [data] flattened by one
    level when its first element is a list. *)
Definition case_list_of (data : list json.value) : option (list json.value) :=
  match data with
  | json.Arr _ :: _ =>
      match mapM iterate data with
      | Some sublists => Some (concat sublists)
      | None => None
      end
  | _ => Some data
  end.

(** [load_and_validate_cases]; the file is absent, does not decode, or
    holds a document.  Every failure is caught and gives the empty list. *)
Definition load_and_validate_cases (f : option file) : list LegalCase :=
  match f with
  | Some (Doc (json.Arr data)) =>
      match case_list_of data with
      | Some case_list => default [] (mapM LegalCase_of case_list)
      | None => []
      end
  | _ => []
  end.

(** The text that stands for a field that is [None] or empty. *)
Definition not_present : str :=
  [3652; 3617; 3656; 3611; 3619; 3634; 3585; 3599; 3586; 3657; 3629; 3617; 3641; 3621].

(** [x or '...'] *)
Definition or_not_present (x : option str) : str :=
  match x with
  | Some (c :: r) => c :: r
  | _ => not_present
  end.

Definition full_text (case : LegalCase) : str :=
  [3648; 3621; 3586; 3588; 3604; 3637; 58; 32] ++ case_number case
  ++ [10; 10; 3588; 3623; 3634; 3617; 3648; 3611; 3655; 3609; 3617; 3634; 3586; 3629;
      3591; 3588; 3604; 3637; 58; 10]
  ++ or_not_present (case_background_full case)
  ++ [10; 10; 3586; 3657; 3629; 3585; 3621; 3656; 3634; 3623; 3629; 3657; 3634; 3591;
      3586; 3629; 3591; 3650; 3592; 3607; 3585; 3660; 58; 10]
  ++ or_not_present (plaintiffs_argument_full case)
  ++ [10; 10; 3586; 3657; 3629; 3605; 3656; 3629; 3626; 3641; 3657; 3586; 3629; 3591;
      3592; 3635; 3648; 3621; 3618; 58; 10]
  ++ or_not_present (defendants_argument_full case)
  ++ [10; 10; 3648; 3627; 3605; 3640; 3612; 3621; 3586; 3629; 3591; 3588; 3603; 3632;
      3585; 3619; 3619; 3617; 3585; 3634; 3619; 58; 10]
  ++ or_not_present (committee_reasoning_full case)
  ++ [10; 10; 3612; 3621; 3588; 3635; 3623; 3636; 3609; 3636; 3592; 3593; 3633; 3618;
      58; 10]
  ++ or_not_present (final_decision case).

(** [prepare_texts_for_embedding]: the texts and the case numbers, in the
    order of the cases. *)
Definition prepare_texts_for_embedding (cases : list LegalCase) : list str * list str :=
  (map full_text cases, map case_number cases).

End embedder.

(** ** [vector_creation.py]: [clear_collection] and [main] *)
Module vector_creation.
Section Main.
Context {vector : Type}.

(** [collection.get(limit=count)['ids']], [count] being the number of
    entries: every id of the collection. *)
Definition collection_ids (c : gmap str (entry vector)) : list str :=
  map fst (map_to_list c).

(** [collection.delete(ids=...)] *)
Definition collection_delete (c : gmap str (entry vector)) (ids : list str)
    : gmap str (entry vector) :=
  foldl (fun c i => delete i c) c ids.

Definition clear_collection (c : gmap str (entry vector)) : gmap str (entry vector) :=
  if bool_decide (0 < size c)%nat
  then collection_delete c (collection_ids c)
  else c.

(** [f"case_{cn.replace('/', '-')}"] *)
Definition doc_id (cn : str) : str :=
  lit "case_" ++ str_replace [c_slash] [c_dash] cn.

(** [{"case_number": cn}] *)
Definition metadata (cn : str) : gmap str str := {[ key_case_number := cn ]}.

(** The step of [main] that fills the collection from the loaded
    embeddings, texts and case numbers. *)
Definition main (c : gmap str (entry vector)) (embeddings : list vector)
    (documents : list str) (case_numbers : list str)
    : add_outcome * gmap str (entry vector) :=
  let metadatas := map metadata case_numbers in
  let ids := map doc_id case_numbers in
  add_data c embeddings documents metadatas ids.

End Main.
End vector_creation.

(** ** [chatbot_app.py]: [LegalMemoGenerator]

    A call of the model is an effect: a computation carries the list of the
    prompts sent to the model so far. *)
Definition llm_calls (A : Type) : Type := list str -> A * list str.

#[export] Instance llm_calls_ret : MRet llm_calls := fun A a log => (a, log).
#[export] Instance llm_calls_bind : MBind llm_calls :=
  fun A B f m log => let '(a, log') := m log in f a log'.

Section MemoGenerator.

(** What a call of [LLMConnector.get_completion] comes to: the answer it
    returns, [None] after a failure it catches, or an exception its [except]
    clauses do not name leaving it (the [AttributeError] or [TypeError] of
    [response_content] on a body of another shape). *)
Inductive completion :=
| Answered (response : option str)
| CompletionRaised.

(** [LLMConnector.get_completion], as what each prompt comes to. *)
Variable llm_answer : str -> completion.

Definition llm_get_completion (p : str) : llm_calls completion :=
  fun log => (llm_answer p, log ++ [p]).

(** The result of [collection.query]: the two keys [generate_memo] reads,
    each absent, or a list with one list per query. *)
Record search_results := SearchResults {
  sr_documents : option (list (list str));
  sr_metadatas : option (list (list (gmap str str)))
}.

(** [VectorDBConnector.search]: [None] after an error. *)
Variable vector_db_search : str -> option search_results.

(** [RESEARCH_PROMPT_TEMPLATE], cut at its two fields. *)
Variables template_head template_mid template_tail : str.

Definition format_template (context case_facts : str) : str :=
  template_head ++ case_facts ++ template_mid ++ context ++ template_tail.

Definition str_of_nat (n : nat) : str :=
  lit (DecimalString.NilZero.string_of_uint (Nat.to_uint n)).

Definition not_available : str := lit "N/A".

(** [meta.get('case_number', 'N/A')] *)
Definition meta_case_number (meta : gmap str str) : str :=
  default not_available (meta !! key_case_number).

(** The loop that labels the retrieved documents, [i] counting from 0. *)
Fixpoint build_context (i : nat) (docs : list str) (metas : list (gmap str str)) : str :=
  match docs, metas with
  | doc :: docs', meta :: metas' =>
      ([45; 45; 45; 32; 3648; 3629; 3585; 3626; 3634; 3619; 3629; 3657; 3634;
        3591; 3629; 3636; 3591; 32]
       ++ str_of_nat (i + 1)
       ++ [32; 40; 3648; 3621; 3586; 3588; 3604; 3637; 58; 32]
       ++ meta_case_number meta ++ [41; 32; 45; 45; 45; 10])
      ++ (doc ++ [10; 10])
      ++ build_context (S i) docs' metas'
  | _, _ => []
  end.

Fixpoint build_sources (docs : list str) (metas : list (gmap str str)) : list str :=
  match docs, metas with
  | doc :: docs', meta :: metas' =>
      ([42; 42; 3648; 3621; 3586; 3588; 3604; 3637; 32]
       ++ meta_case_number meta ++ [58; 42; 42; 10]
       ++ take 250 doc ++ [46; 46; 46])
      :: build_sources docs' metas'
  | _, _ => []
  end.

(** What [generate_memo] gives back: its pair, or an exception leaving it,
    out of the indexing of [metadatas] or out of [get_completion]. *)
Inductive memo_result :=
| Memo (response : option str) (sources : list str)
| MemoRaised.

(** [search_results['documents'][0]], when the guard lets it through. *)
Definition first_documents (r : option search_results) : option (list str) :=
  match r with
  | Some sr =>
      match sr_documents sr with
      | Some (docs :: _) => Some docs
      | Some [] => None
      | None => None
      end
  | None => None
  end.

Definition generate_memo (case_facts : str) : llm_calls memo_result :=
  let search_results := vector_db_search case_facts in
  match search_results with
  | None => mret (Memo None [])
  | Some sr =>
      match sr_documents sr with
      | None | Some [] => mret (Memo None [])
      | Some ([] :: _) => mret (Memo None [])
      | Some (context_docs :: _) =>
          match sr_metadatas sr with
          | Some (metadatas :: _) =>
              let context_str := build_context 0 context_docs metadatas in
              let final_prompt := format_template context_str case_facts in
              response ← llm_get_completion final_prompt;
              match response with
              | Answered response =>
                  mret (Memo response (build_sources context_docs metadatas))
              | CompletionRaised => mret MemoRaised
              end
          | _ => mret MemoRaised
          end
      end
  end.

(** The documents the retrieval step returned for a query. *)
Definition retrieved_documents (case_facts : str) : list str :=
  default [] (first_documents (vector_db_search case_facts)).

End MemoGenerator.

(** ** Notions used in the statements *)

(** The filesystem-safe transform of a case number. *)
Definition filename_safe (case_number : str) : str :=
  str_replace [c_slash] [c_dash] case_number.

Definition all_decimal (s : str) : bool := forallb is_decimal s.

(** A provisional identifier: digits, a slash, four digits. *)
Definition case_id (m : str) : Prop :=
  exists ds y,
    m = ds ++ c_slash :: y /\ ds <> [] /\ all_decimal ds = true
    /\ length y = 4%nat /\ all_decimal y = true.

Fixpoint take_decimal (s : str) : str :=
  match s with
  | c :: r => if is_decimal c then c :: take_decimal r else []
  | [] => []
  end.

Fixpoint drop_decimal (s : str) : str :=
  match s with
  | c :: r => if is_decimal c then drop_decimal r else s
  | [] => []
  end.

(** An identifier at the very start of [s], with what follows it. *)
Definition id_prefix (s : str) : option (str * str) :=
  match take_decimal s, drop_decimal s with
  | (_ :: _) as ds, sl :: s2 =>
      if (sl =? c_slash) && (length (take 4 s2) =? 4)%nat
         && all_decimal (take 4 s2)
      then Some (ds ++ sl :: take 4 s2, drop 4 s2)
      else None
  | _, _ => None
  end.

(** The case-number field of a decoded record, when it is a string. *)
Definition record_case_number (v : json.value) : option str :=
  match v with
  | json.Obj d =>
      match json.dict_get key_case_number d with
      | Some (json.Str s) => Some s
      | _ => None
      end
  | _ => None
  end.

Definition is_object (v : json.value) : bool :=
  match v with json.Obj _ => true | _ => false end.

(** The specification's reading of the response parser: the first block
    whose braces balance, found by counting braces from the first opening
    one.  [depth] is the number of braces open, [acc] the block so far,
    reversed. *)
Fixpoint balanced_from (depth : nat) (acc : str) (s : str) : option str :=
  match s with
  | [] => None
  | c :: r =>
      if c =? c_lbrace then balanced_from (S depth) (c :: acc) r
      else if c =? c_rbrace then
        match depth with
        | 1%nat => Some (rev (c :: acc))
        | _ => balanced_from (pred depth) (c :: acc) r
        end
      else balanced_from depth (c :: acc) r
  end.

Fixpoint first_balanced_block_spec (s : str) : option str :=
  match s with
  | [] => None
  | c :: r =>
      if c =? c_lbrace then
        match balanced_from 1 [c] r with
        | Some b => Some b
        | None => first_balanced_block_spec r
        end
      else first_balanced_block_spec r
  end.

(** The response parser as the specification words it. *)
Definition parse_llm_response_spec (llm_response_str : str) : option json.value :=
  match first_balanced_block_spec llm_response_str with
  | Some block => json.loads block
  | None => None
  end.

(** The first run of the scheduler left no dispatched segment failed. *)
Definition every_segment_succeeded (o : run_outcome) : Prop :=
  match o with
  | Summary c => n_failed c = 0%nat
  | _ => True
  end.

(** The three array fields and the five optional text fields of
    [LegalCase]. *)
Definition array_fields : list string :=
  [ "involved_courts"; "parties"; "referenced_laws" ]%string.

Definition optional_text_fields : list string :=
  [ "case_background_full"; "plaintiffs_argument_full";
    "defendants_argument_full"; "committee_reasoning_full";
    "final_decision" ]%string.

Definition required_text_fields : list string :=
  [ "document_type"; "case_number" ]%string.

(** The shape of a [Court] and of a [Party]: an object with a string under
    [name] and a string under [role]. *)
Definition has_name_and_role (v : json.value) : Prop :=
  exists d name role,
    v = json.Obj d
    /\ json.dict_get (lit "name") d = Some (json.Str name)
    /\ json.dict_get (lit "role") d = Some (json.Str role).

(** A field that holds a list whose elements all have a given shape. *)
Definition holds_list_of (shape : json.value -> Prop) (d : json.dict) (k : string) : Prop :=
  exists xs, json.dict_get (lit k) d = Some (json.Arr xs) /\ Forall shape xs.

Definition is_array (v : json.value) : bool :=
  match v with json.Arr _ => true | _ => false end.

(** The case number a file of the directory holds, when the file decodes to
    a record with a string there. *)
Definition persisted_case_number (name : str) (d : directory) : option str :=
  match dir_read name d with
  | Some (Doc v) => record_case_number v
  | _ => None
  end.

(** The non-empty segments of a corpus in which no identifier is found. *)
Definition identifierless_segments (md_texts : list str) : list str :=
  filter (fun seg => str_strip seg <> [] /\ re.search case_id_pattern seg = None)
    (str_split delimiter (all_raw_text md_texts)).

(** How a run of the scheduler ends when it has nothing to dispatch. *)
Definition idle_outcome (input_dir : option (list str)) : run_outcome :=
  match input_dir with
  | None => NoInputDir
  | Some [] => NoMdFiles
  | Some _ => NoNewCases
  end.

(** The file decodes: [json.load] returns a document. *)
Definition decodes (output_dir : directory) (filename : str) : bool :=
  match dir_read filename output_dir with
  | Some (Doc _) => true
  | _ => false
  end.

(** The output directory [main] leaves. *)
Definition final_directory (o : main_outcome) : directory :=
  match o with Completed d => d | MainRaised d => d end.

(** The object has the key. *)
Definition has_key (d : json.dict) (k : string) : bool :=
  match json.dict_get (lit k) d with Some _ => true | None => false end.

(** A case with its empty texts turned into absent ones. *)
Definition empty_as_absent (x : option str) : option str :=
  match x with Some [] => None | _ => x end.

Definition without_empty_texts (case : embedder.LegalCase) : embedder.LegalCase :=
  {| embedder.case_number := embedder.case_number case;
     embedder.case_background_full := empty_as_absent (embedder.case_background_full case);
     embedder.plaintiffs_argument_full :=
       empty_as_absent (embedder.plaintiffs_argument_full case);
     embedder.defendants_argument_full :=
       empty_as_absent (embedder.defendants_argument_full case);
     embedder.committee_reasoning_full :=
       empty_as_absent (embedder.committee_reasoning_full case);
     embedder.final_decision := empty_as_absent (embedder.final_decision case) |}.

(** [t] occurs in [s]. *)
Definition contains (s t : str) : Prop := exists pre post, s = pre ++ t ++ post.

(** No two white-space characters in a row. *)
Fixpoint no_space_run (s : str) : bool :=
  match s with
  | c :: r =>
      match r with
      | d :: _ => negb (is_space c && is_space d)
      | [] => true
      end && no_space_run r
  | [] => true
  end.

Definition starts_with_space (s : str) : bool :=
  match s with c :: _ => is_space c | [] => false end.

Definition ends_with_space (s : str) : bool := starts_with_space (rev s).

(** ** Sample inputs *)

(** An answer of the model that validates, with a case number whose prefix
    holds a digit.  *)
Definition answer_with_digit_prefix : str :=
  qlit "Here is the JSON: {'document_type': 'ruling', 'case_number': 'Div.2 No.12/2567', 'involved_courts': [{'name': 'Supreme Court', 'role': 'deciding'}], 'parties': [], 'referenced_laws': ['Civil Code'], 'final_decision': null}".

(** An answer whose case number is not a string. *)
Definition answer_without_number : str :=
  qlit "{'document_type': 'ruling', 'case_number': null, 'involved_courts': [], 'parties': [], 'referenced_laws': []}".

(** An answer that leaves out the [parties] array. *)
Definition answer_without_parties : str :=
  qlit "{'document_type': 'ruling', 'case_number': '12/2567', 'involved_courts': [], 'referenced_laws': []}".

(** Two complete objects in one answer. *)
Definition answer_with_two_objects : str := qlit "{'a': 1} {'b': 2}".

Definition sample_segment : str := lit "Ruling 12/2567 of the court".

(** A corpus of one file: a segment with an identifier, one without, and
    an empty one. *)
Definition sample_corpus : list str :=
  [ sample_segment ++ [c_newline] ++ delimiter ++ lit " a note without a number "
    ++ delimiter ++ lit "   " ].

Definition echo (t : str) : str := t.

(** A directory with a record whose case number is missing, a file that
    does not decode, and a file that is not a record. *)
Definition sample_directory : directory :=
  [ (lit "12-2567.json", Doc (json.Obj [(lit "document_type", json.Str (lit "ruling"))]));
    (lit "broken.json", Malformed);
    (lit "notes.txt", Malformed) ].

(** A sort under which every listing is already in order. *)
Definition listing_order (l : list str) : option (list str) := Some l.

(** An answer with every field of the embedder's model, one text empty. *)
Definition answer_with_every_field : str :=
  qlit "{'document_type': 'ruling', 'case_number': '12/2567', 'involved_courts': [], 'parties': [], 'referenced_laws': [], 'case_background_full': null, 'plaintiffs_argument_full': '', 'defendants_argument_full': null, 'committee_reasoning_full': 'reasons', 'final_decision': 'dismissed'}".

(** The document the response parser reads out of an answer. *)
Definition decoded (answer : str) : json.value :=
  default json.Null (parse_llm_response (Some answer)).

(** The fields of a decoded record. *)
Definition fields_of (v : json.value) : json.dict :=
  match v with json.Obj d => d | _ => [] end.

(** ** Notions used in the proofs *)

(** Two lists of ranges have no code point in common. *)
Definition ranges_apart (rs1 rs2 : list (N * N)) : bool :=
  forallb (fun r1 => forallb (fun r2 => (snd r1 <? fst r2) || (snd r2 <? fst r1)) rs2) rs1.

(** A string of white space. *)
Definition spaces (ws : str) : Prop := Forall (fun c => is_space c = true) ws.

(** A file the repair pass would leave as it is: not decodable, or an
    object whose case number is valid or already the one derived from the
    file name. *)
Definition settled (filename : str) (d : directory) : Prop :=
  match dir_read filename d with
  | Some (Doc (json.Obj data)) =>
      current_is_valid (default (json.Str []) (json.dict_get key_case_number data)) = true
      \/ json.dict_get key_case_number data = Some (json.Str (new_case_number filename))
  | Some (Doc _) => False
  | _ => True
  end.

(** What follows the last closing brace of a string. *)
Fixpoint after_last_rbrace (r : str) : option str :=
  match r with
  | [] => None
  | c :: t =>
      match after_last_rbrace t with
      | Some x => Some x
      | None => if c =? c_rbrace then Some t else None
      end
  end.

(** The white space a string starts with. *)
Fixpoint take_space (s : str) : str :=
  match s with
  | c :: r => if is_space c then c :: take_space r else []
  | [] => []
  end.

(** * Properties *)

Ltac break_in H :=
  repeat (match type of H with
          | context [match ?x with _ => _ end] => destruct x eqn:?
          | context [if ?x then _ else _] => destruct x eqn:?
          end; try discriminate).

Ltac field_cases H :=
  repeat (apply elem_of_cons in H as [->|H]); [..|apply elem_of_nil in H; contradiction].

Arguments is_decimal : simpl never.
Arguments is_space : simpl never.

(** ** The embedded runtime on concrete inputs *)

Example search_takes_leftmost_identifier :
  re.search case_id_pattern (lit "see 12/25678 and 3/2560") = Some (lit "12/2567").
Proof. vm_compute. reflexivity. Qed.

Example search_needs_four_digits :
  re.search case_id_pattern (lit "page 12/256, 5 items") = None.
Proof. vm_compute. reflexivity. Qed.

Example search_accepts_thai_digits :
  re.search case_id_pattern [3665; 3666; 47; 3666; 3669; 3670; 3671]
  = Some [3665; 3666; 47; 3666; 3669; 3670; 3671].
Proof. vm_compute. reflexivity. Qed.

Example fullmatch_lazy_prefix_backtracks :
  re.fullmatch case_number_pattern (lit "1a2/2567") = true
  /\ re.fullmatch docket_pattern_spec (lit "1a2/2567") = false
  /\ re.fullmatch case_number_pattern (lit "12/2567 ") = false.
Proof. vm_compute. auto. Qed.

Example fullmatch_dot_stops_at_newline :
  re.fullmatch case_number_pattern (lit "a" ++ [c_newline] ++ lit "1/2567") = false.
Proof. vm_compute. reflexivity. Qed.

Example block_search_is_greedy :
  re.search json_block_pattern (lit "x {a} y {b} z") = Some (lit "{a} y {b}").
Proof. vm_compute. reflexivity. Qed.

Example split_on_delimiter :
  str_split (lit "__") (lit "a__b___c__") = [lit "a"; lit "b"; lit "_c"; []].
Proof. vm_compute. reflexivity. Qed.

Example replace_all_occurrences :
  str_replace dot_json [] (lit "a.json.jsonx.jso") = lit "ax.jso".
Proof. vm_compute. reflexivity. Qed.

Example loads_keeps_last_duplicate_key :
  json.loads (qlit "{'b': 1, 'a': 2, 'b': 3}")
  = Some (json.Obj [(lit "b", json.Num (lit "3")); (lit "a", json.Num (lit "2"))]).
Proof. vm_compute. reflexivity. Qed.

Example loads_decodes_escapes :
  json.loads (qlit "'a\u0e51\n'") = Some (json.Str [97; 3665; 10]).
Proof. vm_compute. reflexivity. Qed.

Example loads_rejects_trailing_text :
  json.loads (qlit "{'a': 1} x") = None /\ json.loads (qlit "{'a': 1,}") = None
  /\ json.loads (qlit "{'a': 01}") = None.
Proof. vm_compute. auto. Qed.

Example preprocess_strips_page_markers :
  _preprocess_text (lit "  a   b --- Page 12 ---  c  ") = lit "a b c".
Proof. vm_compute. reflexivity. Qed.

(** ** Character classes *)

Lemma in_ranges_apart rs1 rs2 c :
  ranges_apart rs1 rs2 = true -> in_ranges rs1 c = true -> in_ranges rs2 c = false.
Proof.
  unfold ranges_apart, in_ranges. intros Ha H1.
  apply existsb_exists in H1 as (r1 & Hin1 & Hc1).
  rewrite forallb_forall in Ha. specialize (Ha _ Hin1).
  rewrite forallb_forall in Ha.
  apply not_true_is_false. intros H2.
  apply existsb_exists in H2 as (r2 & Hin2 & Hc2).
  specialize (Ha _ Hin2).
  apply andb_true_iff in Hc1 as [? ?], Hc2 as [? ?].
  apply orb_true_iff in Ha as [Ha|Ha]; apply N.ltb_lt in Ha;
    repeat match goal with H : (_ <=? _) = true |- _ => apply N.leb_le in H end; lia.
Qed.

Lemma decimal_not_space c : is_decimal c = true -> is_space c = false.
Proof. apply in_ranges_apart. vm_compute. reflexivity. Qed.

Lemma space_not_decimal c : is_space c = true -> is_decimal c = false.
Proof. apply in_ranges_apart. vm_compute. reflexivity. Qed.

Lemma decimal_not_char c x :
  is_decimal x = false -> is_decimal c = true -> c <> x.
Proof. intros Hx Hc ->. congruence. Qed.

Lemma decimal_not_slash c : is_decimal c = true -> c <> c_slash.
Proof. apply decimal_not_char. vm_compute. reflexivity. Qed.

Lemma decimal_not_dash c : is_decimal c = true -> c <> c_dash.
Proof. apply decimal_not_char. vm_compute. reflexivity. Qed.

Lemma decimal_not_dot c : is_decimal c = true -> c <> c_dot.
Proof. apply decimal_not_char. vm_compute. reflexivity. Qed.

Lemma space_not_slash c : is_space c = true -> c <> c_slash.
Proof. intros H ->. vm_compute in H. discriminate. Qed.

(** ** The matcher on the identifier pattern *)

Lemma greedy_zero {R} k s (cont : str -> option R) :
  re.greedy k (Some 0%nat) s cont = cont s.
Proof. destruct s; simpl; rewrite ?andb_false_r; reflexivity. Qed.

Lemma greedy_digits {R} s (cont : str -> option R) :
  (forall c r, is_decimal c = true -> cont (c :: r) = None) ->
  re.greedy re.Digit None s cont = cont (drop_decimal s).
Proof.
  intros Hk. induction s as [|c r IH]; simpl; [reflexivity|].
  destruct (is_decimal c) eqn:Hc; simpl; [|reflexivity].
  rewrite IH. destruct (cont (drop_decimal r)); [reflexivity|].
  apply Hk, Hc.
Qed.

Lemma take_drop_decimal s : take_decimal s ++ drop_decimal s = s.
Proof. induction s as [|c r IH]; simpl; [reflexivity|]. destruct (is_decimal c); simpl; congruence. Qed.

Lemma all_decimal_take_decimal s : all_decimal (take_decimal s) = true.
Proof. induction s as [|c r IH]; simpl; [reflexivity|]. destruct (is_decimal c) eqn:E; simpl; [rewrite E|]; auto. Qed.

Lemma match_seq_case_id {R} s (cont : str -> option R) :
  re.match_seq case_id_pattern s cont =
  match id_prefix s with
  | Some (_, rest) => cont rest
  | None => None
  end.
Proof.
  unfold case_id_pattern, id_prefix. cbn [re.match_seq].
  unfold re.match_item. cbn [re.cls re.lo re.hi re.lazy re.plus re.one re.times re.room].
  destruct s as [|c r]; [reflexivity|].
  cbn [re.exactly re.cmatch take_decimal drop_decimal].
  destruct (is_decimal c) eqn:Hc; [|reflexivity].
  rewrite greedy_digits.
  2:{ intros c' r' Hc'. cbn. destruct (N.eqb_spec c' c_slash) as [->|]; [|reflexivity].
      vm_compute in Hc'. discriminate. }
  destruct (drop_decimal r) as [|sl s2]; [reflexivity|].
  cbn [re.exactly re.cmatch].
  destruct (sl =? c_slash); [|reflexivity]. cbn [andb].
  replace (1 - 1)%nat with 0%nat by reflexivity. rewrite greedy_zero.
  destruct s2 as [|a [|b [|c1 [|d r']]]]; cbn; try reflexivity;
    repeat match goal with
           | |- context [is_decimal ?x] => destruct (is_decimal x); cbn; try reflexivity
           end.
  apply greedy_zero.
Qed.

Lemma id_prefix_spec s m rest :
  id_prefix s = Some (m, rest) -> s = m ++ rest /\ case_id m.
Proof.
  unfold id_prefix. intros H.
  pose proof (take_drop_decimal s) as Hs.
  pose proof (all_decimal_take_decimal s) as Hd.
  destruct (take_decimal s) as [|d ds] eqn:Et; [discriminate|].
  destruct (drop_decimal s) as [|sl s2] eqn:Ed; [discriminate|].
  destruct (N.eqb_spec sl c_slash) as [->|]; [|discriminate]. cbn [andb] in H.
  destruct (Nat.eqb_spec (length (take 4 s2)) 4) as [El|]; [|discriminate].
  destruct (all_decimal (take 4 s2)) eqn:Ea; [|discriminate].
  cbn in H. injection H as <- <-.
  split.
  - rewrite <- Hs. simpl. rewrite <- app_assoc. simpl. rewrite take_drop. reflexivity.
  - exists (d :: ds), (take 4 s2). repeat split; auto. 
Qed.

Lemma match_case_id s : re.match_ case_id_pattern s = id_prefix s.
Proof.
  unfold re.match_. rewrite match_seq_case_id.
  destruct (id_prefix s) as [[m rest]|] eqn:E; [|reflexivity].
  apply id_prefix_spec in E as [-> _].
  rewrite length_app, Nat.add_sub, take_app_length. reflexivity.
Qed.

Lemma search_case_id_unfold s :
  re.search case_id_pattern s =
  match id_prefix s with
  | Some (m, _) => Some m
  | None => match s with _ :: r => re.search case_id_pattern r | [] => None end
  end.
Proof. destruct s; cbn [re.search]; rewrite match_case_id; reflexivity. Qed.

Lemma search_case_id s m : re.search case_id_pattern s = Some m -> case_id m.
Proof.
  induction s as [|c r IH]; rewrite search_case_id_unfold.
  - destruct (id_prefix []) as [[m' rest]|] eqn:E; [|discriminate].
    intros [= <-]. eapply id_prefix_spec, E.
  - destruct (id_prefix (c :: r)) as [[m' rest]|] eqn:E; [|exact IH].
    intros [= <-]. eapply id_prefix_spec, E.
Qed.

Lemma id_prefix_case_id m : case_id m -> id_prefix m = Some (m, []).
Proof.
  intros (ds & y & -> & Hne & Hds & Hy & Hyd).
  unfold id_prefix.
  assert (Ht : forall r, is_decimal (hd 0 r) = false \/ r = [] ->
               take_decimal (ds ++ r) = ds /\ drop_decimal (ds ++ r) = r).
  { clear Hne. induction ds as [|d ds IH]; intros r Hr; simpl.
    - destruct r as [|c r]; [auto|]. destruct Hr as [Hr|Hr]; [|discriminate].
      simpl in Hr. simpl. rewrite Hr. auto.
    - simpl in Hds. apply andb_true_iff in Hds as [Hd Hds]. rewrite Hd.
      destruct (IH Hds r Hr) as [-> ->]. auto. }
  destruct (Ht (c_slash :: y)) as [-> ->]; [left; reflexivity|].
  destruct ds as [|d ds]; [congruence|].
  rewrite take_ge, drop_ge by lia. rewrite Hy, Hyd. reflexivity.
Qed.

Lemma fullmatch_case_id m :
  case_id m -> re.fullmatch case_number_pattern m = true.
Proof.
  intros Hm. unfold re.fullmatch, case_number_pattern.
  change (re.match_seq (re.lazy_star re.Dot :: ?p) m ?k)
    with (re.lazily re.Dot None m (fun s' => re.match_seq p s' k)).
  fold case_id_pattern.
  destruct m; cbn [re.lazily]; rewrite match_seq_case_id, (id_prefix_case_id _ Hm);
    reflexivity.
Qed.

Lemma fullmatch_spec_case_id m :
  case_id m -> re.fullmatch docket_pattern_spec m = true.
Proof.
  intros Hm. unfold re.fullmatch, docket_pattern_spec.
  change (re.match_seq (re.star re.NotDigit :: ?p) m ?k)
    with (re.greedy re.NotDigit None m (fun s' => re.match_seq p s' k)).
  fold case_id_pattern.
  pose proof (id_prefix_case_id _ Hm) as Hp.
  destruct Hm as (ds & y & -> & Hne & Hds & _).
  destruct ds as [|d ds]; [congruence|]. simpl in Hds.
  apply andb_true_iff in Hds as [Hd _].
  cbn [app] in Hp. cbn [app re.greedy re.cmatch]. rewrite Hd. cbn [negb andb].
  rewrite match_seq_case_id, Hp. reflexivity.
Qed.

(** ** Stripping a segment does not change the identifier found in it *)

Lemma id_prefix_nondigit c r : is_decimal c = false -> id_prefix (c :: r) = None.
Proof. intros H. unfold id_prefix. simpl. rewrite H. reflexivity. Qed.

Lemma search_lstrip s :
  re.search case_id_pattern (str_lstrip s) = re.search case_id_pattern s.
Proof.
  induction s as [|c r IH]; [reflexivity|]. simpl str_lstrip.
  destruct (is_space c) eqn:Hc; [|reflexivity].
  rewrite IH, (search_case_id_unfold (c :: r)).
  rewrite id_prefix_nondigit by (apply space_not_decimal, Hc). reflexivity.
Qed.

Lemma decimal_app_spaces s ws :
  spaces ws ->
  take_decimal (s ++ ws) = take_decimal s
  /\ drop_decimal (s ++ ws) = drop_decimal s ++ ws.
Proof.
  intros Hws. induction s as [|c r [IH1 IH2]]; simpl.
  - destruct Hws as [|w ws Hw _]; [auto|]. simpl.
    rewrite (space_not_decimal _ Hw). auto.
  - destruct (is_decimal c); [rewrite IH1, IH2|]; auto.
Qed.

Lemma all_decimal_app a b : all_decimal (a ++ b) = all_decimal a && all_decimal b.
Proof. apply forallb_app. Qed.

Lemma id_prefix_app_spaces s ws :
  spaces ws -> fst <$> id_prefix (s ++ ws) = fst <$> id_prefix s.
Proof.
  intros Hws. unfold id_prefix.
  destruct (decimal_app_spaces s ws Hws) as [-> ->].
  destruct (take_decimal s) as [|d ds]; [reflexivity|].
  destruct (drop_decimal s) as [|sl s2]; simpl.
  - destruct Hws as [|w ws Hw _]; [reflexivity|].
    destruct (N.eqb_spec w c_slash) as [->|]; [|reflexivity].
    vm_compute in Hw. discriminate.
  - destruct (sl =? c_slash); [|reflexivity]. cbn [andb].
    destruct (decide (4 <= length s2)%nat) as [Hl|Hl].
    + rewrite take_app_le by lia. 
      destruct (_ && _); reflexivity.
    + destruct Hws as [|w ws Hw _]; [rewrite app_nil_r; destruct (_ && _); reflexivity|].
      assert (E2 : ((length (take 4 s2) =? 4)%nat = false)).
      { apply Nat.eqb_neq. rewrite length_take. lia. }
      rewrite E2. cbn [andb].
      rewrite take_app_ge by lia.
      destruct (4 - length s2)%nat as [|k] eqn:Ek; [lia|].
      cbn [take]. rewrite !all_decimal_app. cbn [all_decimal forallb].
      rewrite (space_not_decimal _ Hw). cbn [andb]. rewrite !andb_false_r.
      reflexivity.
Qed.

Lemma search_spaces ws : spaces ws -> re.search case_id_pattern ws = None.
Proof.
  induction 1 as [|w ws Hw _ IH]; rewrite search_case_id_unfold.
  - reflexivity.
  - rewrite id_prefix_nondigit by (apply space_not_decimal, Hw). exact IH.
Qed.

Lemma search_app_spaces s ws :
  spaces ws ->
  re.search case_id_pattern (s ++ ws) = re.search case_id_pattern s.
Proof.
  intros Hws. induction s as [|c r IH].
  - simpl app. rewrite (search_spaces _ Hws). reflexivity.
  - rewrite (search_case_id_unfold (c :: r)), (search_case_id_unfold ((c :: r) ++ ws)).
    pose proof (id_prefix_app_spaces (c :: r) ws Hws) as H.
    destruct (id_prefix ((c :: r) ++ ws)) as [[m1 r1]|], (id_prefix (c :: r)) as [[m2 r2]|];
      simpl in H; try discriminate; [congruence|exact IH].
Qed.

Lemma lstrip_decomp s : exists ws, s = ws ++ str_lstrip s /\ spaces ws.
Proof.
  induction s as [|c r (ws & IH & Hws)]; simpl.
  - exists []. split; [reflexivity|constructor].
  - destruct (is_space c) eqn:Hc.
    + exists (c :: ws). split; [simpl; congruence|constructor; auto].
    + exists []. split; [reflexivity|constructor].
Qed.

Lemma rstrip_decomp s : exists ws, s = str_rstrip s ++ ws /\ spaces ws.
Proof.
  unfold str_rstrip. destruct (lstrip_decomp (rev s)) as (ws & E & Hws).
  exists (rev ws). split.
  - rewrite <- rev_app_distr, <- E, rev_involutive. reflexivity.
  - unfold spaces in *. rewrite Forall_forall in *. intros x Hx. apply Hws.
    apply list_elem_of_In, in_rev, list_elem_of_In. exact Hx.
Qed.

Lemma search_rstrip s :
  re.search case_id_pattern (str_rstrip s) = re.search case_id_pattern s.
Proof.
  destruct (rstrip_decomp s) as (ws & E & Hws).
  rewrite E at 2. symmetry. apply search_app_spaces, Hws.
Qed.

Lemma search_strip s :
  re.search case_id_pattern (str_strip s) = re.search case_id_pattern s.
Proof. unfold str_strip. rewrite search_rstrip. apply search_lstrip. Qed.

(** ** File names and the identifiers read back from them *)

Lemma replace_char a b s :
  str_replace [a] [b] s = map (fun c => if c =? a then b else c) s.
Proof.
  unfold str_replace. induction s as [|c r IH]; [reflexivity|].
  cbn [str_replace_from str_startswith]. rewrite andb_true_r, (N.eqb_sym a c).
  cbn [map]. destruct (c =? a); cbn [length pred app]; rewrite IH; reflexivity.
Qed.

Lemma startswith_app p x : str_startswith p (p ++ x) = true.
Proof. induction p as [|a p IH]; simpl; [reflexivity|]. rewrite N.eqb_refl. exact IH. Qed.

Lemma endswith_dot_json t : str_endswith dot_json (t ++ dot_json) = true.
Proof. unfold str_endswith. rewrite rev_app_distr. apply startswith_app. Qed.

Lemma replace_dot_json_suffix t :
  c_dot ∉ t -> str_replace dot_json [] (t ++ dot_json) = t.
Proof.
  unfold str_replace. induction t as [|c r IH]; intros Hn.
  - vm_compute. reflexivity.
  - apply not_elem_of_cons in Hn as [Hc Hr].
    change ((c :: r) ++ dot_json) with (c :: (r ++ dot_json)).
    cbn [str_replace_from].
    replace (str_startswith dot_json (c :: r ++ dot_json)) with false.
    + rewrite (IH Hr). reflexivity.
    + change dot_json with (c_dot :: lit "json"). cbn [str_startswith].
      destruct (N.eqb_spec c_dot c); [congruence|reflexivity].
Qed.

Lemma case_id_chars m c : case_id m -> c ∈ m -> c = c_slash \/ is_decimal c = true.
Proof.
  intros (ds & y & -> & _ & Hds & _ & Hy) Hc.
  unfold all_decimal in *. rewrite forallb_forall in Hds, Hy.
  apply elem_of_app in Hc as [Hc|Hc].
  - right. apply Hds, list_elem_of_In, Hc.
  - apply elem_of_cons in Hc as [Hc|Hc]; [left; exact Hc|].
    right. apply Hy, list_elem_of_In, Hc.
Qed.

Lemma filename_safe_map m :
  filename_safe m = map (fun c => if c =? c_slash then c_dash else c) m.
Proof. apply replace_char. Qed.

Lemma name_roundtrip m :
  case_id m -> new_case_number (filename_safe m ++ dot_json) = m.
Proof.
  intros Hm. unfold new_case_number.
  rewrite replace_dot_json_suffix.
  - rewrite replace_char, filename_safe_map, map_map.
    rewrite <- (map_id m) at 2. apply map_ext_in. intros c Hc.
    apply list_elem_of_In in Hc.
    destruct (N.eqb_spec c c_slash) as [->|Hne]; [reflexivity|].
    destruct (case_id_chars _ _ Hm Hc) as [?|Hd]; [congruence|].
    destruct (N.eqb_spec c c_dash) as [->|]; [|reflexivity].
    vm_compute in Hd. discriminate.
  - rewrite filename_safe_map. intros Hin.
    apply list_elem_of_In, in_map_iff in Hin as (c & Hc & Hin).
    apply list_elem_of_In in Hin.
    destruct (c =? c_slash); [discriminate|]. subst c.
    destruct (case_id_chars _ _ Hm Hin) as [?|Hd]; [discriminate|].
    vm_compute in Hd. discriminate.
Qed.

Lemma elem_of_existing_case_ids id output_dir :
  id ∈ existing_case_ids false output_dir <->
  exists filename, filename ∈ listdir output_dir
    /\ str_endswith dot_json filename = true /\ new_case_number filename = id.
Proof.
  unfold existing_case_ids. rewrite elem_of_list_to_set, list_elem_of_fmap.
  split.
  - intros (f & -> & Hf). apply list_elem_of_filter in Hf as [He Hf].
    exists f. auto.
  - intros (f & Hf & He & <-). exists f. split; [reflexivity|].
    apply list_elem_of_filter. auto.
Qed.

(** ** The output directory *)

Lemma dir_read_write_same n f d : dir_read n (dir_write n f d) = Some f.
Proof.
  induction d as [|[n' g] r IH]; simpl; unfold str_eqb.
  - rewrite bool_decide_true; reflexivity.
  - case_bool_decide as E; simpl; unfold str_eqb.
    + rewrite bool_decide_true; [reflexivity|exact E].
    + rewrite bool_decide_false; [exact IH|exact E].
Qed.

Lemma dir_read_write_other n n' f d :
  n <> n' -> dir_read n' (dir_write n f d) = dir_read n' d.
Proof.
  intros Hne. induction d as [|[m g] r IH]; simpl; unfold str_eqb.
  - rewrite bool_decide_false; [reflexivity|congruence].
  - case_bool_decide as E; simpl; unfold str_eqb.
    + subst m. rewrite bool_decide_false; [reflexivity|congruence].
    + rewrite IH. reflexivity.
Qed.

Lemma listdir_write n f d : listdir (dir_write n f d) = listdir d \/
  listdir (dir_write n f d) = listdir d ++ [n].
Proof.
  induction d as [|[m g] r IH]; simpl; unfold str_eqb.
  - right. reflexivity.
  - case_bool_decide as E; simpl.
    + left. reflexivity.
    + unfold listdir in *. destruct IH as [-> | ->]; auto.
Qed.

Lemma listdir_write_keeps n f d x : x ∈ listdir d -> x ∈ listdir (dir_write n f d).
Proof.
  intros Hx. destruct (listdir_write n f d) as [-> | ->]; [exact Hx|].
  apply elem_of_app. left. exact Hx.
Qed.

Lemma listdir_write_has n f d : n ∈ listdir (dir_write n f d).
Proof.
  induction d as [|[m g] r IH]; simpl; unfold str_eqb.
  - apply elem_of_cons. left. reflexivity.
  - case_bool_decide as E; simpl.
    + subst m. apply elem_of_cons. left. reflexivity.
    + apply elem_of_cons. right. exact IH.
Qed.

Lemma listdir_write_existing n f d :
  n ∈ listdir d -> listdir (dir_write n f d) = listdir d.
Proof.
  induction d as [|[m g] r IH]; simpl; unfold str_eqb; intros Hn.
  - apply elem_of_nil in Hn. contradiction.
  - case_bool_decide as E; simpl; [reflexivity|].
    apply elem_of_cons in Hn as [Hn|Hn]; [congruence|].
    rewrite (IH Hn). reflexivity.
Qed.

Lemma dir_read_is_Some n d f : dir_read n d = Some f -> n ∈ listdir d.
Proof.
  induction d as [|[m g] r IH]; simpl; [discriminate|]. unfold str_eqb.
  case_bool_decide as E; intros H.
  - subst m. apply elem_of_cons. left. reflexivity.
  - apply elem_of_cons. right. apply IH, H.
Qed.

(** ** The [dict] operations *)

Lemma dict_get_set_same k v d : json.dict_get k (json.dict_set k v d) = Some v.
Proof.
  induction d as [|[k' v'] r IH]; simpl; unfold str_eqb.
  - rewrite bool_decide_true; reflexivity.
  - case_bool_decide as E; simpl; unfold str_eqb.
    + rewrite bool_decide_true; reflexivity.
    + rewrite bool_decide_false; [exact IH|exact E].
Qed.

Lemma dict_get_set_other k k' v d :
  k <> k' -> json.dict_get k' (json.dict_set k v d) = json.dict_get k' d.
Proof.
  intros Hne. induction d as [|[m g] r IH]; simpl; unfold str_eqb.
  - rewrite bool_decide_false; [reflexivity|congruence].
  - case_bool_decide as E; simpl; unfold str_eqb.
    + subst m. rewrite !bool_decide_false by congruence. reflexivity.
    + rewrite IH. reflexivity.
Qed.

Lemma dict_set_same k v d :
  json.dict_get k d = Some v -> json.dict_set k v d = d.
Proof.
  induction d as [|[m g] r IH]; simpl; [discriminate|]. unfold str_eqb.
  case_bool_decide as E; intros H.
  - injection H as ->. subst m. reflexivity.
  - rewrite (IH H). reflexivity.
Qed.

(** ** Schema validation *)

Lemma field_str_spec d k :
  field_str d k = true <-> exists s, json.dict_get (lit k) d = Some (json.Str s).
Proof.
  unfold field_str. split.
  - destruct (json.dict_get (lit k) d) as [[| | |s| |]|]; try discriminate. eauto.
  - intros [s ->]. reflexivity.
Qed.

Lemma field_optional_str_spec d k :
  field_optional_str d k = true <->
  json.dict_get (lit k) d = None
  \/ json.dict_get (lit k) d = Some json.Null
  \/ exists s, json.dict_get (lit k) d = Some (json.Str s).
Proof.
  unfold field_optional_str. split.
  - destruct (json.dict_get (lit k) d) as [[| | |s| |]|]; try discriminate; eauto.
  - intros [->|[->|[s ->]]]; reflexivity.
Qed.

Lemma Court_validate_spec v : Court_validate v = true <-> has_name_and_role v.
Proof.
  unfold has_name_and_role. split.
  - destruct v as [| | | | |d]; try discriminate. cbn [Court_validate].
    intros H. apply andb_true_iff in H as [Hn Hr].
    apply field_str_spec in Hn as [name Hn]. apply field_str_spec in Hr as [role Hr].
    exists d, name, role. auto.
  - intros (d & name & role & -> & Hn & Hr). cbn [Court_validate].
    apply andb_true_iff. split; apply field_str_spec; eauto.
Qed.

Lemma Party_validate_spec v : Party_validate v = true <-> has_name_and_role v.
Proof. exact (Court_validate_spec v). Qed.

Lemma is_str_spec v : is_str v = true <-> exists s, v = json.Str s.
Proof.
  split.
  - destruct v; try discriminate. eauto.
  - intros [s ->]. reflexivity.
Qed.

Lemma field_list_spec elem (shape : json.value -> Prop) d k :
  (forall v, elem v = true <-> shape v) ->
  field_list elem d k = true <-> holds_list_of shape d k.
Proof.
  intros Hs. unfold field_list, holds_list_of. split.
  - destruct (json.dict_get (lit k) d) as [[| | | |xs|]|]; try discriminate.
    intros H. exists xs. split; [reflexivity|].
    apply Forall_forall. intros x Hx. apply Hs.
    rewrite forallb_forall in H. apply H. apply list_elem_of_In, Hx.
  - intros (xs & -> & H). apply forallb_forall. intros x Hx.
    apply Hs. rewrite Forall_forall in H. apply H. apply list_elem_of_In, Hx.
Qed.

(** What [LegalCase.model_validate] accepts. *)
Lemma LegalCase_model_validate_spec v :
  LegalCase_model_validate v = true <->
  exists d,
    v = json.Obj d
    /\ (forall k, k ∈ required_text_fields ->
          exists s, json.dict_get (lit k) d = Some (json.Str s))
    /\ holds_list_of has_name_and_role d "involved_courts"
    /\ holds_list_of has_name_and_role d "parties"
    /\ holds_list_of (fun law => exists s, law = json.Str s) d "referenced_laws"
    /\ (forall k, k ∈ optional_text_fields ->
          json.dict_get (lit k) d = None
          \/ json.dict_get (lit k) d = Some json.Null
          \/ exists s, json.dict_get (lit k) d = Some (json.Str s)).
Proof.
  split.
  - destruct v as [| | | | |d]; try discriminate. cbn [LegalCase_model_validate].
    intros H.
    repeat match type of H with
           | _ && _ = true => let H' := fresh "H" in apply andb_true_iff in H as [H H']
           end.
    exists d. split; [reflexivity|]. split; [|split; [|split; [|split]]].
    + intros k Hk. unfold required_text_fields in Hk.
      field_cases Hk; apply field_str_spec; assumption.
    + eapply field_list_spec; [apply Court_validate_spec|assumption].
    + eapply field_list_spec; [apply Party_validate_spec|assumption].
    + eapply field_list_spec; [apply is_str_spec|assumption].
    + intros k Hk. unfold optional_text_fields in Hk.
      field_cases Hk; apply field_optional_str_spec; assumption.
  - intros (d & -> & Hreq & Hc & Hp & Hl & Hopt). cbn [LegalCase_model_validate].
    assert (Hr : forall k, k ∈ required_text_fields -> field_str d k = true).
    { intros k Hk. apply field_str_spec, Hreq, Hk. }
    assert (Ho : forall k, k ∈ optional_text_fields -> field_optional_str d k = true).
    { intros k Hk. apply field_optional_str_spec, Hopt, Hk. }
    rewrite !Hr, !Ho by (unfold required_text_fields, optional_text_fields;
                         repeat first [apply list_elem_of_here | apply list_elem_of_further]).
    rewrite (proj2 (field_list_spec _ _ _ _ Court_validate_spec) Hc).
    rewrite (proj2 (field_list_spec _ _ _ _ Party_validate_spec) Hp).
    rewrite (proj2 (field_list_spec _ _ _ _ is_str_spec) Hl).
    reflexivity.
Qed.

(** ** The extraction worker *)

Section Worker.
Variable get_completion : str -> option str.
Variable prompt : str -> str.

Local Abbreviation worker := (process_case_worker get_completion prompt).

(** What a successful worker did, read off its code. *)
Lemma worker_success text dir cn dir' :
  worker text dir = (Returned success cn, dir') ->
  exists id data final,
    re.search case_id_pattern text = Some id
    /\ cn = Some (filename_safe id)
    /\ dir' = dir_write (filename_safe id ++ dot_json) (Doc (json.Obj data)) dir
    /\ LegalCase_model_validate (json.Obj data) = true
    /\ json.dict_get key_case_number data = Some (json.Str final)
    /\ re.fullmatch case_number_pattern final = true
    /\ (final = id \/
        exists raw, extract_data_for_single_case get_completion prompt text
                      = Some (json.Obj raw)
                    /\ data = raw
                    /\ json.dict_get key_case_number raw = Some (json.Str final)).
Proof.
  unfold process_case_worker. intros H.
  destruct (re.search case_id_pattern text) as [id|] eqn:Es; [|discriminate].
  destruct (extract_data_for_single_case _ _ text) as [data|] eqn:Ex; [|discriminate].
  destruct (truthy data); [|discriminate].
  destruct data as [| | | | |json_data]; try discriminate.
  destruct (ai_number_is_valid (json.dict_get key_case_number json_data)) eqn:Ev.
  - destruct (LegalCase_model_validate (json.Obj json_data)) eqn:Hv; [|discriminate].
    injection H as <- <-.
    unfold ai_number_is_valid in Ev.
    destruct (json.dict_get key_case_number json_data) as [[| | |final| |]|] eqn:Eg;
      try discriminate.
    exists id, json_data, final. repeat split; auto.
    right. exists json_data. auto.
  - destruct (LegalCase_model_validate _) eqn:Hv; [|discriminate].
    injection H as <- <-.
    exists id, (json.dict_set key_case_number (json.Str id) json_data), id.
    repeat split; auto.
    + apply dict_get_set_same.
    + apply fullmatch_case_id. eapply search_case_id, Es.
Qed.

(** The record a successful worker stored, in terms of the object the
    extraction returned. *)
Lemma worker_success_record text dir cn dir' :
  worker text dir = (Returned success cn, dir') ->
  exists id raw,
    re.search case_id_pattern text = Some id
    /\ cn = Some (filename_safe id)
    /\ extract_data_for_single_case get_completion prompt text = Some (json.Obj raw)
    /\ let data := if ai_number_is_valid (json.dict_get key_case_number raw) then raw
                   else json.dict_set key_case_number (json.Str id) raw in
       LegalCase_model_validate (json.Obj data) = true
       /\ dir' = dir_write (filename_safe id ++ dot_json) (Doc (json.Obj data)) dir.
Proof.
  unfold process_case_worker. intros H.
  destruct (re.search case_id_pattern text) as [id|] eqn:Es; [|discriminate].
  destruct (extract_data_for_single_case _ _ text) as [data|] eqn:Ex; [|discriminate].
  destruct (truthy data); [|discriminate].
  destruct data as [| | | | |json_data]; try discriminate.
  exists id, json_data. cbn zeta.
  destruct (LegalCase_model_validate _) eqn:Hv; [|discriminate].
  injection H as <- <-. auto.
Qed.

Lemma worker_no_success text dir r dir' :
  worker text dir = (r, dir') ->
  (forall cn, r <> Returned success cn) -> dir' = dir.
Proof.
  unfold process_case_worker. intros H Hr.
  repeat match type of H with
         | (match ?x with _ => _ end) = _ => destruct x eqn:?
         | (if ?x then _ else _) = _ => destruct x eqn:?
         end;
    injection H as <- <-; try reflexivity; exfalso; eapply Hr; reflexivity.
Qed.

Lemma worker_skipped text dir cn dir' :
  worker text dir = (Returned skipped_no_id cn, dir') ->
  re.search case_id_pattern text = None.
Proof.
  unfold process_case_worker. intros H.
  repeat match type of H with
         | (match ?x with _ => _ end) = _ => destruct x eqn:?
         | (if ?x then _ else _) = _ => destruct x eqn:?
         end; try discriminate; reflexivity.
Qed.

Lemma worker_keeps_files text dir r dir' x :
  worker text dir = (r, dir') -> x ∈ listdir dir -> x ∈ listdir dir'.
Proof.
  intros H Hx. destruct r as [[| |] cn|].
  - apply worker_success in H as (id & data & final & _ & _ & -> & _).
    apply listdir_write_keeps, Hx.
  - apply worker_no_success in H as ->; [exact Hx|discriminate].
  - apply worker_no_success in H as ->; [exact Hx|discriminate].
  - apply worker_no_success in H as ->; [exact Hx|discriminate].
Qed.
End Worker.

(** ** The repair pass *)

Lemma dir_write_same n f d : dir_read n d = Some f -> dir_write n f d = d.
Proof.
  induction d as [|[m g] r IH]; simpl; [discriminate|]. unfold str_eqb.
  case_bool_decide as E; intros H.
  - injection H as ->. subst m. reflexivity.
  - rewrite (IH H). reflexivity.
Qed.

Lemma settled_write_other f g x d :
  g <> f -> settled f d -> settled f (dir_write g x d).
Proof. unfold settled. intros Hne. rewrite dir_read_write_other by exact Hne. auto. Qed.

Lemma repair_loop_settles files :
  forall v r d a b d',
    repair_loop files v r d = (Finished a b, d') ->
    (forall f, settled f d -> settled f d') /\ (forall f, f ∈ files -> settled f d').
Proof.
  induction files as [|g rest IH]; intros v r d a b d' H; cbn [repair_loop] in H.
  - injection H as <- <- <-. split; [auto|]. intros f Hf. apply elem_of_nil in Hf. contradiction.
  - assert (Hgoal : forall v2 r2 d2,
               repair_loop rest v2 r2 d2 = (Finished a b, d') ->
               (forall f, settled f d -> settled f d2) -> settled g d2 ->
               (forall f, settled f d -> settled f d') /\
               (forall f, f ∈ g :: rest -> settled f d')).
    { intros v2 r2 d2 H2 Hpres Hg. destruct (IH _ _ _ _ _ _ H2) as [Hp Hr].
      split; [auto|]. intros f Hf. apply elem_of_cons in Hf as [->|Hf]; auto. }
    destruct (dir_read g d) as [[[| | | | |data]|]|] eqn:Er; try discriminate.
    + destruct (current_is_valid _) eqn:Ev.
      * eapply Hgoal; [exact H|auto|]. unfold settled. rewrite Er. left. exact Ev.
      * eapply Hgoal; [exact H| |].
        -- intros f Hf. destruct (decide (g = f)) as [<-|Hne].
           ++ unfold settled. rewrite dir_read_write_same. right. apply dict_get_set_same.
           ++ apply settled_write_other; assumption.
        -- unfold settled. rewrite dir_read_write_same. right. apply dict_get_set_same.
    + eapply Hgoal; [exact H|auto|]. unfold settled. rewrite Er. exact I.
    + eapply Hgoal; [exact H|auto|]. unfold settled. rewrite Er. exact I.
Qed.

Lemma repair_loop_listdir files :
  forall v r d o d', repair_loop files v r d = (o, d') -> listdir d' = listdir d.
Proof.
  induction files as [|g rest IH]; intros v r d o d' H; cbn [repair_loop] in H.
  - injection H as <- <-. reflexivity.
  - destruct (dir_read g d) as [[[| | | | |data]|]|] eqn:Er;
      try (injection H as <- <-; reflexivity); try (eapply IH; exact H).
    destruct (current_is_valid _); [eapply IH; exact H|].
    apply IH in H. rewrite H. apply listdir_write_existing.
    eapply dir_read_is_Some, Er.
Qed.

(** On settled files the loop changes nothing; it counts as repaired the
    files whose derived number does not pass the validation pattern. *)
Lemma repair_loop_settled files :
  forall v r d,
    (forall f, f ∈ files -> settled f d) ->
    exists v' r', repair_loop files v r d = (Finished v' r', d)
      /\ ((forall f, f ∈ files ->
             re.fullmatch validation_pattern (new_case_number f) = true) -> r' = r).
Proof.
  induction files as [|g rest IH]; intros v r d Hs; cbn [repair_loop].
  - exists v, r. auto.
  - assert (Hrest : forall f, f ∈ rest -> settled f d).
    { intros f Hf. apply Hs, elem_of_cons. auto. }
    assert (Hnames : forall P : str -> Prop,
               (forall f, f ∈ g :: rest -> P f) -> forall f, f ∈ rest -> P f).
    { intros P HP f Hf. apply HP, elem_of_cons. auto. }
    pose proof (Hs g ltac:(apply elem_of_cons; auto)) as Hg.
    unfold settled in Hg.
    destruct (dir_read g d) as [[[| | | | |data]|]|] eqn:Er; try contradiction.
    + destruct (current_is_valid _) eqn:Ev.
      * destruct (IH (S v) r d Hrest) as (v' & r' & -> & Hr).
        exists v', r'. split; [reflexivity|]. intros Hn. apply Hr. eapply Hnames, Hn.
      * destruct Hg as [Hg|Hg]; [discriminate|].
        rewrite (dict_set_same _ _ _ Hg), (dir_write_same _ _ _ Er).
        destruct (IH v (S r) d Hrest) as (v' & r' & -> & Hr).
        exists v', r'. split; [reflexivity|]. intros Hn. exfalso.
        rewrite Hg in Ev. cbn in Ev.
        rewrite (Hn g ltac:(apply elem_of_cons; auto)) in Ev. discriminate.
    + destruct (IH v r d Hrest) as (v' & r' & -> & Hr).
      exists v', r'. split; [reflexivity|]. intros Hn. apply Hr. eapply Hnames, Hn.
    + destruct (IH v r d Hrest) as (v' & r' & -> & Hr).
      exists v', r'. split; [reflexivity|]. intros Hn. apply Hr. eapply Hnames, Hn.
Qed.

Lemma files_to_check_listdir d d' :
  listdir d' = listdir d -> files_to_check d' = files_to_check d.
Proof. unfold files_to_check. intros ->. reflexivity. Qed.

Lemma repair_loop_aborts files f x :
  f ∈ files -> is_object x = false ->
  forall v r d, dir_read f d = Some (Doc x) ->
  exists d', repair_loop files v r d = (Aborted, d').
Proof.
  intros Hf Hx. induction files as [|g rest IH]; intros v r d Hr.
  - apply elem_of_nil in Hf. contradiction.
  - cbn [repair_loop]. destruct (decide (g = f)) as [->|Hne].
    + rewrite Hr. destruct x; try discriminate; eauto.
    + apply elem_of_cons in Hf as [Hf|Hf]; [congruence|].
      destruct (dir_read g d) as [[[| | | | |data]|]|] eqn:Eg; eauto.
      destruct (current_is_valid _); [eauto|].
      apply IH; [exact Hf|]. rewrite dir_read_write_other by exact Hne. exact Hr.
Qed.

(** The loop ends with its summary or with an exception. *)
Lemma repair_loop_outcome files :
  forall v r d, (repair_loop files v r d).1 <> NoJsonFiles.
Proof.
  induction files as [|g rest IH]; intros v r d; cbn [repair_loop]; [discriminate|].
  destruct (dir_read g d) as [[[| | | | |data]|]|]; try discriminate; try apply IH.
  destruct (current_is_valid _); apply IH.
Qed.

(** ** The scheduler *)

Section Scheduler.
Variable get_completion : str -> option str.
Variable prompt : str -> str.

Local Abbreviation worker := (process_case_worker get_completion prompt).
Local Abbreviation pool := (run_workers get_completion prompt).

Lemma tally_failed r c : (n_failed c <= n_failed (tally r c))%nat.
Proof. destruct r as [[| |] ?|]; simpl; lia. Qed.

Lemma run_workers_failed tasks :
  forall c d c' d', pool tasks c d = (c', d') -> (n_failed c <= n_failed c')%nat.
Proof.
  induction tasks as [|t rest IH]; intros c d c' d' H; cbn [run_workers] in H.
  - injection H as <- <-. lia.
  - destruct (worker t d) as [r d1]. apply IH in H.
    pose proof (tally_failed r c). lia.
Qed.

Lemma run_workers_keeps_files tasks :
  forall c d c' d' x, pool tasks c d = (c', d') -> x ∈ listdir d -> x ∈ listdir d'.
Proof.
  induction tasks as [|t rest IH]; intros c d c' d' x H Hx; cbn [run_workers] in H.
  - injection H as <- <-. exact Hx.
  - destruct (worker t d) as [r d1] eqn:Ew. eapply IH; [exact H|].
    eapply worker_keeps_files; eauto.
Qed.

(** When no task failed, every task with an identifier left its file. *)
Lemma run_workers_all_written tasks :
  forall c d c' d',
    pool tasks c d = (c', d') -> n_failed c' = 0%nat ->
    forall t id, t ∈ tasks -> re.search case_id_pattern t = Some id ->
      filename_safe id ++ dot_json ∈ listdir d'.
Proof.
  induction tasks as [|t rest IH]; intros c d c' d' H Hz t' id Ht Hid;
    cbn [run_workers] in H.
  - apply elem_of_nil in Ht. contradiction.
  - destruct (worker t d) as [r d1] eqn:Ew.
    apply elem_of_cons in Ht as [->|Ht]; [|eapply IH; eauto].
    pose proof (run_workers_failed _ _ _ _ _ H) as Hle.
    destruct r as [[| |] cn|]; cbn in Hle; try lia.
    + apply worker_success in Ew as (id' & data & final & Es & _ & -> & _).
      rewrite Hid in Es. injection Es as <-.
      eapply run_workers_keeps_files; [exact H|]. apply listdir_write_has.
    + apply worker_skipped in Ew. congruence.
Qed.

Lemma run_workers_no_skip tasks :
  (forall t, t ∈ tasks -> re.search case_id_pattern t <> None) ->
  forall c d c' d',
    pool tasks c d = (c', d') -> n_skipped_no_id c' = n_skipped_no_id c.
Proof.
  induction tasks as [|t rest IH]; intros Hall c d c' d' H; cbn [run_workers] in H.
  - injection H as <- <-. reflexivity.
  - destruct (worker t d) as [r d1] eqn:Ew.
    apply IH in H; [|intros; apply Hall, elem_of_cons; auto].
    rewrite H. destruct r as [[| |] cn|]; try reflexivity.
    apply worker_skipped in Ew.
    exfalso. eapply Hall; [|exact Ew]. apply elem_of_cons. auto.
Qed.
End Scheduler.

Lemma strip_nil_no_id seg :
  str_strip seg = [] -> re.search case_id_pattern seg = None.
Proof. intros E. rewrite <- search_strip, E. reflexivity. Qed.

Lemma select_cases_elem ex segs t :
  t ∈ select_cases ex segs ->
  exists seg id, seg ∈ segs /\ t = str_strip seg
    /\ re.search case_id_pattern seg = Some id /\ id ∉ ex.
Proof.
  induction segs as [|seg rest IH]; cbn [select_cases]; intros Ht.
  - apply elem_of_nil in Ht. contradiction.
  - assert (Hrest : t ∈ select_cases ex rest ->
               exists seg0 id, seg0 ∈ seg :: rest /\ t = str_strip seg0
                 /\ re.search case_id_pattern seg0 = Some id /\ id ∉ ex).
    { intros H. destruct (IH H) as (s0 & id & Hs & Hrem). exists s0, id.
      split; [apply elem_of_cons; auto|exact Hrem]. }
    destruct (str_strip seg) as [|c st] eqn:Est; [auto|].
    destruct (re.search case_id_pattern seg) as [id|] eqn:Es; [|auto].
    case_bool_decide as Hin; [auto|].
    apply elem_of_cons in Ht as [->|Ht]; [|auto].
    exists seg, id. rewrite Est. repeat split; auto. apply elem_of_cons. auto.
Qed.

Lemma select_cases_has ex segs seg id :
  seg ∈ segs -> re.search case_id_pattern seg = Some id -> id ∉ ex ->
  str_strip seg ∈ select_cases ex segs.
Proof.
  intros Hseg Hid Hex. induction segs as [|s0 rest IH]; cbn [select_cases].
  - apply elem_of_nil in Hseg. contradiction.
  - apply elem_of_cons in Hseg as [<-|Hseg].
    + destruct (str_strip seg) as [|c st] eqn:Est.
      * apply strip_nil_no_id in Est. congruence.
      * rewrite Hid. rewrite bool_decide_false by exact Hex.
        apply elem_of_cons. auto.
    + specialize (IH Hseg).
      destruct (str_strip s0) as [|c st]; [exact IH|].
      destruct (re.search case_id_pattern s0); [|exact IH].
      case_bool_decide; [exact IH|]. apply elem_of_cons. auto.
Qed.

Lemma select_cases_nil ex segs :
  (forall seg id, seg ∈ segs -> re.search case_id_pattern seg = Some id -> id ∈ ex) ->
  select_cases ex segs = [].
Proof.
  intros H. destruct (select_cases ex segs) as [|t ts] eqn:E; [reflexivity|].
  assert (Ht : t ∈ select_cases ex segs) by (rewrite E; apply elem_of_cons; auto).
  apply select_cases_elem in Ht as (seg & id & Hs & _ & Hid & Hex).
  exfalso. apply Hex. eapply H; eauto.
Qed.

Lemma select_cases_nil_inv ex segs seg id :
  select_cases ex segs = [] -> seg ∈ segs ->
  re.search case_id_pattern seg = Some id -> id ∈ ex.
Proof.
  intros E Hs Hid. destruct (decide (id ∈ ex)) as [|Hex]; [assumption|].
  pose proof (select_cases_has _ _ _ _ Hs Hid Hex) as H. rewrite E in H.
  apply elem_of_nil in H. contradiction.
Qed.

Lemma existing_keeps_files d d' id :
  (forall x, x ∈ listdir d -> x ∈ listdir d') ->
  id ∈ existing_case_ids false d -> id ∈ existing_case_ids false d'.
Proof.
  intros Hsub. rewrite !elem_of_existing_case_ids.
  intros (f & Hf & He & Hn). exists f. auto.
Qed.

Lemma existing_has_written d id :
  case_id id -> filename_safe id ++ dot_json ∈ listdir d ->
  id ∈ existing_case_ids false d.
Proof.
  intros Hid Hf. apply elem_of_existing_case_ids.
  exists (filename_safe id ++ dot_json). split; [exact Hf|]. split.
  - apply endswith_dot_json.
  - apply name_roundtrip, Hid.
Qed.

(** After a run in which no dispatched segment failed, every identifier of
    the corpus is among the existing ones. *)
Lemma run_processing_covers gc pr force md d0 o d1 :
  run_processing gc pr force (Some md) d0 = (o, d1) ->
  every_segment_succeeded o ->
  forall seg id, seg ∈ str_split delimiter (all_raw_text md) ->
    re.search case_id_pattern seg = Some id -> id ∈ existing_case_ids false d1.
Proof.
  unfold run_processing. intros H Hok seg id Hseg Hid.
  destruct md as [|m0 md']; [|set (md := m0 :: md') in *].
  { injection H as <- <-. vm_compute in Hseg.
    apply elem_of_cons in Hseg as [->|Hseg]; [discriminate|].
    apply elem_of_nil in Hseg. contradiction. }
  unfold cases_to_process in H.
  destruct (select_cases (existing_case_ids force d0) _) as [|t ts] eqn:Esel.
  - injection H as <- <-.
    pose proof (select_cases_nil_inv _ _ _ _ Esel Hseg Hid) as Hin.
    destruct force; [|exact Hin]. cbn in Hin. apply elem_of_empty in Hin. contradiction.
  - rewrite <- Esel in H. clear t ts Esel.
    destruct (run_workers gc pr _ _ d0) as [c d'] eqn:Erun.
    injection H as <- <-. cbn in Hok.
    destruct (decide (id ∈ existing_case_ids force d0)) as [Hin|Hex].
    + destruct force; [cbn in Hin; apply elem_of_empty in Hin; contradiction|].
      eapply existing_keeps_files; [|exact Hin].
      intros x. eapply run_workers_keeps_files, Erun.
    + apply existing_has_written; [eapply search_case_id, Hid|].
      eapply run_workers_all_written; [exact Erun|exact Hok| |].
      * eapply select_cases_has; eauto.
      * rewrite search_strip. exact Hid.
Qed.

(** ** The response parser: the block from the first opening brace to the
    last closing one *)

Lemma greedy_any_rbrace r :
  re.greedy re.AnyChar None r
    (fun s' => re.exactly (re.Lit c_rbrace) 1 s'
                 (fun s'' => re.greedy (re.Lit c_rbrace) (Some 0%nat) s'' Some))
  = after_last_rbrace r.
Proof.
  induction r as [|c t IH]; [reflexivity|].
  cbn [re.greedy re.cmatch re.may_take re.taken andb after_last_rbrace].
  rewrite IH. destruct (after_last_rbrace t); [reflexivity|].
  cbn [re.exactly re.cmatch]. destruct (c =? c_rbrace); [|reflexivity].
  apply greedy_zero.
Qed.

Lemma match_seq_json_block s :
  re.match_seq json_block_pattern s Some =
  match s with
  | c :: r => if c =? c_lbrace then after_last_rbrace r else None
  | [] => None
  end.
Proof.
  unfold json_block_pattern. cbn [re.match_seq]. unfold re.match_item.
  cbn [re.cls re.lo re.hi re.lazy re.one re.star re.room].
  destruct s as [|c r]; [reflexivity|].
  cbn [re.exactly re.cmatch]. destruct (c =? c_lbrace); [|reflexivity].
  replace (1 - 1)%nat with 0%nat by reflexivity. rewrite greedy_zero.
  apply greedy_any_rbrace.
Qed.

Lemma after_last_rbrace_Some r post :
  after_last_rbrace r = Some post ->
  exists mid, r = mid ++ c_rbrace :: post /\ c_rbrace ∉ post.
Proof.
  revert post. induction r as [|c t IH]; intros post; cbn [after_last_rbrace]; [discriminate|].
  destruct (after_last_rbrace t) as [x|] eqn:E.
  - intros [= ->]. destruct (IH _ eq_refl) as (mid & -> & Hn).
    exists (c :: mid). auto.
  - destruct (N.eqb_spec c c_rbrace) as [->|]; [|discriminate].
    intros [= ->]. exists []. split; [reflexivity|].
    clear IH. induction post as [|d u IHu]; [apply not_elem_of_nil|].
    cbn [after_last_rbrace] in E.
    destruct (after_last_rbrace u); [discriminate|].
    destruct (N.eqb_spec d c_rbrace); [discriminate|].
    apply not_elem_of_cons. auto.
Qed.

Lemma after_last_rbrace_app mid post :
  c_rbrace ∉ post -> after_last_rbrace (mid ++ c_rbrace :: post) = Some post.
Proof.
  intros Hn.
  assert (Hpost : after_last_rbrace post = None).
  { induction post as [|d u IHu]; [reflexivity|].
    apply not_elem_of_cons in Hn as [Hd Hu]. cbn [after_last_rbrace].
    rewrite (IHu Hu). destruct (N.eqb_spec d c_rbrace); congruence. }
  induction mid as [|c t IH]; cbn [app after_last_rbrace].
  - rewrite Hpost, N.eqb_refl. reflexivity.
  - rewrite IH. reflexivity.
Qed.

Lemma take_prefix (a b : str) : take (length (a ++ b) - length b) (a ++ b) = a.
Proof. rewrite length_app, Nat.add_sub. apply take_app_length. Qed.

Lemma block_assoc mid post :
  c_lbrace :: mid ++ c_rbrace :: post = (c_lbrace :: mid ++ [c_rbrace]) ++ post.
Proof. cbn [app]. rewrite <- app_assoc. reflexivity. Qed.

Lemma take_block mid post :
  take (length (c_lbrace :: mid ++ c_rbrace :: post) - length post)
    (c_lbrace :: mid ++ c_rbrace :: post) = c_lbrace :: mid ++ [c_rbrace].
Proof. rewrite block_assoc. apply take_prefix. Qed.

Lemma match_json_block_Some s m rest :
  re.match_ json_block_pattern s = Some (m, rest) ->
  exists mid, m = c_lbrace :: mid ++ [c_rbrace] /\ s = m ++ rest /\ c_rbrace ∉ rest.
Proof.
  unfold re.match_. rewrite match_seq_json_block.
  destruct s as [|c r]; [discriminate|].
  destruct (N.eqb_spec c c_lbrace) as [->|]; [|discriminate].
  destruct (after_last_rbrace r) as [post|] eqn:E; [|discriminate].
  apply after_last_rbrace_Some in E as (mid & -> & Hn).
  rewrite take_block. intros [= <- <-]. exists mid.
  split; [reflexivity|]. split; [apply block_assoc|exact Hn].
Qed.

Lemma search_json_block_found pre mid post :
  c_lbrace ∉ pre -> c_rbrace ∉ post ->
  re.search json_block_pattern (pre ++ c_lbrace :: mid ++ c_rbrace :: post)
  = Some (c_lbrace :: mid ++ [c_rbrace]).
Proof.
  intros Hpre Hpost. induction pre as [|c t IH].
  - cbn [app re.search]. unfold re.match_. rewrite match_seq_json_block.
    rewrite N.eqb_refl, (after_last_rbrace_app _ _ Hpost), take_block.
    reflexivity.
  - apply not_elem_of_cons in Hpre as [Hc Ht].
    cbn [app re.search]. unfold re.match_ at 1. rewrite match_seq_json_block.
    destruct (N.eqb_spec c c_lbrace); [congruence|]. apply IH, Ht.
Qed.

Lemma search_json_block_Some s b :
  re.search json_block_pattern s = Some b ->
  exists pre mid post,
    s = pre ++ c_lbrace :: mid ++ c_rbrace :: post
    /\ b = c_lbrace :: mid ++ [c_rbrace].
Proof.
  induction s as [|c t IH]; cbn [re.search].
  - unfold re.match_. rewrite match_seq_json_block. discriminate.
  - destruct (re.match_ json_block_pattern (c :: t)) as [[m rest]|] eqn:E.
    + intros [= <-]. apply match_json_block_Some in E as (mid & -> & Hs & _).
      exists [], mid, rest. split; [|reflexivity].
      rewrite Hs. symmetry. apply block_assoc.
    + intros H. destruct (IH H) as (pre & mid & post & -> & ->).
      exists (c :: pre), mid, post. auto.
Qed.

(** ** The decoder *)

Lemma members_object f :
  forall acc s v rest, json.members f acc s = json.Ok (v, rest) -> is_object v = true.
Proof.
  induction f as [|f IH]; intros acc s v rest H; cbn [json.members] in H; [discriminate|].
  unfold mbind, json.res_bind, json.bind in H.
  destruct s as [|q r]; [discriminate|].
  destruct (q =? 34); [|discriminate].
  destruct (json.scanstring r []) as [[key s1]| |]; try discriminate.
  destruct (json.skip_ws s1) as [|colon s2]; [discriminate|].
  destruct (colon =? 58); [|discriminate].
  destruct (json.scan_once f (json.skip_ws s2)) as [[v0 s3]| |]; try discriminate.
  destruct (json.skip_ws s3) as [|d s4]; [discriminate|].
  destruct (d =? 125); [injection H as <- <-; reflexivity|].
  destruct (d =? 44); [|discriminate].
  eapply IH, H.
Qed.

Lemma loads_object r v : json.loads (c_lbrace :: r) = Some v -> is_object v = true.
Proof.
  unfold json.loads, json.decode. cbn [json.skip_ws]. 
  change (json.is_ws c_lbrace) with false. cbv iota.
  change (c_lbrace =? 65279) with false.
  cbn [length json.scan_once].
  change (c_lbrace =? 34) with false. change (c_lbrace =? 123) with true. cbv iota.
  unfold mbind, json.res_bind, json.bind.
  intros H.
  destruct (json.skip_ws r) as [|c' r'] eqn:Er; [discriminate|].
  destruct (c' =? 125).
  - destruct (json.skip_ws r'); [|discriminate]. injection H as <-. reflexivity.
  - destruct (json.members _ _ _) as [[v0 rest]| |] eqn:Em; try discriminate.
    destruct (json.skip_ws rest); [|discriminate]. injection H as <-.
    eapply members_object, Em.
Qed.

Lemma parse_llm_response_object resp v :
  parse_llm_response resp = Some v -> is_object v = true.
Proof.
  unfold parse_llm_response. destruct resp as [[|c t]|]; try discriminate.
  destruct (re.search json_block_pattern (c :: t)) as [b|] eqn:E; [|discriminate].
  apply search_json_block_Some in E as (pre & mid & post & _ & ->).
  apply loads_object.
Qed.

(** *** The recursion budget of [loads] is never used up *)

Lemma skip_ws_length s : (length (json.skip_ws s) <= length s)%nat.
Proof.
  induction s as [|c r IH]; cbn [json.skip_ws length]; [lia|].
  destruct (json.is_ws c); cbn [length]; lia.
Qed.

Lemma scanstring_shrinks n :
  forall s, (length s <= n)%nat ->
  forall acc x rest, json.scanstring s acc = json.Ok (x, rest) ->
    (length rest < length s)%nat.
Proof.
  induction n as [|n IH]; intros s Hn acc x rest H.
  - destruct s; [discriminate|cbn in Hn; lia].
  - destruct s as [|c r]; [discriminate|]. cbn [json.scanstring] in H.
    cbn [length] in Hn.
    destruct (c =? 34); [injection H as <- <-; cbn; lia|].
    destruct (c <? 32); [discriminate|].
    destruct (c =? 92).
    2:{ apply IH in H; [cbn [length]; lia|lia]. }
    destruct r as [|e r1]; [discriminate|].
    destruct (e =? 117).
    2:{ destruct (json.simple_escape e); [|discriminate].
        apply IH in H; cbn [length] in *; lia. }
    destruct r1 as [|h1 [|h2 [|h3 [|h4 r2]]]]; try discriminate.
    destruct (json.hex4 h1 h2 h3 h4) as [u|]; [|discriminate].
    assert (Hplain : forall a, json.scanstring r2 a = json.Ok (x, rest) ->
                       (length rest < length (c :: e :: h1 :: h2 :: h3 :: h4 :: r2))%nat).
    { intros a Ha. apply IH in Ha; cbn [length] in *; lia. }
    destruct r2 as [|b [|v [|g1 [|g2 [|g3 [|g4 r3]]]]]]; try (eapply Hplain, H).
    destruct (json.is_high_surrogate u && (b =? 92) && (v =? 117)); [|eapply Hplain, H].
    destruct (json.hex4 g1 g2 g3 g4) as [u2|]; [|discriminate].
    destruct (json.is_low_surrogate u2); [|eapply Hplain, H].
    apply IH in H; cbn [length] in *; lia.
Qed.

Lemma span_digits_length s ds rest :
  json.span_digits s = (ds, rest) -> (length rest <= length s)%nat.
Proof.
  revert ds rest. induction s as [|c r IH]; intros ds rest; cbn [json.span_digits].
  - intros [= <- <-]. lia.
  - destruct (json.ascii_digit c).
    + destruct (json.span_digits r) as [ds' rest'] eqn:E. intros [= <- <-].
      specialize (IH _ _ eq_refl). cbn [length]. lia.
    + intros [= <- <-]. lia.
Qed.

Lemma number_sign_length s sg rest :
  json.number_sign s = (sg, rest) -> (length rest <= length s)%nat.
Proof.
  unfold json.number_sign. destruct s as [|c r]; [intros [= <- <-]; lia|].
  destruct (c =? 45); intros [= <- <-]; cbn [length]; lia.
Qed.

Lemma number_int_length s l rest :
  json.number_int s = Some (l, rest) -> (length rest < length s)%nat.
Proof.
  unfold json.number_int. destruct s as [|c r]; [discriminate|].
  destruct (c =? 48); [intros [= <- <-]; cbn [length]; lia|].
  destruct (json.ascii_digit c); [|discriminate].
  destruct (json.span_digits r) as [ds rest'] eqn:E.
  apply span_digits_length in E. intros [= <- <-]. cbn [length]. lia.
Qed.

Lemma number_frac_length s l rest :
  json.number_frac s = (l, rest) -> (length rest <= length s)%nat.
Proof.
  unfold json.number_frac. destruct s as [|p [|d r]]; try (intros [= <- <-]; lia).
  destruct ((p =? 46) && json.ascii_digit d); [|intros [= <- <-]; lia].
  destruct (json.span_digits r) as [ds rest'] eqn:E.
  apply span_digits_length in E. intros [= <- <-]. cbn [length]. lia.
Qed.

Lemma number_exp_length s l rest :
  json.number_exp s = (l, rest) -> (length rest <= length s)%nat.
Proof.
  unfold json.number_exp. destruct s as [|e r]; [intros [= <- <-]; lia|].
  destruct ((e =? 101) || (e =? 69)); [|intros [= <- <-]; lia].
  destruct r as [|g t].
  - cbn. intros [= <- <-]. cbn [length]. lia.
  - destruct ((g =? 45) || (g =? 43)).
    + destruct (json.span_digits t) as [ds rest'] eqn:E.
      apply span_digits_length in E.
      destruct ds; intros [= <- <-]; cbn [length]; lia.
    + destruct (json.span_digits (g :: t)) as [ds rest'] eqn:E.
      apply span_digits_length in E.
      destruct ds; intros [= <- <-]; cbn [length] in *; lia.
Qed.

Lemma match_number_shrinks s l rest :
  json.match_number s = Some (l, rest) -> (length rest < length s)%nat.
Proof.
  unfold json.match_number.
  destruct (json.number_sign s) as [sign s1] eqn:E1. apply number_sign_length in E1.
  destruct (json.number_int s1) as [[int s2]|] eqn:E2; [|discriminate].
  apply number_int_length in E2.
  destruct (json.number_frac s2) as [frac s3] eqn:E3. apply number_frac_length in E3.
  destruct (json.number_exp s3) as [exp s4] eqn:E4. apply number_exp_length in E4.
  intros [= <- <-]. lia.
Qed.

Lemma keyword_shrinks w v s x rest :
  json.keyword w v s = Some (x, rest) -> (0 < length (lit w))%nat ->
  s <> [] -> (length rest < length s)%nat.
Proof.
  unfold json.keyword. destruct (str_startswith (lit w) s); [|discriminate].
  intros [= <- <-] Hw Hs. rewrite length_drop.
  destruct s; [congruence|]. cbn [length]. lia.
Qed.

Lemma scan_shrinks f :
  (forall s v rest, json.scan_once f s = json.Ok (v, rest) -> (length rest < length s)%nat)
  /\ (forall acc s v rest, json.members f acc s = json.Ok (v, rest) -> (length rest < length s)%nat)
  /\ (forall acc s v rest, json.elements f acc s = json.Ok (v, rest) -> (length rest < length s)%nat).
Proof.
  induction f as [|f (IHs & IHm & IHe)]; [repeat split; intros; discriminate|].
  repeat split.
  - intros s v rest H. cbn [json.scan_once] in H.
    unfold mbind, json.res_bind, json.bind in H.
    destruct s as [|c r]; [discriminate|].
    destruct (c =? 34).
    { destruct (json.scanstring r []) as [[x r']| |] eqn:E; try discriminate.
      injection H as <- <-. apply (scanstring_shrinks _ _ (le_n _)) in E.
      cbn [length]. lia. }
    destruct (c =? 123).
    { pose proof (skip_ws_length r) as Hw.
      destruct (json.skip_ws r) as [|c' r']; [discriminate|].
      destruct (c' =? 125).
      - injection H as <- <-. cbn [length] in *. lia.
      - apply IHm in H. cbn [length] in *. lia. }
    destruct (c =? 91).
    { pose proof (skip_ws_length r) as Hw.
      destruct (json.skip_ws r) as [|c' r']; [discriminate|].
      destruct (c' =? 93).
      - injection H as <- <-. cbn [length] in *. lia.
      - apply IHe in H. cbn [length] in *. lia. }
    match type of H with
    | match ?k with _ => _ end = _ => destruct k as [[x rest']|] eqn:Ek
    end.
    + injection H as <- <-.
      repeat match type of Ek with
             | (if ?b then _ else _) = _ => destruct b
             end;
        try discriminate;
        (eapply keyword_shrinks; [exact Ek|vm_compute; lia|discriminate]).
    + destruct (json.match_number (c :: r)) as [[l rest']|] eqn:En; [|discriminate].
      injection H as <- <-. eapply match_number_shrinks, En.
  - intros acc s v rest H. cbn [json.members] in H.
    unfold mbind, json.res_bind, json.bind in H.
    destruct s as [|q r]; [discriminate|].
    destruct (q =? 34); [|discriminate].
    destruct (json.scanstring r []) as [[key s1]| |] eqn:E1; try discriminate.
    apply (scanstring_shrinks _ _ (le_n _)) in E1.
    pose proof (skip_ws_length s1) as Hw1.
    destruct (json.skip_ws s1) as [|colon s2]; [discriminate|].
    destruct (colon =? 58); [|discriminate].
    pose proof (skip_ws_length s2) as Hw2.
    destruct (json.scan_once f (json.skip_ws s2)) as [[v0 s3]| |] eqn:E3; try discriminate.
    apply IHs in E3.
    pose proof (skip_ws_length s3) as Hw3.
    destruct (json.skip_ws s3) as [|d s4]; [discriminate|].
    pose proof (skip_ws_length s4) as Hw4.
    destruct (d =? 125); [injection H as <- <-; cbn [length] in *; lia|].
    destruct (d =? 44); [|discriminate].
    apply IHm in H. cbn [length] in *. lia.
  - intros acc s v rest H. cbn [json.elements] in H.
    unfold mbind, json.res_bind, json.bind in H.
    destruct (json.scan_once f s) as [[v0 s1]| |] eqn:E1; try discriminate.
    apply IHs in E1.
    pose proof (skip_ws_length s1) as Hw1.
    destruct (json.skip_ws s1) as [|d s2]; [discriminate|].
    pose proof (skip_ws_length s2) as Hw2.
    destruct (d =? 93); [injection H as <- <-; cbn [length] in *; lia|].
    destruct (d =? 44); [|discriminate].
    apply IHe in H. cbn [length] in *. lia.
Qed.

Lemma scanstring_no_fuel n :
  forall s, (length s <= n)%nat -> forall acc, json.scanstring s acc <> json.OutOfFuel.
Proof.
  induction n as [|n IH]; intros s Hn acc H.
  - destruct s; [discriminate|cbn in Hn; lia].
  - destruct s as [|c r]; [discriminate|]. cbn [json.scanstring] in H.
    cbn [length] in Hn.
    destruct (c =? 34); [discriminate|].
    destruct (c <? 32); [discriminate|].
    destruct (c =? 92).
    2:{ apply IH in H; [exact H|lia]. }
    destruct r as [|e r1]; [discriminate|].
    destruct (e =? 117).
    2:{ destruct (json.simple_escape e); [|discriminate].
        apply IH in H; [exact H|cbn [length] in *; lia]. }
    destruct r1 as [|h1 [|h2 [|h3 [|h4 r2]]]]; try discriminate.
    destruct (json.hex4 h1 h2 h3 h4) as [u|]; [|discriminate].
    assert (Hplain : forall a, json.scanstring r2 a <> json.OutOfFuel).
    { intros a. apply IH. cbn [length] in *. lia. }
    destruct r2 as [|b [|v [|g1 [|g2 [|g3 [|g4 r3]]]]]]; try (eapply Hplain, H).
    destruct (json.is_high_surrogate u && (b =? 92) && (v =? 117)); [|eapply Hplain, H].
    destruct (json.hex4 g1 g2 g3 g4) as [u2|]; [|discriminate].
    destruct (json.is_low_surrogate u2); [|eapply Hplain, H].
    apply IH in H; [exact H|cbn [length] in *; lia].
Qed.

Lemma fuel_enough f :
  (forall s, (2 * length s < f)%nat -> json.scan_once f s <> json.OutOfFuel)
  /\ (forall acc s, (2 * length s < f)%nat -> json.members f acc s <> json.OutOfFuel)
  /\ (forall acc s, (2 * length s + 1 < f)%nat -> json.elements f acc s <> json.OutOfFuel).
Proof.
  induction f as [|f (IHs & IHm & IHe)]; [repeat split; intros; lia|].
  destruct (scan_shrinks f) as (Ss & Sm & Se).
  repeat split.
  - intros s Hl H. cbn [json.scan_once] in H.
    unfold mbind, json.res_bind, json.bind in H.
    destruct s as [|c r]; [discriminate|]. cbn [length] in Hl.
    destruct (c =? 34).
    { destruct (json.scanstring r []) as [[x r']| |] eqn:E; try discriminate.
      eapply scanstring_no_fuel; [|exact E]. apply le_n. }
    destruct (c =? 123).
    { pose proof (skip_ws_length r) as Hw.
      destruct (json.skip_ws r) as [|c' r']; [discriminate|].
      destruct (c' =? 125); [discriminate|].
      eapply IHm; [|exact H]. cbn [length] in *. lia. }
    destruct (c =? 91).
    { pose proof (skip_ws_length r) as Hw.
      destruct (json.skip_ws r) as [|c' r']; [discriminate|].
      destruct (c' =? 93); [discriminate|].
      eapply IHe; [|exact H]. cbn [length] in *. lia. }
    break_in H.
  - intros acc s Hl H. cbn [json.members] in H.
    unfold mbind, json.res_bind, json.bind in H.
    destruct s as [|q r]; [discriminate|]. cbn [length] in Hl.
    destruct (q =? 34); [|discriminate].
    destruct (json.scanstring r []) as [[key s1]| |] eqn:E1.
    + apply (scanstring_shrinks _ _ (le_n _)) in E1.
      pose proof (skip_ws_length s1) as Hw1.
      destruct (json.skip_ws s1) as [|colon s2]; [discriminate|].
      destruct (colon =? 58); [|discriminate].
      pose proof (skip_ws_length s2) as Hw2.
      destruct (json.scan_once f (json.skip_ws s2)) as [[v0 s3]| |] eqn:E3; try discriminate.
      * apply Ss in E3.
        pose proof (skip_ws_length s3) as Hw3.
        destruct (json.skip_ws s3) as [|d s4]; [discriminate|].
        pose proof (skip_ws_length s4) as Hw4.
        destruct (d =? 125); [discriminate|].
        destruct (d =? 44); [|discriminate].
        eapply IHm; [|exact H]. cbn [length] in *. lia.
      * eapply IHs; [|exact E3]. cbn [length] in *. lia.
    + discriminate.
    + eapply scanstring_no_fuel; [|exact E1]. apply le_n.
  - intros acc s Hl H. cbn [json.elements] in H.
    unfold mbind, json.res_bind, json.bind in H.
    destruct (json.scan_once f s) as [[v0 s1]| |] eqn:E1; try discriminate.
    + apply Ss in E1.
      pose proof (skip_ws_length s1) as Hw1.
      destruct (json.skip_ws s1) as [|d s2]; [discriminate|].
      pose proof (skip_ws_length s2) as Hw2.
      destruct (d =? 93); [discriminate|].
      destruct (d =? 44); [|discriminate].
      eapply IHe; [|exact H]. cbn [length] in *. lia.
    + eapply IHs; [|exact E1]. lia.
Qed.

(** [json.loads] never stops for lack of budget: a [None] is a decode
    error of the document. *)
Lemma loads_fuel_enough s : json.decode (S (2 * length s)) s <> json.OutOfFuel.
Proof.
  unfold json.decode. intros H.
  assert (Hscan : json.scan_once (S (2 * length s)) (json.skip_ws s) <> json.OutOfFuel).
  { apply fuel_enough. pose proof (skip_ws_length s). lia. }
  unfold mbind, json.res_bind, json.bind in H.
  destruct s as [|c r]; [|destruct (c =? 65279) eqn:Eb].
  - cbn in H. discriminate.
  - assert (c = 65279) as -> by (apply N.eqb_eq, Eb). discriminate.
  - assert (Hd : match c :: r with
                 | 65279 :: _ => json.DecodeError
                 | _ => match json.scan_once (S (2 * length (c :: r))) (json.skip_ws (c :: r)) with
                        | json.Ok (v, rest) =>
                            match json.skip_ws rest with
                            | [] => json.Ok v
                            | _ :: _ => json.DecodeError
                            end
                        | json.DecodeError => json.DecodeError
                        | json.OutOfFuel => json.OutOfFuel
                        end
                 end = json.OutOfFuel) by exact H.
    clear H.
    destruct (json.scan_once _ _) as [[v rest]| |]; [| |congruence].
    + destruct (json.skip_ws rest); break_in Hd.
    + break_in Hd.
Qed.

(** ** The vector store *)

Section VectorStoreFacts.
Context {vector : Type}.
Implicit Types c : gmap str (entry vector).

Lemma is_id_exist_spec c i : is_id_exist c i = true <-> is_Some (c !! i).
Proof.
  unfold is_id_exist, collection_get. rewrite bool_decide_eq_true.
  rewrite filter_cons, filter_nil. destruct (decide (is_Some (c !! i))) as [H|H].
  - cbn. split; [auto|lia].
  - cbn. split; [lia|contradiction].
Qed.

Lemma is_id_exist_false c i : is_id_exist c i = false <-> c !! i = None.
Proof.
  rewrite <- not_true_iff_false, is_id_exist_spec, <- eq_None_not_Some. reflexivity.
Qed.

Lemma new_records_elem c embs docs metas ids i en :
  (i, en) ∈ new_records c embs docs metas ids ->
  c !! i = None /\ exists k, ids !! k = Some i
    /\ embs !! k = Some (entry_embedding en)
    /\ docs !! k = Some (entry_document en)
    /\ metas !! k = Some (entry_metadata en).
Proof.
  revert embs docs metas. induction ids as [|j ids IH]; intros embs docs metas H.
  - destruct embs, docs, metas; cbn in H; apply elem_of_nil in H; contradiction.
  - destruct embs as [|e embs], docs as [|d docs], metas as [|m metas];
      cbn [new_records] in H; try (apply elem_of_nil in H; contradiction).
    assert (Hrest : (i, en) ∈ new_records c embs docs metas ids ->
              c !! i = None /\ exists k, (j :: ids) !! k = Some i
                /\ (e :: embs) !! k = Some (entry_embedding en)
                /\ (d :: docs) !! k = Some (entry_document en)
                /\ (m :: metas) !! k = Some (entry_metadata en)).
    { intros H'. destruct (IH _ _ _ H') as (Hc & k & Hk). split; [exact Hc|].
      exists (S k). exact Hk. }
    destruct (is_id_exist c j) eqn:Ej; [auto|].
    apply elem_of_cons in H as [H|H]; [|auto].
    injection H as -> ->. split; [apply is_id_exist_false, Ej|].
    exists 0%nat. cbn. auto.
Qed.

Lemma new_records_has c embs docs metas ids k i emb doc meta :
  ids !! k = Some i -> embs !! k = Some emb -> docs !! k = Some doc ->
  metas !! k = Some meta -> c !! i = None ->
  (i, Entry emb doc meta) ∈ new_records c embs docs metas ids.
Proof.
  revert embs docs metas k. induction ids as [|j ids IH];
    intros embs docs metas k Hi He Hd Hm Hc; [destruct k; discriminate|].
  destruct embs as [|e embs]; [destruct k; discriminate|].
  destruct docs as [|d docs]; [destruct k; discriminate|].
  destruct metas as [|m metas]; [destruct k; discriminate|].
  cbn [new_records]. destruct k as [|k]; cbn in Hi, He, Hd, Hm.
  - injection Hi as ->. injection He as ->. injection Hd as ->. injection Hm as ->.
    apply is_id_exist_false in Hc. rewrite Hc. apply elem_of_cons. auto.
  - specialize (IH _ _ _ _ Hi He Hd Hm Hc).
    destruct (is_id_exist c j); [exact IH|]. apply elem_of_cons. auto.
Qed.

Lemma new_records_NoDup c embs docs metas ids :
  NoDup ids -> NoDup (map fst (new_records c embs docs metas ids)).
Proof.
  revert embs docs metas. induction ids as [|j ids IH]; intros embs docs metas Hnd.
  - destruct embs, docs, metas; cbn; constructor.
  - destruct embs as [|e embs], docs as [|d docs], metas as [|m metas];
      cbn [new_records]; try constructor.
    apply NoDup_cons in Hnd as [Hj Hnd]. specialize (IH embs docs metas Hnd).
    destruct (is_id_exist c j); [exact IH|]. cbn [map fst].
    apply NoDup_cons. split; [|exact IH]. intros Hin.
    apply list_elem_of_In, in_map_iff in Hin as ([i en] & Hi & Hin). cbn in Hi. subst i.
    apply list_elem_of_In, new_records_elem in Hin as (_ & k & Hk & _).
    apply Hj. eapply list_elem_of_lookup_2, Hk.
Qed.

Lemma new_records_nil c embs docs metas ids :
  (forall i, i ∈ ids -> is_Some (c !! i)) ->
  new_records c embs docs metas ids = [].
Proof.
  revert embs docs metas. induction ids as [|j ids IH]; intros embs docs metas H.
  - destruct embs, docs, metas; reflexivity.
  - destruct embs as [|e embs], docs as [|d docs], metas as [|m metas];
      cbn [new_records]; try reflexivity.
    assert (Hj : is_id_exist c j = true).
    { apply is_id_exist_spec, H, elem_of_cons. auto. }
    rewrite Hj. apply IH. intros i Hi. apply H, elem_of_cons. auto.
Qed.

Lemma new_records_nil_inv c embs docs metas ids i :
  length embs = length docs -> length docs = length metas ->
  length metas = length ids ->
  new_records c embs docs metas ids = [] -> i ∈ ids -> is_Some (c !! i).
Proof.
  intros L1 L2 L3 Hnil Hi.
  destruct (c !! i) as [e|] eqn:Ec; [eauto|]. exfalso.
  apply list_elem_of_lookup in Hi as (k & Hk).
  pose proof (lookup_lt_Some _ _ _ Hk) as Hlt.
  destruct (lookup_lt_is_Some_2 embs k ltac:(lia)) as (emb & He).
  destruct (lookup_lt_is_Some_2 docs k ltac:(lia)) as (doc & Hd).
  destruct (lookup_lt_is_Some_2 metas k ltac:(lia)) as (meta & Hm).
  pose proof (new_records_has c _ _ _ _ _ _ _ _ _ Hk He Hd Hm Ec) as Hin.
  rewrite Hnil in Hin. apply elem_of_nil in Hin. exact Hin.
Qed.

Lemma foldl_add_one_lookup (l : list (str * entry vector)) :
  forall c i,
    foldl add_one c l !! i =
    match c !! i with
    | Some e => Some e
    | None => (list_to_map l : gmap str (entry vector)) !! i
    end.
Proof.
  induction l as [|[j en] l IH]; intros c i; cbn [foldl].
  - rewrite list_to_map_nil, lookup_empty. destruct (c !! i); reflexivity.
  - rewrite list_to_map_cons, IH. unfold add_one. cbn [fst snd].
    destruct (c !! j) as [ej|] eqn:Ej.
    + destruct (c !! i) eqn:Ei; [reflexivity|].
      rewrite lookup_insert_ne by congruence. reflexivity.
    + destruct (decide (j = i)) as [->|Hne].
      * rewrite Ej, !lookup_insert_eq. reflexivity.
      * rewrite !lookup_insert_ne by exact Hne. reflexivity.
Qed.

Lemma foldl_add_one_size (l : list (str * entry vector)) :
  forall c, NoDup (map fst l) -> (forall r, r ∈ l -> c !! r.1 = None) ->
    size (foldl add_one c l) = (size c + length l)%nat.
Proof.
  induction l as [|[j en] l IH]; intros c Hnd Hfresh; cbn [foldl length].
  - lia.
  - cbn [map fst] in Hnd. apply NoDup_cons in Hnd as [Hj Hnd].
    pose proof (Hfresh (j, en) ltac:(apply elem_of_cons; auto)) as Hc. cbn in Hc.
    unfold add_one at 2. cbn [fst snd]. rewrite Hc.
    rewrite IH; [|exact Hnd|].
    + rewrite map_size_insert_None by exact Hc. lia.
    + intros r Hr. rewrite lookup_insert_ne.
      * apply Hfresh, elem_of_cons. auto.
      * intros ->. apply Hj, list_elem_of_In, in_map, list_elem_of_In, Hr.
Qed.
End VectorStoreFacts.

(** ** The order in which the pool completes its tasks

    A worker reads nothing from the output directory and writes one file, so
    what it returns does not depend on the directory, and the counts of a
    run do not depend on the order in which the tasks complete. *)

Lemma worker_result_any_dir get_completion prompt text d d' :
  (process_case_worker get_completion prompt text d).1
  = (process_case_worker get_completion prompt text d').1.
Proof.
  unfold process_case_worker.
  repeat match goal with
         | |- context [match ?x with _ => _ end] => destruct x
         | |- context [if ?x then _ else _] => destruct x
         end; reflexivity.
Qed.

Lemma tally_comm r1 r2 c : tally r1 (tally r2 c) = tally r2 (tally r1 c).
Proof. destruct r1 as [[| |] ?|], r2 as [[| |] ?|]; reflexivity. Qed.

Lemma run_workers_counts get_completion prompt tasks :
  forall c d,
    (run_workers get_completion prompt tasks c d).1
    = foldl (fun c t => tally (process_case_worker get_completion prompt t []).1 c) c tasks.
Proof.
  induction tasks as [|t rest IH]; intros c d; cbn [run_workers foldl]; [reflexivity|].
  destruct (process_case_worker get_completion prompt t d) as [r d1] eqn:E.
  rewrite IH. f_equal. f_equal.
  change r with (r, d1).1. rewrite <- E. apply worker_result_any_dir.
Qed.

Lemma run_workers_counts_any_order get_completion prompt tasks tasks' c d d' :
  tasks ≡ₚ tasks' ->
  (run_workers get_completion prompt tasks c d).1
  = (run_workers get_completion prompt tasks' c d').1.
Proof.
  intros Hp. rewrite !run_workers_counts. revert c.
  induction Hp as [|t l l' _ IH|t1 t2 l|l1 l2 l3 _ IH1 _ IH2]; intros c; cbn [foldl].
  - reflexivity.
  - apply IH.
  - rewrite tally_comm. reflexivity.
  - rewrite IH1. apply IH2.
Qed.

(** The files a run leaves do not depend on that order either. *)
Lemma run_workers_files_any_order get_completion prompt tasks :
  forall c d x,
    x ∈ listdir (run_workers get_completion prompt tasks c d).2 <->
    x ∈ listdir d \/
    exists t cn, t ∈ tasks
      /\ (process_case_worker get_completion prompt t []).1 = Returned success (Some cn)
      /\ x = cn ++ dot_json.
Proof.
  induction tasks as [|t rest IH]; intros c d x; cbn [run_workers].
  - split; [auto|]. intros [H|(t & cn & Ht & _)]; [exact H|].
    apply elem_of_nil in Ht. contradiction.
  - destruct (process_case_worker get_completion prompt t d) as [r d1] eqn:E.
    rewrite IH.
    assert (Hr : (process_case_worker get_completion prompt t []).1 = r).
    { change r with (r, d1).1. rewrite <- E. apply worker_result_any_dir. }
    assert (Hd1 : x ∈ listdir d1 <->
              x ∈ listdir d \/ exists cn, r = Returned success (Some cn) /\ x = cn ++ dot_json).
    { destruct r as [[| |] cn|].
      - apply worker_success in E as (id & data & final & _ & -> & -> & _).
        split.
        + intros Hx. destruct (listdir_write (filename_safe id ++ dot_json)
                                 (Doc (json.Obj data)) d) as [Hl|Hl]; rewrite Hl in Hx.
          * auto.
          * apply elem_of_app in Hx as [Hx|Hx]; [auto|].
            apply elem_of_cons in Hx as [->|Hx]; [|apply elem_of_nil in Hx; contradiction].
            right. eauto.
        + intros [Hx|(cn' & [= <-] & ->)].
          * apply listdir_write_keeps, Hx.
          * apply listdir_write_has.
      - apply worker_no_success in E as ->; [|discriminate].
        split; [auto|]. intros [Hx|(cn' & Hcn & _)]; [exact Hx|discriminate].
      - apply worker_no_success in E as ->; [|discriminate].
        split; [auto|]. intros [Hx|(cn' & Hcn & _)]; [exact Hx|discriminate].
      - apply worker_no_success in E as ->; [|discriminate].
        split; [auto|]. intros [Hx|(cn' & Hcn & _)]; [exact Hx|discriminate]. }
    rewrite Hd1. split.
    + intros [[Hx|(cn & -> & ->)]|(t' & cn & Ht' & Hres & ->)].
      * auto.
      * right. exists t, cn. split; [apply elem_of_cons; auto|auto].
      * right. exists t', cn. split; [apply elem_of_cons; auto|auto].
    + intros [Hx|(t' & cn & Ht' & Hres & ->)]; [auto|].
      apply elem_of_cons in Ht' as [->|Ht'].
      * left. right. exists cn. split; [congruence|reflexivity].
      * right. eauto.
Qed.

(** Files that appear in the output directory between two runs (the
    consolidated collection, for one) do not bring a segment back. *)
Lemma rerun_dispatches_nothing_with_more_files
    get_completion prompt force md_texts output_dir outcome output_dir1 output_dir2 :
  run_processing get_completion prompt force (Some md_texts) output_dir
    = (outcome, output_dir1) ->
  every_segment_succeeded outcome ->
  (forall x, x ∈ listdir output_dir1 -> x ∈ listdir output_dir2) ->
  cases_to_process false md_texts output_dir2 = [].
Proof.
  intros Hrun Hok Hsub. unfold cases_to_process. apply select_cases_nil.
  intros seg id Hseg Hid. eapply existing_keeps_files; [exact Hsub|].
  eapply run_processing_covers; eauto.
Qed.

(** The repair pass renames nothing, so it keeps the scheduler's view of
    what is processed. *)
Lemma repair_keeps_names dir outcome dir' :
  run_verification_and_repair dir = (outcome, dir') -> listdir dir' = listdir dir.
Proof.
  unfold run_verification_and_repair.
  destruct (files_to_check dir) as [|f fs] eqn:E; [intros [= <- <-]; reflexivity|].
  apply repair_loop_listdir.
Qed.

(** * The claims *)

(** ** C1: the case number of a persisted record *)

(** C1, as stated, fails: a record the worker persists can hold a case
    number that does not match the docket pattern of the specification,
    because the code's pattern lets the prefix hold digits. *)
Lemma docket_pattern_counterexample :
  let run := process_case_worker (fun _ => Some answer_with_digit_prefix) echo
               sample_segment [] in
  run.1 = Returned success (Some (lit "12-2567"))
  /\ persisted_case_number (lit "12-2567.json") run.2 = Some (lit "Div.2 No.12/2567")
  /\ re.fullmatch case_number_pattern (lit "Div.2 No.12/2567") = true
  /\ re.fullmatch docket_pattern_spec (lit "Div.2 No.12/2567") = false.
Proof. vm_compute. auto. Qed.

(** C1, amended: every record a worker writes holds a case number that is a
    string fully matching the pattern of the code (any prefix without a
    newline, digits, a slash, four digits); the file names a worker produces
    give back such a number; and after a completed repair pass every record
    file whose name gives back such a number and that decodes to an object
    holds a string matching that pattern. *)
Theorem persisted_case_number_matches_code_pattern :
  (forall get_completion prompt text dir cn dir',
      process_case_worker get_completion prompt text dir
        = (Returned success (Some cn), dir') ->
      exists number,
        persisted_case_number (cn ++ dot_json) dir' = Some number
        /\ re.fullmatch case_number_pattern number = true)
  /\ (forall text id,
        re.search case_id_pattern text = Some id ->
        new_case_number (filename_safe id ++ dot_json) = id
        /\ re.fullmatch validation_pattern id = true)
  /\ (forall dir valid_count repaired_count dir' filename data,
        run_verification_and_repair dir = (Finished valid_count repaired_count, dir') ->
        filename ∈ files_to_check dir ->
        re.fullmatch validation_pattern (new_case_number filename) = true ->
        dir_read filename dir' = Some (Doc (json.Obj data)) ->
        exists number,
          json.dict_get key_case_number data = Some (json.Str number)
          /\ re.fullmatch validation_pattern number = true).
Proof.
  split; [|split].
  - intros gc pr text dir cn dir' H.
    apply worker_success in H as (id & data & final & _ & [= ->] & -> & _ & Hg & Hm & _).
    exists final. split; [|exact Hm].
    unfold persisted_case_number, record_case_number.
    rewrite dir_read_write_same, Hg. reflexivity.
  - intros text id H. apply search_case_id in H. split.
    + apply name_roundtrip, H.
    + apply fullmatch_case_id, H.
  - intros dir v r dir' f data Hrun Hf Hname Hread.
    unfold run_verification_and_repair in Hrun.
    assert (Hloop : repair_loop (files_to_check dir) 0 0 dir = (Finished v r, dir')).
    { destruct (files_to_check dir); [discriminate|exact Hrun]. }
    apply repair_loop_settles in Hloop as [_ Hs]. specialize (Hs f Hf).
    unfold settled in Hs. rewrite Hread in Hs.
    destruct (json.dict_get key_case_number data) as [x|] eqn:Eg.
    + destruct Hs as [Hs|Hs].
      * cbn in Hs. destruct x; try discriminate. eauto.
      * injection Hs as ->. eauto.
    + destruct Hs as [Hs|Hs]; [|discriminate]. cbn in Hs.
      vm_compute in Hs. discriminate.
Qed.

Lemma persisted_case_number_matches_code_pattern_witness :
  (exists number,
      persisted_case_number (lit "12-2567" ++ dot_json)
        (process_case_worker (fun _ => Some answer_with_digit_prefix) echo
           sample_segment []).2 = Some number
      /\ re.fullmatch case_number_pattern number = true)
  /\ new_case_number (filename_safe (lit "12/2567") ++ dot_json) = lit "12/2567"
  /\ (exists number,
        json.dict_get key_case_number [(key_case_number, json.Str (lit "7/2561"))]
          = Some (json.Str number)
        /\ re.fullmatch validation_pattern number = true).
Proof.
  destruct persisted_case_number_matches_code_pattern as (Hw & Hn & Hr).
  split; [|split].
  - apply (Hw (fun _ => Some answer_with_digit_prefix) echo sample_segment []).
    vm_compute. reflexivity.
  - apply (Hn sample_segment). vm_compute. reflexivity.
  - apply (Hr [(lit "7-2561.json", Doc (json.Obj [(key_case_number, json.Null)]))]
              0%nat 1%nat
              [(lit "7-2561.json", Doc (json.Obj [(key_case_number, json.Str (lit "7/2561"))]))]
              (lit "7-2561.json")).
    + vm_compute. reflexivity.
    + vm_compute. apply elem_of_cons. left. reflexivity.
    + vm_compute. reflexivity.
    + vm_compute. reflexivity.
Defined.

(** ** C8: the name of the file a worker writes *)

(** C8, as stated, fails: the file is named after the identifier found in
    the segment, not after the case number stored in the record. *)
Lemma file_name_counterexample :
  let run := process_case_worker (fun _ => Some answer_with_digit_prefix) echo
               sample_segment [] in
  run.1 = Returned success (Some (lit "12-2567"))
  /\ listdir run.2 = [lit "12-2567.json"]
  /\ persisted_case_number (lit "12-2567.json") run.2 = Some (lit "Div.2 No.12/2567")
  /\ filename_safe (lit "Div.2 No.12/2567") ++ dot_json = lit "Div.2 No.12-2567.json"
  /\ dir_read (lit "Div.2 No.12-2567.json") run.2 = None.
Proof. vm_compute. auto 6. Qed.

(** C8, amended: a successful worker writes the record to exactly one
    file, whose name is the filesystem-safe transform of the provisional
    identifier (the first digits-slash-year found in the segment); every
    other file is left as it was.  The record written validates and is the
    object the extraction returned, as it is when the model's case number
    was accepted (a string matching the case-number pattern), and with its
    case number set to the provisional identifier otherwise.  So the stored
    case number is the model's accepted number, prefix included, which need
    not agree with the file name, or else the provisional identifier. *)
Theorem worker_writes_file_named_by_provisional_id
    get_completion prompt text dir cn dir' :
  process_case_worker get_completion prompt text dir = (Returned success cn, dir') ->
  exists id raw,
    re.search case_id_pattern text = Some id
    /\ cn = Some (filename_safe id)
    /\ extract_data_for_single_case get_completion prompt text = Some (json.Obj raw)
    /\ let accepted := ai_number_is_valid (json.dict_get key_case_number raw) in
       let data := if accepted then raw
                   else json.dict_set key_case_number (json.Str id) raw in
       let output_filename := filename_safe id ++ dot_json in
       LegalCase_model_validate (json.Obj data) = true
       /\ dir' = dir_write output_filename (Doc (json.Obj data)) dir
       /\ dir_read output_filename dir' = Some (Doc (json.Obj data))
       /\ (forall other, other <> output_filename ->
             dir_read other dir' = dir_read other dir)
       /\ (accepted = true ->
             exists final,
               json.dict_get key_case_number raw = Some (json.Str final)
               /\ re.fullmatch case_number_pattern final = true
               /\ persisted_case_number output_filename dir' = Some final)
       /\ (accepted = false ->
             persisted_case_number output_filename dir' = Some id).
Proof.
  intros H.
  apply worker_success_record in H as (id & raw & Hs & -> & Hx & Hv & ->).
  exists id, raw. cbn zeta in *.
  split; [exact Hs|]. split; [reflexivity|]. split; [exact Hx|].
  split; [exact Hv|]. split; [reflexivity|].
  split; [apply dir_read_write_same|].
  split; [intros other Hne; apply dir_read_write_other; congruence|].
  unfold persisted_case_number. rewrite dir_read_write_same.
  split; intros Ha; rewrite Ha in *.
  - unfold ai_number_is_valid in Ha.
    destruct (json.dict_get key_case_number raw) as [[| | |final| |]|] eqn:Eg;
      try discriminate.
    exists final. repeat split; [exact Ha|].
    unfold record_case_number. rewrite Eg. reflexivity.
  - unfold record_case_number. rewrite dict_get_set_same. reflexivity.
Qed.

(** At an answer whose case number is accepted, and at an answer whose
    case number is not a string. *)
Lemma worker_writes_file_named_by_provisional_id_witness :
  (exists id raw,
     re.search case_id_pattern sample_segment = Some id
     /\ Some (lit "12-2567") = Some (filename_safe id)
     /\ extract_data_for_single_case (fun _ => Some answer_with_digit_prefix) echo
          sample_segment = Some (json.Obj raw)
     /\ let accepted := ai_number_is_valid (json.dict_get key_case_number raw) in
        let data := if accepted then raw
                    else json.dict_set key_case_number (json.Str id) raw in
        let output_filename := filename_safe id ++ dot_json in
        let dir' := (process_case_worker (fun _ => Some answer_with_digit_prefix) echo
                       sample_segment []).2 in
        LegalCase_model_validate (json.Obj data) = true
        /\ dir' = dir_write output_filename (Doc (json.Obj data)) []
        /\ dir_read output_filename dir' = Some (Doc (json.Obj data))
        /\ (forall other, other <> output_filename ->
              dir_read other dir' = dir_read other [])
        /\ (accepted = true ->
              exists final,
                json.dict_get key_case_number raw = Some (json.Str final)
                /\ re.fullmatch case_number_pattern final = true
                /\ persisted_case_number output_filename dir' = Some final)
        /\ (accepted = false ->
              persisted_case_number output_filename dir' = Some id))
  /\ (exists id raw,
     re.search case_id_pattern sample_segment = Some id
     /\ Some (lit "12-2567") = Some (filename_safe id)
     /\ extract_data_for_single_case (fun _ => Some answer_without_number) echo
          sample_segment = Some (json.Obj raw)
     /\ let accepted := ai_number_is_valid (json.dict_get key_case_number raw) in
        let data := if accepted then raw
                    else json.dict_set key_case_number (json.Str id) raw in
        let output_filename := filename_safe id ++ dot_json in
        let dir' := (process_case_worker (fun _ => Some answer_without_number) echo
                       sample_segment []).2 in
        LegalCase_model_validate (json.Obj data) = true
        /\ dir' = dir_write output_filename (Doc (json.Obj data)) []
        /\ dir_read output_filename dir' = Some (Doc (json.Obj data))
        /\ (forall other, other <> output_filename ->
              dir_read other dir' = dir_read other [])
        /\ (accepted = true ->
              exists final,
                json.dict_get key_case_number raw = Some (json.Str final)
                /\ re.fullmatch case_number_pattern final = true
                /\ persisted_case_number output_filename dir' = Some final)
        /\ (accepted = false ->
              persisted_case_number output_filename dir' = Some id))
  /\ persisted_case_number (lit "12-2567.json")
       (process_case_worker (fun _ => Some answer_with_digit_prefix) echo
          sample_segment []).2 = Some (lit "Div.2 No.12/2567")
  /\ persisted_case_number (lit "12-2567.json")
       (process_case_worker (fun _ => Some answer_without_number) echo
          sample_segment []).2 = Some (lit "12/2567").
Proof.
  split; [|split; [|vm_compute; auto]].
  - apply (worker_writes_file_named_by_provisional_id
             (fun _ => Some answer_with_digit_prefix) echo sample_segment []
             (Some (lit "12-2567"))).
    vm_compute. reflexivity.
  - apply (worker_writes_file_named_by_provisional_id
             (fun _ => Some answer_without_number) echo sample_segment []
             (Some (lit "12-2567"))).
    vm_compute. reflexivity.
Defined.

(** ** C5: running the repair pass twice *)

(** C5, as stated, fails: a record file whose name does not give back a
    valid case number is counted as repaired again by a second pass. *)
Lemma repair_twice_counterexample :
  let dir := [(lit "notes.json", Doc (json.Obj [(lit "document_type", json.Str (lit "memo"))]))] in
  let dir1 := (run_verification_and_repair dir).2 in
  run_verification_and_repair dir = (Finished 0 1, dir1)
  /\ run_verification_and_repair dir1 = (Finished 0 1, dir1)
  /\ persisted_case_number (lit "notes.json") dir1 = Some (lit "notes")
  /\ re.fullmatch validation_pattern (lit "notes") = false.
Proof. vm_compute. auto. Qed.

(** C5, amended: after a repair pass that runs to its end, a second pass
    runs to its end and leaves every file as it is; it reports
    [repaired_count = 0] when every record file name gives back a case
    number that matches the validation pattern, as the names the worker
    writes do. *)
Theorem repair_pass_idempotent dir valid_count repaired_count dir1 :
  run_verification_and_repair dir = (Finished valid_count repaired_count, dir1) ->
  exists valid_count2 repaired_count2,
    run_verification_and_repair dir1 = (Finished valid_count2 repaired_count2, dir1)
    /\ ((forall filename, filename ∈ files_to_check dir ->
           re.fullmatch validation_pattern (new_case_number filename) = true) ->
        repaired_count2 = 0%nat).
Proof.
  unfold run_verification_and_repair. intros Hrun.
  destruct (files_to_check dir) as [|f0 fs] eqn:Ef; [discriminate|].
  rewrite <- Ef in Hrun.
  pose proof (repair_loop_listdir _ _ _ _ _ _ Hrun) as Hl.
  apply repair_loop_settles in Hrun as [_ Hs].
  rewrite (files_to_check_listdir _ _ Hl).
  destruct (repair_loop_settled (files_to_check dir) 0 0 dir1 Hs) as (v' & r' & Hloop & Hr).
  exists v', r'. rewrite Ef in *. split; [exact Hloop|exact Hr].
Qed.

Lemma repair_pass_idempotent_witness :
  exists valid_count2 repaired_count2,
    run_verification_and_repair
      [(lit "7-2561.json", Doc (json.Obj [(key_case_number, json.Str (lit "7/2561"))]));
       (lit "12-2567.json", Doc (json.Obj [(key_case_number, json.Str (lit "Div.2 No.12/2567"))]))]
    = (Finished valid_count2 repaired_count2,
       [(lit "7-2561.json", Doc (json.Obj [(key_case_number, json.Str (lit "7/2561"))]));
        (lit "12-2567.json", Doc (json.Obj [(key_case_number, json.Str (lit "Div.2 No.12/2567"))]))])
    /\ ((forall filename,
           filename ∈ files_to_check
             [(lit "7-2561.json", Doc (json.Obj [(key_case_number, json.Null)]));
              (lit "12-2567.json", Doc (json.Obj [(key_case_number, json.Str (lit "Div.2 No.12/2567"))]))] ->
           re.fullmatch validation_pattern (new_case_number filename) = true) ->
        repaired_count2 = 0%nat).
Proof.
  apply (repair_pass_idempotent
           [(lit "7-2561.json", Doc (json.Obj [(key_case_number, json.Null)]));
            (lit "12-2567.json", Doc (json.Obj [(key_case_number, json.Str (lit "Div.2 No.12/2567"))]))]
           1%nat 1%nat).
  vm_compute. reflexivity.
Defined.

(** ** C10: a record file that decodes to something other than an object *)

(** C10: the loop of the repair pass catches [JSONDecodeError] and
    [IOError] only.  When a record file decodes to a value that is not an
    object (a list, a string, a number, a boolean, [null]), reading its
    case number raises an exception the loop does not catch: the pass is
    aborted, whatever the other files hold, instead of going on to the next
    file. *)
Theorem repair_pass_aborts_on_non_object dir filename x :
  filename ∈ files_to_check dir ->
  dir_read filename dir = Some (Doc x) ->
  is_object x = false ->
  exists dir', run_verification_and_repair dir = (Aborted, dir').
Proof.
  unfold run_verification_and_repair. intros Hf Hr Hx.
  destruct (repair_loop_aborts _ filename x Hf Hx 0%nat 0%nat dir Hr) as (d' & H).
  exists d'. destruct (files_to_check dir); [apply elem_of_nil in Hf; contradiction|exact H].
Qed.

Lemma repair_pass_aborts_on_non_object_witness :
  exists dir',
    run_verification_and_repair
      [(lit "7-2561.json", Doc (json.Obj [])); (lit "8-2561.json", Doc (json.Arr []));
       (lit "9-2561.json", Doc (json.Obj []))]
    = (Aborted, dir').
Proof.
  apply (repair_pass_aborts_on_non_object _ (lit "8-2561.json") (json.Arr [])).
  - vm_compute. apply elem_of_cons. right. apply elem_of_cons. left. reflexivity.
  - vm_compute. reflexivity.
  - reflexivity.
Defined.

(** ** C2: the block the response parser decodes *)

(** C2, as stated, fails: on an answer holding two complete objects the
    first balanced block decodes to the first object, but the code takes the
    text from the first opening brace to the last closing brace, which is
    not one JSON document, and returns nothing. *)
Lemma first_balanced_block_counterexample :
  first_balanced_block_spec answer_with_two_objects = Some (qlit "{'a': 1}")
  /\ parse_llm_response_spec answer_with_two_objects
     = Some (json.Obj [(lit "a", json.Num (lit "1"))])
  /\ re.search json_block_pattern answer_with_two_objects = Some answer_with_two_objects
  /\ parse_llm_response (Some answer_with_two_objects) = None.
Proof. vm_compute. auto. Qed.

(** C2, amended: the parser decodes the text from the first opening brace
    of the response to its last closing brace and returns what [json.loads]
    makes of it, nothing when that text is not one valid JSON document; it
    returns nothing when there is no response or no closing brace after an
    opening one. *)
Theorem parse_llm_response_first_to_last_brace :
  parse_llm_response None = None
  /\ (forall resp,
        (forall pre mid post, resp <> pre ++ c_lbrace :: mid ++ c_rbrace :: post) ->
        parse_llm_response (Some resp) = None)
  /\ (forall resp pre mid post,
        resp = pre ++ c_lbrace :: mid ++ c_rbrace :: post ->
        c_lbrace ∉ pre -> c_rbrace ∉ post ->
        parse_llm_response (Some resp) = json.loads (c_lbrace :: mid ++ [c_rbrace])).
Proof.
  split; [reflexivity|]. split.
  - intros resp Hno. unfold parse_llm_response.
    destruct resp as [|c t]; [reflexivity|].
    destruct (re.search json_block_pattern (c :: t)) as [b|] eqn:E; [|reflexivity].
    apply search_json_block_Some in E as (pre & mid & post & Hs & _).
    exfalso. eapply Hno, Hs.
  - intros resp pre mid post -> Hpre Hpost. unfold parse_llm_response.
    rewrite (search_json_block_found _ _ _ Hpre Hpost).
    destruct pre; reflexivity.
Qed.

Lemma parse_llm_response_first_to_last_brace_witness :
  parse_llm_response (Some (lit "no braces here")) = None
  /\ parse_llm_response (Some (qlit "Sure: {'a': {'b': []}} done"))
     = json.loads (qlit "{'a': {'b': []}}").
Proof.
  destruct parse_llm_response_first_to_last_brace as (_ & Hnone & Hsome).
  split.
  - apply Hnone. intros pre mid post H.
    assert (Hin : c_lbrace ∈ lit "no braces here").
    { rewrite H. apply elem_of_app. right. apply elem_of_cons. left. reflexivity. }
    vm_compute in Hin.
    repeat (apply elem_of_cons in Hin as [Hin|Hin]; [discriminate|]).
    apply elem_of_nil in Hin. exact Hin.
  - apply (Hsome _ (lit "Sure: ") (qlit "'a': {'b': []}") (lit " done")).
    + vm_compute. reflexivity.
    + vm_compute. intros Hin.
      repeat (apply elem_of_cons in Hin as [Hin|Hin]; [discriminate|]).
      apply elem_of_nil in Hin. exact Hin.
    + vm_compute. intros Hin.
      repeat (apply elem_of_cons in Hin as [Hin|Hin]; [discriminate|]).
      apply elem_of_nil in Hin. exact Hin.
Defined.

(** ** C3: what schema validation accepts *)

(** C3, as stated, fails: a candidate that leaves out an array field is
    rejected; nothing defaults the field to an empty list. *)
Lemma missing_array_counterexample :
  let candidate :=
    json.Obj [ (lit "document_type", json.Str (lit "ruling"));
               (lit "case_number", json.Str (lit "12/2567"));
               (lit "involved_courts", json.Arr []);
               (lit "referenced_laws", json.Arr []) ] in
  json.loads answer_without_parties = Some candidate
  /\ json.dict_get (lit "parties") [ (lit "document_type", json.Str (lit "ruling"));
               (lit "case_number", json.Str (lit "12/2567"));
               (lit "involved_courts", json.Arr []);
               (lit "referenced_laws", json.Arr []) ] = None
  /\ LegalCase_model_validate candidate = false.
Proof. vm_compute. auto. Qed.

Lemma lit_field_neq (a b : string) :
  str_eqb (lit a) (lit b) = false -> lit a <> lit b.
Proof. unfold str_eqb. intros H. apply bool_decide_eq_false in H. exact H. Qed.

(** C3, amended: validation accepts exactly the objects in which
    [document_type] and [case_number] hold strings, [involved_courts] and
    [parties] hold lists of objects with a string under [name] and under
    [role], [referenced_laws] holds a list of strings, and each optional
    text field is left out, [null] or a string.  So validation fails for a
    candidate that leaves out an array field or a required text field, for
    an array field that is not a list, for a list with an element of the
    wrong shape, and for a text field of the wrong type; an array field may
    be the empty list, and an optional text field may be [null]. *)
Theorem validation_of_arrays_and_optional_fields :
  (forall v,
      LegalCase_model_validate v = true <->
      exists d,
        v = json.Obj d
        /\ (forall k, k ∈ required_text_fields ->
              exists s, json.dict_get (lit k) d = Some (json.Str s))
        /\ holds_list_of has_name_and_role d "involved_courts"
        /\ holds_list_of has_name_and_role d "parties"
        /\ holds_list_of (fun law => exists s, law = json.Str s) d "referenced_laws"
        /\ (forall k, k ∈ optional_text_fields ->
              json.dict_get (lit k) d = None
              \/ json.dict_get (lit k) d = Some json.Null
              \/ exists s, json.dict_get (lit k) d = Some (json.Str s)))
  /\ (forall d k, k ∈ array_fields ++ required_text_fields ->
        json.dict_get (lit k) d = None ->
        LegalCase_model_validate (json.Obj d) = false)
  /\ (forall d k v, k ∈ array_fields ->
        json.dict_get (lit k) d = Some v -> is_array v = false ->
        LegalCase_model_validate (json.Obj d) = false)
  /\ (forall d k xs x, k ∈ ["involved_courts"; "parties"]%string ->
        json.dict_get (lit k) d = Some (json.Arr xs) -> x ∈ xs ->
        ~ has_name_and_role x ->
        LegalCase_model_validate (json.Obj d) = false)
  /\ (forall d xs x,
        json.dict_get (lit "referenced_laws") d = Some (json.Arr xs) -> x ∈ xs ->
        is_str x = false ->
        LegalCase_model_validate (json.Obj d) = false)
  /\ (forall d k v, k ∈ required_text_fields ++ optional_text_fields ->
        json.dict_get (lit k) d = Some v -> v <> json.Null -> is_str v = false ->
        LegalCase_model_validate (json.Obj d) = false)
  /\ (forall d k, k ∈ array_fields -> LegalCase_model_validate (json.Obj d) = true ->
        LegalCase_model_validate (json.Obj (json.dict_set (lit k) (json.Arr []) d)) = true)
  /\ (forall d k v, k ∈ optional_text_fields ->
        LegalCase_model_validate (json.Obj d) = true ->
        v = json.Null \/ is_str v = true ->
        LegalCase_model_validate (json.Obj (json.dict_set (lit k) v d)) = true).
Proof.
  split; [exact LegalCase_model_validate_spec|].
  assert (Hspec : forall d, LegalCase_model_validate (json.Obj d) = true ->
            (forall k, k ∈ required_text_fields ->
               exists s, json.dict_get (lit k) d = Some (json.Str s))
            /\ (forall k, k ∈ ["involved_courts"; "parties"]%string ->
                  holds_list_of has_name_and_role d k)
            /\ holds_list_of (fun law => exists s, law = json.Str s) d "referenced_laws"
            /\ (forall k, k ∈ optional_text_fields ->
                  json.dict_get (lit k) d = None
                  \/ json.dict_get (lit k) d = Some json.Null
                  \/ exists s, json.dict_get (lit k) d = Some (json.Str s))).
  { intros d H. apply LegalCase_model_validate_spec in H
      as (d' & [= <-] & Hreq & Hc & Hp & Hl & Hopt).
    repeat split; auto. intros k Hk. field_cases Hk; assumption. }
  assert (Harr : forall d k, LegalCase_model_validate (json.Obj d) = true ->
            k ∈ array_fields -> exists xs, json.dict_get (lit k) d = Some (json.Arr xs)).
  { intros d k H Hk. destruct (Hspec d H) as (_ & Hcp & (laws & Hl & _) & _).
    unfold array_fields in Hk. field_cases Hk.
    - destruct (Hcp "involved_courts"%string) as (xs & Hx & _);
        [apply list_elem_of_here|eauto].
    - destruct (Hcp "parties"%string) as (xs & Hx & _);
        [apply list_elem_of_further, list_elem_of_here|eauto].
    - eauto. }
  repeat split.
  - intros d k Hk Hnone. apply not_true_is_false. intros H.
    apply elem_of_app in Hk as [Hk|Hk].
    + destruct (Harr d k H Hk) as [xs Hx]. congruence.
    + destruct (Hspec d H) as (Hreq & _). destruct (Hreq k Hk) as [s Hs]. congruence.
  - intros d k v Hk Hg Hv. apply not_true_is_false. intros H.
    destruct (Harr d k H Hk) as [xs Hx]. rewrite Hg in Hx. injection Hx as ->. discriminate.
  - intros d k xs x Hk Hg Hx Hshape. apply not_true_is_false. intros H.
    destruct (Hspec d H) as (_ & Hcp & _). destruct (Hcp k Hk) as (xs' & Hg' & Hall).
    rewrite Hg in Hg'. injection Hg' as <-.
    rewrite Forall_forall in Hall. apply Hshape, Hall, Hx.
  - intros d xs x Hg Hx Hstr. apply not_true_is_false. intros H.
    destruct (Hspec d H) as (_ & _ & (xs' & Hg' & Hall) & _).
    rewrite Hg in Hg'. injection Hg' as <-.
    rewrite Forall_forall in Hall. destruct (Hall x Hx) as [s ->]. discriminate.
  - intros d k v Hk Hg Hnull Hstr. apply not_true_is_false. intros H.
    destruct (Hspec d H) as (Hreq & _ & _ & Hopt).
    apply elem_of_app in Hk as [Hk|Hk].
    + destruct (Hreq k Hk) as [s Hs]. rewrite Hg in Hs. injection Hs as ->. discriminate.
    + destruct (Hopt k Hk) as [Hn|[Hn|[s Hs]]]; rewrite Hg in *.
      * discriminate.
      * injection Hn as ->. congruence.
      * injection Hs as ->. discriminate.
  - intros d k Hk Hv. unfold array_fields in Hk.
    unfold LegalCase_model_validate, field_str, field_list, field_optional_str in *.
    repeat match type of Hv with
           | _ && _ = true => apply andb_true_iff in Hv as [Hv ?]
           end.
    field_cases Hk; repeat (apply andb_true_iff; split);
      first [ rewrite dict_get_set_other by (apply lit_field_neq; vm_compute; reflexivity);
              assumption
            | rewrite dict_get_set_same; reflexivity ].
  - intros d k v Hk Hv Hval. unfold optional_text_fields in Hk.
    unfold LegalCase_model_validate, field_str, field_list, field_optional_str in *.
    repeat match type of Hv with
           | _ && _ = true => apply andb_true_iff in Hv as [Hv ?]
           end.
    field_cases Hk; repeat (apply andb_true_iff; split);
      first [ rewrite dict_get_set_other by (apply lit_field_neq; vm_compute; reflexivity);
              assumption
            | rewrite dict_get_set_same;
              destruct Hval as [->|Hval]; [reflexivity|];
              destruct v; try discriminate; reflexivity ].
Qed.

Lemma validation_of_arrays_and_optional_fields_witness :
  LegalCase_model_validate
    (json.Obj [ (lit "document_type", json.Str (lit "ruling"));
                (lit "case_number", json.Str (lit "12/2567"));
                (lit "involved_courts", json.Arr []);
                (lit "referenced_laws", json.Arr []) ]) = false
  /\ LegalCase_model_validate
       (json.Obj [ (lit "document_type", json.Str (lit "ruling"));
                   (lit "case_number", json.Str (lit "12/2567"));
                   (lit "involved_courts",
                    json.Arr [json.Obj [ (lit "name", json.Str (lit "Supreme Court")) ]]);
                   (lit "parties", json.Arr []);
                   (lit "referenced_laws", json.Arr []) ]) = false
  /\ LegalCase_model_validate
       (json.Obj [ (lit "document_type", json.Str (lit "ruling"));
                   (lit "case_number", json.Str (lit "12/2567"));
                   (lit "involved_courts", json.Arr []);
                   (lit "parties", json.Arr []);
                   (lit "referenced_laws", json.Arr [json.Num (lit "112")]) ]) = false
  /\ LegalCase_model_validate
       (json.Obj (json.dict_set (lit "final_decision") json.Null
          [ (lit "document_type", json.Str (lit "ruling"));
            (lit "case_number", json.Str (lit "12/2567"));
            (lit "involved_courts", json.Arr []);
            (lit "parties", json.Arr []);
            (lit "referenced_laws", json.Arr []) ])) = true.
Proof.
  destruct validation_of_arrays_and_optional_fields
    as (_ & Hmissing & _ & Hshape & Hlaw & _ & _ & Hopt).
  split; [|split; [|split]].
  - apply (Hmissing _ "parties"%string).
    + unfold array_fields. apply list_elem_of_further, list_elem_of_here.
    + vm_compute. reflexivity.
  - apply (Hshape _ "involved_courts"%string
             [json.Obj [ (lit "name", json.Str (lit "Supreme Court")) ]]
             (json.Obj [ (lit "name", json.Str (lit "Supreme Court")) ])).
    + apply list_elem_of_here.
    + vm_compute. reflexivity.
    + apply list_elem_of_here.
    + intros (d & name & role & Hd & _ & Hr). injection Hd as <-.
      vm_compute in Hr. discriminate Hr.
  - apply (Hlaw _ [json.Num (lit "112")] (json.Num (lit "112"))).
    + vm_compute. reflexivity.
    + apply list_elem_of_here.
    + reflexivity.
  - apply (Hopt _ "final_decision"%string).
    + unfold optional_text_fields. do 4 apply list_elem_of_further. apply list_elem_of_here.
    + vm_compute. reflexivity.
    + left. reflexivity.
Defined.

(** ** C4: a second run of the scheduler *)

(** C4: after a run of the scheduler in which no dispatched segment failed,
    a second run on the same corpus without the force flag finds the
    identifier of every segment among the names of the output files: it
    hands no segment to the pool and leaves the output directory as it is,
    whatever the model would answer. *)
Theorem rerun_dispatches_nothing
    get_completion prompt force input_dir output_dir outcome output_dir1 :
  run_processing get_completion prompt force input_dir output_dir
    = (outcome, output_dir1) ->
  every_segment_succeeded outcome ->
  (forall md_texts, input_dir = Some md_texts ->
     cases_to_process false md_texts output_dir1 = [])
  /\ (forall get_completion' prompt',
        run_processing get_completion' prompt' false input_dir output_dir1
        = (idle_outcome input_dir, output_dir1)).
Proof.
  intros Hrun Hok.
  assert (Hnone : forall md_texts, input_dir = Some md_texts ->
             cases_to_process false md_texts output_dir1 = []).
  { intros md ->. unfold cases_to_process. apply select_cases_nil.
    intros seg id Hseg Hid. eapply run_processing_covers; eauto. }
  split; [exact Hnone|]. intros gc' pr'.
  destruct input_dir as [[|m0 md]|]; try reflexivity.
  unfold run_processing. rewrite (Hnone _ eq_refl). reflexivity.
Qed.

Lemma rerun_dispatches_nothing_witness :
  let first := run_processing (fun _ => Some answer_with_digit_prefix) echo false
                 (Some sample_corpus) [] in
  first.1 = Summary (Counts 1 0 0)
  /\ (forall md_texts, Some sample_corpus = Some md_texts ->
        cases_to_process false md_texts first.2 = [])
  /\ (forall get_completion' prompt',
        run_processing get_completion' prompt' false (Some sample_corpus) first.2
        = (idle_outcome (Some sample_corpus), first.2)).
Proof.
  split; [vm_compute; reflexivity|].
  apply (rerun_dispatches_nothing (fun _ => Some answer_with_digit_prefix) echo false
           (Some sample_corpus) [] (Summary (Counts 1 0 0))).
  - vm_compute. reflexivity.
  - reflexivity.
Defined.

(** ** C9: the count of segments without an identifier *)

(** C9 fails on the code: the filter of [run_processing] drops a segment
    without an identifier before the pool sees it, so no worker ever returns
    [skipped_no_id] and the count the run reports stays at zero.  Here the
    corpus holds one such segment. *)
Lemma skipped_no_id_not_counted :
  let run := run_processing (fun _ => Some answer_with_digit_prefix) echo false
               (Some sample_corpus) [] in
  identifierless_segments sample_corpus = [lit " a note without a number "]
  /\ run.1 = Summary (Counts 1 0 0).
Proof. vm_compute. auto. Qed.

(** Whatever the corpus, a run that reports counts reports no skipped
    segment. *)
Lemma skipped_no_id_always_zero get_completion prompt force input_dir output_dir c output_dir1 :
  run_processing get_completion prompt force input_dir output_dir
    = (Summary c, output_dir1) ->
  n_skipped_no_id c = 0%nat.
Proof.
  unfold run_processing. intros H.
  destruct input_dir as [[|m0 md]|]; try discriminate.
  destruct (cases_to_process force (m0 :: md) output_dir) as [|t ts] eqn:Et; [discriminate|].
  rewrite <- Et in H.
  destruct (run_workers _ _ _ _ output_dir) as [c' d'] eqn:Erun.
  injection H as <- <-.
  apply run_workers_no_skip in Erun; [exact Erun|].
  intros task Htask. unfold cases_to_process in Htask.
  apply select_cases_elem in Htask as (seg & id & _ & -> & Hid & _).
  rewrite search_strip, Hid. discriminate.
Qed.

(** ** C6: a query that retrieves nothing *)

(** C6: when the retrieval step returns no document for a query, the memo
    generator returns no memorandum and an empty list of sources, and the
    list of prompts sent to the model is left as it was. *)
Theorem no_documents_no_llm_call
    llm_answer vector_db_search template_head template_mid template_tail
    case_facts log :
  retrieved_documents vector_db_search case_facts = [] ->
  generate_memo llm_answer vector_db_search template_head template_mid template_tail
    case_facts log = (Memo None [], log).
Proof.
  unfold retrieved_documents, first_documents, generate_memo.
  destruct (vector_db_search case_facts) as [[docs metas]|]; [|reflexivity].
  cbn [sr_documents sr_metadatas].
  destruct docs as [[|[|doc docs] outer]|]; cbn; try reflexivity.
  discriminate.
Qed.

Lemma no_documents_no_llm_call_witness :
  generate_memo (fun _ => Answered (Some (lit "memo")))
    (fun _ => Some (SearchResults (Some [[]]) (Some [[]])))
    (lit "facts: ") (lit " context: ") (lit " end")
    (lit "a dispute over land") [lit "an earlier prompt"]
  = (Memo None [], [lit "an earlier prompt"]).
Proof.
  apply (no_documents_no_llm_call (fun _ => Answered (Some (lit "memo")))
           (fun _ => Some (SearchResults (Some [[]]) (Some [[]])))).
  reflexivity.
Defined.

(** With a document retrieved, the model is called exactly once. *)
Lemma documents_one_llm_call
    llm_answer vector_db_search template_head template_mid template_tail
    case_facts log sr doc docs outer metadatas outer' :
  vector_db_search case_facts = Some sr ->
  sr_documents sr = Some ((doc :: docs) :: outer) ->
  sr_metadatas sr = Some (metadatas :: outer') ->
  exists final_prompt,
    generate_memo llm_answer vector_db_search template_head template_mid template_tail
      case_facts log
    = (match llm_answer final_prompt with
       | Answered response => Memo response (build_sources (doc :: docs) metadatas)
       | CompletionRaised => MemoRaised
       end,
       log ++ [final_prompt]).
Proof.
  intros Hs Hd Hm. unfold generate_memo. rewrite Hs, Hd, Hm.
  exists (format_template template_head template_mid template_tail
            (build_context 0 (doc :: docs) metadatas) case_facts).
  unfold mbind, llm_calls_bind, llm_get_completion.
  destruct (llm_answer _); reflexivity.
Qed.

(** ** C7: indexing the same ids twice *)

(** C7, as stated, fails: the existence check looks at the store only, so a
    batch naming a new id twice passes it whole; the collection then refuses
    the batch and nothing is inserted, on the first call and on the
    second. *)
Lemma duplicate_in_batch_counterexample :
  let c : gmap str (entry nat) := ∅ in
  let first := add_data c [1%nat; 2%nat] [lit "text a"; lit "text b"] [∅; ∅]
                 [lit "case_7-2561"; lit "case_7-2561"] in
  first.1 = AddFailed
  /\ first.2 !! lit "case_7-2561" = None
  /\ (add_data first.2 [1%nat; 2%nat] [lit "text a"; lit "text b"] [∅; ∅]
        [lit "case_7-2561"; lit "case_7-2561"]).1 = AddFailed.
Proof. vm_compute. auto. Qed.

(** C7, amended: when the four sequences have the same length and no id
    occurs twice in the batch, [add_data] leaves every stored entry as it
    is, stores each record whose id was new, under its id and with its own
    data, and touches no other id; the store grows by the number of new ids,
    which is the count it logs; a second call with the same arguments finds
    nothing new and leaves the store as it is. *)
Theorem add_data_twice {vector : Type} (c : gmap str (entry vector))
    embeddings documents metadatas ids :
  length embeddings = length documents ->
  length documents = length metadatas ->
  length metadatas = length ids ->
  NoDup ids ->
  let first := add_data c embeddings documents metadatas ids in
  (forall i e, c !! i = Some e -> first.2 !! i = Some e)
  /\ (forall k i emb doc meta,
        ids !! k = Some i -> embeddings !! k = Some emb ->
        documents !! k = Some doc -> metadatas !! k = Some meta ->
        c !! i = None -> first.2 !! i = Some (Entry emb doc meta))
  /\ (forall i, i ∉ ids -> first.2 !! i = c !! i)
  /\ (exists n, size first.2 = (size c + n)%nat
        /\ first.1 = match n with O => NothingNew | _ => Added n end)
  /\ add_data first.2 embeddings documents metadatas ids = (NothingNew, first.2).
Proof.
  intros L1 L2 L3 Hnd first.
  remember (new_records c embeddings documents metadatas ids) as news eqn:Enews.
  assert (Hkeys : NoDup (map fst news)) by (subst news; apply new_records_NoDup, Hnd).
  assert (Hnews : forall i en, (i, en) ∈ news <->
             (i, en) ∈ new_records c embeddings documents metadatas ids)
    by (subst news; reflexivity).
  assert (Hfirst : first = match news with
                           | [] => (NothingNew, c)
                           | _ => (Added (length news), foldl add_one c news)
                           end).
  { unfold first, add_data. rewrite bool_decide_true by auto. rewrite <- Enews.
    destruct news as [|r rs]; [reflexivity|].
    unfold collection_add. rewrite bool_decide_true by exact Hkeys. reflexivity. }
  clear Enews.
  assert (Hlook : forall i, first.2 !! i =
             match c !! i with
             | Some e => Some e
             | None => (list_to_map news : gmap str (entry vector)) !! i
             end).
  { intros i. rewrite Hfirst. destruct news as [|r rs] eqn:En.
    - cbn [snd]. rewrite list_to_map_nil, lookup_empty. destruct (c !! i); reflexivity.
    - cbn [snd]. apply foldl_add_one_lookup. }
  assert (Hall : forall i, i ∈ ids -> is_Some (first.2 !! i)).
  { intros i Hi. rewrite Hlook. destruct (c !! i) as [e|] eqn:Ec; [eauto|].
    apply list_elem_of_lookup in Hi as (k & Hk).
    pose proof (lookup_lt_Some _ _ _ Hk) as Hlt.
    destruct (lookup_lt_is_Some_2 embeddings k ltac:(lia)) as (emb & He).
    destruct (lookup_lt_is_Some_2 documents k ltac:(lia)) as (doc & Hd).
    destruct (lookup_lt_is_Some_2 metadatas k ltac:(lia)) as (meta & Hm).
    exists (Entry emb doc meta). apply elem_of_list_to_map; [exact Hkeys|].
    apply Hnews. eapply new_records_has; eauto. }
  split; [|split; [|split; [|split]]].
  - intros i e Hc. rewrite Hlook, Hc. reflexivity.
  - intros k i emb doc meta Hi He Hd Hm Hc. rewrite Hlook, Hc.
    apply elem_of_list_to_map; [exact Hkeys|]. apply Hnews.
    eapply new_records_has; eauto.
  - intros i Hi. rewrite Hlook. destruct (c !! i) as [e|] eqn:Ec; [reflexivity|].
    apply not_elem_of_list_to_map. intros Hin.
    apply list_elem_of_fmap in Hin as ([j en] & -> & Hin).
    apply Hnews, new_records_elem in Hin as (_ & k & Hk & _).
    apply Hi. eapply list_elem_of_lookup_2, Hk.
  - exists (length news). rewrite Hfirst. destruct news as [|r rs] eqn:En.
    + cbn. split; [lia|reflexivity].
    + cbn [fst snd]. split; [|reflexivity].
      apply foldl_add_one_size; [exact Hkeys|].
      intros [j en] Hr. cbn.
      apply Hnews, new_records_elem in Hr as [Hc _]. exact Hc.
  - unfold add_data. rewrite bool_decide_true by auto.
    rewrite (new_records_nil _ _ _ _ _ Hall). reflexivity.
Qed.

Lemma add_data_twice_witness :
  let c : gmap str (entry nat) := {[ lit "case_7-2561" := Entry 0%nat (lit "old text") ∅ ]} in
  let first := add_data c [1%nat; 2%nat] [lit "text a"; lit "text b"] [∅; ∅]
                 [lit "case_7-2561"; lit "case_8-2561"] in
  first.2 !! lit "case_7-2561" = Some (Entry 0%nat (lit "old text") ∅)
  /\ first.2 !! lit "case_8-2561" = Some (Entry 2%nat (lit "text b") ∅)
  /\ add_data first.2 [1%nat; 2%nat] [lit "text a"; lit "text b"] [∅; ∅]
       [lit "case_7-2561"; lit "case_8-2561"] = (NothingNew, first.2).
Proof.
  intros c first.
  destruct (add_data_twice c [1%nat; 2%nat] [lit "text a"; lit "text b"] [∅; ∅]
              [lit "case_7-2561"; lit "case_8-2561"])
    as (Hold & Hnew & _ & _ & Hsecond).
  - reflexivity.
  - reflexivity.
  - reflexivity.
  - apply NoDup_cons. split.
    + intros Hin. apply elem_of_cons in Hin as [Hin|Hin]; [discriminate|].
      apply elem_of_nil in Hin. exact Hin.
    + apply NoDup_cons. split; [apply not_elem_of_nil|apply NoDup_nil_2].
  - split; [|split].
    + apply Hold. reflexivity.
    + apply (Hnew 1%nat); reflexivity.
    + exact Hsecond.
Defined.

(** * Further properties of the code *)

(** ** The worker and the scheduler *)

(** X1: a worker changes at most one file of the output directory.
    Whatever a call does, every file other than the one named by the
    identifier found in the segment reads as before.  A call that returns
    [failed] or [skipped_no_id] leaves the directory exactly as it was; a
    call that returns [success] has written an object that validates to
    that one file. *)
Theorem worker_touches_only_its_file get_completion prompt text output_dir :
  let r := process_case_worker get_completion prompt text output_dir in
  (forall name,
      (forall id, re.search case_id_pattern text = Some id ->
                  name <> filename_safe id ++ dot_json) ->
      dir_read name r.2 = dir_read name output_dir)
  /\ (forall st cn, r.1 = Returned st cn -> st <> success -> r.2 = output_dir)
  /\ (forall cn, r.1 = Returned success cn ->
        exists id data,
          re.search case_id_pattern text = Some id
          /\ cn = Some (filename_safe id)
          /\ LegalCase_model_validate (json.Obj data) = true
          /\ r.2 = dir_write (filename_safe id ++ dot_json) (Doc (json.Obj data)) output_dir).
Proof.
  cbn zeta.
  destruct (process_case_worker get_completion prompt text output_dir) as [r d'] eqn:E.
  cbn [fst snd]. split; [|split].
  - intros name Hname. destruct r as [[| |] cn|].
    + apply worker_success in E as (id & data & final & Es & -> & -> & _).
      apply dir_read_write_other. intros Heq. apply (Hname id Es). congruence.
    + apply worker_no_success in E as ->; [reflexivity|discriminate].
    + apply worker_no_success in E as ->; [reflexivity|discriminate].
    + apply worker_no_success in E as ->; [reflexivity|discriminate].
  - intros st cn -> Hst. eapply worker_no_success; [exact E|].
    intros cn' [= -> _]. apply Hst. reflexivity.
  - intros cn ->.
    apply worker_success in E as (id & data & final & Es & -> & -> & Hv & _).
    exists id, data. auto.
Qed.

Lemma worker_touches_only_its_file_witness :
  let r := process_case_worker (fun _ => Some answer_with_digit_prefix) echo
             sample_segment sample_directory in
  let r' := process_case_worker (fun _ => Some answer_without_parties) echo
              sample_segment sample_directory in
  dir_read (lit "broken.json") r.2 = dir_read (lit "broken.json") sample_directory
  /\ r'.2 = sample_directory
  /\ exists id data,
       re.search case_id_pattern sample_segment = Some id
       /\ Some (lit "12-2567") = Some (filename_safe id)
       /\ LegalCase_model_validate (json.Obj data) = true
       /\ r.2 = dir_write (filename_safe id ++ dot_json) (Doc (json.Obj data))
                  sample_directory.
Proof.
  intros r r'.
  split; [|split].
  - apply (proj1 (worker_touches_only_its_file (fun _ => Some answer_with_digit_prefix)
                    echo sample_segment sample_directory)).
    intros id Hid. vm_compute in Hid. injection Hid as <-. vm_compute. discriminate.
  - apply (proj1 (proj2 (worker_touches_only_its_file
                           (fun _ => Some answer_without_parties)
                           echo sample_segment sample_directory))
             failed (Some (lit "12-2567"))).
    + vm_compute. reflexivity.
    + discriminate.
  - apply (proj2 (proj2 (worker_touches_only_its_file
                           (fun _ => Some answer_with_digit_prefix)
                           echo sample_segment sample_directory))).
    vm_compute. reflexivity.
Defined.

(** X2: when the extraction step returns a value, that value is a JSON
    object, never a list, a string, a number or a boolean: the block it
    decodes starts with an opening brace.  So the [get] of the worker is
    only ever called on a dictionary. *)
Theorem extraction_yields_objects_only get_completion prompt text v :
  extract_data_for_single_case get_completion prompt text = Some v ->
  is_object v = true.
Proof.
  unfold extract_data_for_single_case. intros E.
  eapply parse_llm_response_object, E.
Qed.

Lemma extraction_yields_objects_only_witness :
  exists d,
    extract_data_for_single_case (fun _ => Some answer_with_digit_prefix) echo
      sample_segment = Some (json.Obj d).
Proof.
  destruct (extract_data_for_single_case (fun _ => Some answer_with_digit_prefix) echo
              sample_segment) as [v|] eqn:E; [|vm_compute in E; discriminate E].
  pose proof (extraction_yields_objects_only _ _ _ _ E) as Hv.
  destruct v; try discriminate Hv. eauto.
Defined.

Lemma run_workers_total get_completion prompt tasks :
  forall c d,
    let c' := (run_workers get_completion prompt tasks c d).1 in
    (n_success c' + n_failed c' + n_skipped_no_id c'
     = n_success c + n_failed c + n_skipped_no_id c + length tasks)%nat.
Proof.
  induction tasks as [|t rest IH]; intros c d; cbn [run_workers length].
  - cbn. lia.
  - destruct (process_case_worker get_completion prompt t d) as [r d1] eqn:E.
    cbn zeta in IH |- *. rewrite IH.
    destruct r as [[| |] ?|]; cbn; lia.
Qed.

(** X3: when a run ends with its summary, at least one segment was
    dispatched, every dispatched segment is counted once as a success or as
    a failure, and none is counted as skipped. *)
Theorem summary_accounts_for_every_task
    get_completion prompt force input_dir output_dir c output_dir1 :
  run_processing get_completion prompt force input_dir output_dir
    = (Summary c, output_dir1) ->
  exists md_texts,
    input_dir = Some md_texts
    /\ cases_to_process force md_texts output_dir <> []
    /\ (n_success c + n_failed c)%nat
       = length (cases_to_process force md_texts output_dir)
    /\ n_skipped_no_id c = 0%nat.
Proof.
  unfold run_processing. intros H.
  destruct input_dir as [[|m0 md]|]; try discriminate.
  exists (m0 :: md). split; [reflexivity|].
  destruct (cases_to_process force (m0 :: md) output_dir) as [|t ts] eqn:Et; [discriminate|].
  rewrite <- Et in *.
  destruct (run_workers _ _ _ _ output_dir) as [c' d'] eqn:Erun.
  injection H as <- <-.
  split; [rewrite Et; discriminate|].
  assert (Hskip : n_skipped_no_id c' = 0%nat).
  { apply run_workers_no_skip in Erun; [exact Erun|].
    intros task Htask. unfold cases_to_process in Htask.
    apply select_cases_elem in Htask as (seg & id & _ & -> & Hid & _).
    rewrite search_strip, Hid. discriminate. }
  split; [|exact Hskip].
  pose proof (run_workers_total get_completion prompt
                (cases_to_process force (m0 :: md) output_dir) (Counts 0 0 0) output_dir) as Ht.
  cbn zeta in Ht. rewrite Erun in Ht. cbn [fst n_success n_failed n_skipped_no_id] in Ht.
  lia.
Qed.

Lemma summary_accounts_for_every_task_witness :
  exists c d1,
    run_processing (fun _ => Some answer_without_parties) echo false
      (Some sample_corpus) [] = (Summary c, d1)
    /\ exists md_texts,
         Some sample_corpus = Some md_texts
         /\ cases_to_process false md_texts [] <> []
         /\ (n_success c + n_failed c)%nat = length (cases_to_process false md_texts [])
         /\ n_skipped_no_id c = 0%nat.
Proof.
  exists (Counts 0 1 0), [].
  assert (E : run_processing (fun _ => Some answer_without_parties) echo false
                (Some sample_corpus) [] = (Summary (Counts 0 1 0), []))
    by (vm_compute; reflexivity).
  split; [exact E|].
  exact (summary_accounts_for_every_task _ _ _ _ _ _ _ E).
Defined.




(** X5: the counts of a run and the names of the files it leaves do not
    depend on the order in which the pool completes the tasks. *)
Theorem pool_result_independent_of_completion_order
    get_completion prompt tasks tasks' c output_dir :
  tasks ≡ₚ tasks' ->
  (run_workers get_completion prompt tasks c output_dir).1
  = (run_workers get_completion prompt tasks' c output_dir).1
  /\ forall name,
       name ∈ listdir (run_workers get_completion prompt tasks c output_dir).2
       <-> name ∈ listdir (run_workers get_completion prompt tasks' c output_dir).2.
Proof.
  intros Hp. split.
  - apply run_workers_counts_any_order, Hp.
  - intros name. rewrite !run_workers_files_any_order.
    split; (intros [H|(t & cn & Ht & Hr)]; [left; exact H|right; exists t, cn]);
      (split; [|exact Hr]).
    + rewrite <- Hp. exact Ht.
    + rewrite Hp. exact Ht.
Qed.

Lemma pool_result_independent_of_completion_order_witness :
  let g := fun _ : str => Some answer_with_digit_prefix in
  let tasks := [sample_segment; lit "Order 7/2561"] in
  let tasks' := [lit "Order 7/2561"; sample_segment] in
  (run_workers g echo tasks (Counts 0 0 0) []).1
  = (run_workers g echo tasks' (Counts 0 0 0) []).1
  /\ forall name,
       name ∈ listdir (run_workers g echo tasks (Counts 0 0 0) []).2
       <-> name ∈ listdir (run_workers g echo tasks' (Counts 0 0 0) []).2.
Proof.
  cbn zeta.
  apply (pool_result_independent_of_completion_order
           (fun _ => Some answer_with_digit_prefix) echo
           [sample_segment; lit "Order 7/2561"] [lit "Order 7/2561"; sample_segment]).
  apply perm_swap.
Defined.

(** X6: which segments are dispatched.  A task is dispatched exactly when
    it is the stripped text of a segment in which an identifier is found
    and, unless the run is forced, no file of the output directory ending in
    [.json] has a name that reads back as that identifier.  Only names are
    looked at, never the content of a file. *)
Theorem dispatched_iff force md_texts output_dir task :
  task ∈ cases_to_process force md_texts output_dir <->
  exists segment id,
    segment ∈ str_split delimiter (all_raw_text md_texts)
    /\ task = str_strip segment
    /\ re.search case_id_pattern segment = Some id
    /\ (force = true
        \/ forall filename, filename ∈ listdir output_dir ->
             str_endswith dot_json filename = true -> new_case_number filename <> id).
Proof.
  unfold cases_to_process. split.
  - intros H. apply select_cases_elem in H as (seg & id & Hseg & -> & Hid & Hex).
    exists seg, id. repeat split; auto.
    destruct force; [left; reflexivity|right].
    intros f Hf He Hn. apply Hex. apply elem_of_existing_case_ids. eauto.
  - intros (seg & id & Hseg & -> & Hid & Hcond).
    eapply select_cases_has; [exact Hseg|exact Hid|].
    destruct Hcond as [->|Hno].
    + cbn. apply not_elem_of_empty.
    + destruct force; [cbn; apply not_elem_of_empty|].
      rewrite elem_of_existing_case_ids. intros (f & Hf & He & Hn).
      eapply Hno; eauto.
Qed.

(** ** The repair pass *)





Lemma decodes_write g x d f :
  decodes d g = true -> decodes (dir_write g (Doc x) d) f = decodes d f.
Proof.
  unfold decodes. intros Hg. destruct (decide (g = f)) as [<-|Hne].
  - rewrite dir_read_write_same. symmetry. exact Hg.
  - rewrite dir_read_write_other by exact Hne. reflexivity.
Qed.

Lemma repair_loop_counts files :
  forall v r d a b d',
    repair_loop files v r d = (Finished a b, d') ->
    (a + b = v + r + length (filter (fun f => decodes d f = true) files))%nat.
Proof.
  induction files as [|g rest IH]; intros v r d a b d' H; cbn [repair_loop] in H.
  - injection H as <- <- <-. cbn. lia.
  - rewrite filter_cons.
    destruct (dir_read g d) as [[[| | | | |data]|]|] eqn:Er; try discriminate.
    + assert (Hg : decodes d g = true) by (unfold decodes; rewrite Er; reflexivity).
      rewrite decide_True by exact Hg. cbn [length].
      destruct (current_is_valid _).
      * apply IH in H. lia.
      * apply IH in H. rewrite H.
        rewrite (list_filter_iff _ (fun f => decodes d f = true)); [lia|].
        intros f. rewrite decodes_write; [reflexivity|exact Hg].
    + assert (Hg : decodes d g <> true) by (unfold decodes; rewrite Er; discriminate).
      rewrite decide_False by exact Hg. apply IH in H. lia.
    + assert (Hg : decodes d g <> true) by (unfold decodes; rewrite Er; discriminate).
      rewrite decide_False by exact Hg. apply IH in H. lia.
Qed.

(** X8: when the repair pass runs to its end, the two counts it logs add
    up to the number of checked files that decode, and every such file holds
    an object. *)
Theorem repair_summary_counts_decodable_files output_dir valid_count repaired_count output_dir' :
  run_verification_and_repair output_dir
    = (Finished valid_count repaired_count, output_dir') ->
  (valid_count + repaired_count)%nat
  = length (filter (fun f => decodes output_dir f = true) (files_to_check output_dir))
  /\ forall f, f ∈ files_to_check output_dir -> decodes output_dir f = true ->
       exists data, dir_read f output_dir = Some (Doc (json.Obj data)).
Proof.
  unfold run_verification_and_repair.
  destruct (files_to_check output_dir) as [|f0 fs] eqn:Ef; [discriminate|].
  intros H. split.
  - apply repair_loop_counts in H. lia.
  - intros f Hf Hd. unfold decodes in Hd.
    destruct (dir_read f output_dir) as [[x|]|] eqn:Er; try discriminate.
    destruct (is_object x) eqn:Hx.
    + destruct x; try discriminate. eauto.
    + destruct (repair_loop_aborts (f0 :: fs) f x Hf Hx 0%nat 0%nat output_dir Er) as [d2 Ha].
      congruence.
Qed.

Lemma repair_summary_counts_decodable_files_witness :
  (0 + 1)%nat
  = length (filter (fun f => decodes sample_directory f = true)
              (files_to_check sample_directory))
  /\ forall f, f ∈ files_to_check sample_directory -> decodes sample_directory f = true ->
       exists data, dir_read f sample_directory = Some (Doc (json.Obj data)).
Proof.
  apply (repair_summary_counts_decodable_files sample_directory 0 1
           (run_verification_and_repair sample_directory).2).
  vm_compute. reflexivity.
Defined.

(** ** The combined file and [main] *)

Lemma files_to_check_write_combined x d :
  files_to_check (dir_write combined_filename_leaf x d) = files_to_check d.
Proof.
  unfold files_to_check.
  destruct (listdir_write combined_filename_leaf x d) as [-> | ->]; [reflexivity|].
  rewrite filter_app, filter_cons, decide_False, filter_nil, app_nil_r; [reflexivity|].
  intros [_ H]. apply H. reflexivity.
Qed.

Lemma files_to_check_not_combined f d : f ∈ files_to_check d -> f <> combined_filename_leaf.
Proof. unfold files_to_check. intros H. apply list_elem_of_filter in H as [[_ H] _]. exact H. Qed.

Lemma loaded_record_write_combined x d f :
  f <> combined_filename_leaf ->
  loaded_record (dir_write combined_filename_leaf x d) f = loaded_record d f.
Proof.
  intros Hne. unfold loaded_record. rewrite dir_read_write_other by congruence. reflexivity.
Qed.

Lemma omap_ext_elem {A B} (f g : A -> option B) (l : list A) :
  (forall x, x ∈ l -> f x = g x) -> omap f l = omap g l.
Proof.
  induction l as [|a l IH]; intros H; cbn [omap list_omap]; [reflexivity|].
  rewrite (H a) by (apply elem_of_cons; auto).
  rewrite IH; [reflexivity|]. intros x Hx. apply H, elem_of_cons. auto.
Qed.

Lemma dir_write_twice n f d : dir_write n f (dir_write n f d) = dir_write n f d.
Proof. apply dir_write_same, dir_read_write_same. Qed.

Lemma length_omap_loaded (d : directory) (l : list str) :
  length (omap (loaded_record d) l) = length (filter (fun f => decodes d f = true) l).
Proof.
  induction l as [|f l IH]; [reflexivity|].
  cbn [omap list_omap]. rewrite filter_cons. unfold loaded_record at 1.
  destruct (dir_read f d) as [[v|]|] eqn:Er.
  - rewrite decide_True by (unfold decodes; rewrite Er; reflexivity).
    cbn [length]. fold (omap (loaded_record d) l). rewrite IH. reflexivity.
  - rewrite decide_False by (unfold decodes; rewrite Er; discriminate). exact IH.
  - rewrite decide_False by (unfold decodes; rewrite Er; discriminate). exact IH.
Qed.

Lemma elem_of_omap_loaded (d : directory) (l : list str) (v : json.value) :
  v ∈ omap (loaded_record d) l <-> exists f, f ∈ l /\ dir_read f d = Some (Doc v).
Proof.
  rewrite list_elem_of_omap. unfold loaded_record. split.
  - intros (f & Hf & H). exists f. split; [exact Hf|].
    destruct (dir_read f d) as [[w|]|]; try discriminate. injection H as ->. reflexivity.
  - intros (f & Hf & H). exists f. split; [exact Hf|]. rewrite H. reflexivity.
Qed.

Section CombinedFacts.
Variable natural_sorted : list str -> option (list str).
Hypothesis natural_sorted_permutation :
  forall l l', natural_sorted l = Some l' -> l' ≡ₚ l.

Local Abbreviation update := (update_combined_file natural_sorted).

(** A call that returns has changed the combined file only, and a second
    call changes nothing. *)
Lemma update_combined_file_stable output_dir output_dir' :
  update output_dir = Some output_dir' ->
  update output_dir' = Some output_dir'
  /\ forall name, name <> combined_filename_leaf ->
       dir_read name output_dir' = dir_read name output_dir.
Proof.
  unfold update_combined_file. fold (files_to_check output_dir).
  fold (files_to_check output_dir').
  destruct (natural_sorted (files_to_check output_dir)) as [sorted_list|] eqn:Es;
    [|discriminate].
  destruct (omap (loaded_record output_dir) sorted_list) as [|v vs] eqn:Eo.
  - intros [= <-]. rewrite Es, Eo. auto.
  - intros [= <-]. rewrite files_to_check_write_combined, Es.
    assert (Hsame : omap (loaded_record
                      (dir_write combined_filename_leaf (Doc (json.Arr (v :: vs))) output_dir))
                      sorted_list = v :: vs).
    { rewrite <- Eo. apply omap_ext_elem. intros f Hf.
      apply loaded_record_write_combined.
      eapply files_to_check_not_combined.
      rewrite <- (natural_sorted_permutation _ _ Es). exact Hf. }
    rewrite Hsame, dir_write_twice. split; [reflexivity|].
    intros name Hne. apply dir_read_write_other. congruence.
Qed.

(** X9: rebuilding the combined file is idempotent and touches nothing
    else.  A second call right after a call that did not raise leaves the
    directory as the first call left it, and the first call changes no file
    other than the combined one; the combined file is never among the
    records it collects. *)
Theorem update_combined_file_idempotent output_dir output_dir' :
  update output_dir = Some output_dir' ->
  update output_dir' = Some output_dir'
  /\ forall name, name <> combined_filename_leaf ->
       dir_read name output_dir' = dir_read name output_dir.
Proof. apply update_combined_file_stable. Qed.

(** X10: what the combined file holds after a call of
    [update_combined_file] that returns.  When no checked file decodes, the
    call has left the directory as it was, a combined file of an earlier
    run included; otherwise the combined file holds a list with one element
    for each checked file that decodes, and its elements are exactly the
    documents of those files.  Nothing is said of a call that raises. *)
Theorem combined_file_holds_every_decodable_record output_dir output_dir' :
  update output_dir = Some output_dir' ->
  match filter (fun f => decodes output_dir f = true) (files_to_check output_dir) with
  | [] => output_dir' = output_dir
  | records =>
      exists all_successful_cases,
        dir_read combined_filename_leaf output_dir'
        = Some (Doc (json.Arr all_successful_cases))
        /\ length all_successful_cases = length records
        /\ forall v, v ∈ all_successful_cases <->
             exists f, f ∈ files_to_check output_dir
                       /\ dir_read f output_dir = Some (Doc v)
  end.
Proof.
  unfold update_combined_file. fold (files_to_check output_dir).
  destruct (natural_sorted (files_to_check output_dir)) as [sorted_list|] eqn:Es;
    [|discriminate].
  pose proof (natural_sorted_permutation _ _ Es) as Hp.
  assert (Hl : length (omap (loaded_record output_dir) sorted_list)
               = length (filter (fun f => decodes output_dir f = true)
                           (files_to_check output_dir))).
  { rewrite length_omap_loaded, Hp. reflexivity. }
  destruct (omap (loaded_record output_dir) sorted_list) as [|v vs] eqn:Eo;
    intros [= <-].
  - destruct (filter _ (files_to_check output_dir)) as [|r rs]; [reflexivity|].
    discriminate Hl.
  - destruct (filter _ (files_to_check output_dir)) as [|r rs]; [discriminate Hl|].
    exists (v :: vs). split; [apply dir_read_write_same|]. split; [exact Hl|].
    intros w. rewrite <- Eo, elem_of_omap_loaded.
    split; intros (f & Hf & H); exists f; (split; [|exact H]).
    + rewrite <- Hp. exact Hf.
    + rewrite Hp. exact Hf.
Qed.

Variable get_completion : str -> option str.
Variable prompt : str -> str.

Local Abbreviation main' := (main natural_sorted get_completion prompt).

Lemma repair_then_update_stable d1 o d2 d3 :
  run_verification_and_repair d1 = (o, d2) -> o <> Aborted ->
  update d2 = Some d3 ->
  exists o', run_verification_and_repair d3 = (o', d3) /\ o' <> Aborted.
Proof.
  intros Hr Ho Hu.
  assert (Hfiles : files_to_check d3 = files_to_check d1).
  { transitivity (files_to_check d2).
    - revert Hu. unfold update_combined_file.
      destruct (natural_sorted _); [|discriminate].
      destruct (omap _ _); intros [= <-]; [reflexivity|].
      apply files_to_check_write_combined.
    - apply files_to_check_listdir. eapply repair_keeps_names, Hr. }
  assert (Hread : forall f, f <> combined_filename_leaf -> dir_read f d3 = dir_read f d2).
  { intros f Hf. apply (update_combined_file_stable d2 d3 Hu). exact Hf. }
  unfold run_verification_and_repair in Hr |- *. rewrite Hfiles.
  destruct (files_to_check d1) as [|f0 fs] eqn:Ef.
  - exists NoJsonFiles. split; [reflexivity|discriminate].
  - destruct o as [|a b|]; [| |congruence].
    + exfalso. apply (repair_loop_outcome (f0 :: fs) 0%nat 0%nat d1).
      rewrite Hr. reflexivity.
    + apply repair_loop_settles in Hr as [_ Hs].
      destruct (repair_loop_settled (f0 :: fs) 0%nat 0%nat d3) as (v' & r' & H & _).
      * intros f Hf. specialize (Hs f Hf). unfold settled in Hs |- *.
        rewrite Hread; [exact Hs|].
        eapply files_to_check_not_combined. rewrite Ef. exact Hf.
      * exists (Finished v' r'). split; [exact H|discriminate].
Qed.

(** X11: a second run of the whole script changes nothing.  When [main]
    ran to its end -- in the verify-only mode, or in the full mode with no
    dispatched segment failed -- running it again in the same mode, without
    the force flag and on the same input, runs to its end and leaves the
    output directory exactly as it is: nothing is dispatched, nothing is
    repaired, and the combined file is written again with the same
    content. *)
Theorem main_second_run_changes_nothing force verify_only input_dir output_dir output_dir' :
  main' force verify_only input_dir output_dir = Completed output_dir' ->
  verify_only = true
  \/ every_segment_succeeded
       (run_processing get_completion prompt force input_dir output_dir).1 ->
  main' false verify_only input_dir output_dir' = Completed output_dir'.
Proof.
  unfold main. intros Hmain Hok.
  set (d1 := if verify_only then output_dir
             else (run_processing get_completion prompt force input_dir output_dir).2) in *.
  destruct (run_verification_and_repair d1) as [o d2] eqn:Hr.
  assert (Ho : o <> Aborted) by (intros ->; discriminate).
  assert (Hu : update d2 = Some output_dir').
  { destruct o; try congruence;
      destruct (update_combined_file natural_sorted d2); congruence. }
  clear Hmain.
  assert (Hsub : forall x, x ∈ listdir d1 -> x ∈ listdir output_dir').
  { intros x Hx. rewrite <- (repair_keeps_names _ _ _ Hr) in Hx.
    revert Hu. unfold update_combined_file.
    destruct (natural_sorted _); [|discriminate].
    destruct (omap _ _); intros [= <-]; [exact Hx|].
    apply listdir_write_keeps, Hx. }
  assert (Hd1' : (if verify_only then output_dir'
                  else (run_processing get_completion prompt false input_dir output_dir').2)
                 = output_dir').
  { destruct verify_only; [reflexivity|].
    destruct Hok as [?|Hok]; [discriminate|].
    unfold run_processing at 1.
    destruct input_dir as [[|m0 md]|]; [reflexivity| |reflexivity].
    destruct (run_processing get_completion prompt force (Some (m0 :: md)) output_dir)
      as [o1 dd] eqn:Hrun.
    cbn [fst snd] in Hok, d1. subst d1.
    rewrite (rerun_dispatches_nothing_with_more_files _ _ _ _ _ _ _ _ Hrun Hok Hsub).
    reflexivity. }
  rewrite Hd1'.
  destruct (repair_then_update_stable d1 o d2 output_dir' Hr Ho Hu) as (o' & -> & Ho').
  destruct (update_combined_file_stable d2 output_dir' Hu) as [-> _].
  destruct o'; congruence.
Qed.

End CombinedFacts.

Lemma listing_order_permutation l l' : listing_order l = Some l' -> l' ≡ₚ l.
Proof. intros [= <-]. reflexivity. Qed.

Lemma update_combined_file_idempotent_witness :
  let output_dir' :=
    dir_write combined_filename_leaf
      (Doc (json.Arr [json.Obj [(lit "document_type", json.Str (lit "ruling"))]]))
      sample_directory in
  update_combined_file listing_order output_dir' = Some output_dir'
  /\ forall name, name <> combined_filename_leaf ->
       dir_read name output_dir' = dir_read name sample_directory.
Proof.
  apply (update_combined_file_idempotent listing_order listing_order_permutation
           sample_directory).
  vm_compute. reflexivity.
Defined.

Lemma combined_file_holds_every_decodable_record_witness :
  exists all_successful_cases,
    dir_read combined_filename_leaf
      (default [] (update_combined_file listing_order sample_directory))
    = Some (Doc (json.Arr all_successful_cases))
    /\ length all_successful_cases = 1%nat
    /\ forall v, v ∈ all_successful_cases <->
         exists f, f ∈ files_to_check sample_directory
                   /\ dir_read f sample_directory = Some (Doc v).
Proof.
  exact (combined_file_holds_every_decodable_record listing_order listing_order_permutation
           sample_directory
           (default [] (update_combined_file listing_order sample_directory))
           eq_refl).
Defined.

Lemma main_second_run_changes_nothing_witness :
  let g := fun _ : str => Some answer_with_digit_prefix in
  let output_dir' :=
    final_directory (main listing_order g echo false false (Some sample_corpus) []) in
  main listing_order g echo false false (Some sample_corpus) output_dir'
  = Completed output_dir'.
Proof.
  cbn zeta.
  apply (main_second_run_changes_nothing listing_order listing_order_permutation
           (fun _ => Some answer_with_digit_prefix) echo false false (Some sample_corpus)
           []).
  - vm_compute. reflexivity.
  - right. vm_compute. reflexivity.
Defined.

(** ** Reading the answer out of the response *)

(** X12: the answer read out of a response body is a text exactly when the
    body is an object whose [choices] is a list that starts with an object
    whose [message] is an object whose [content] is that text. *)
Theorem response_content_is_text_iff result s :
  response_content result = ChainValue (json.Str s) <->
  exists d choice rest message,
    result = json.Obj d
    /\ json.dict_get (lit "choices") d = Some (json.Arr (json.Obj choice :: rest))
    /\ json.dict_get (lit "message") choice = Some (json.Obj message)
    /\ json.dict_get (lit "content") message = Some (json.Str s).
Proof.
  unfold response_content. split.
  - intros H.
    destruct result as [| | | | |d]; try discriminate H.
    cbn [py_get chain_bind] in H.
    destruct (json.dict_get (lit "choices") d) as [choices|] eqn:Ec;
      [|vm_compute in H; discriminate H].
    cbn [default from_option id] in H.
    destruct choices as [| | |[|c cs]|[|choice rest]|]; try discriminate H.
    cbn [py_item0 chain_bind] in H.
    destruct choice as [| | | | |e]; try discriminate H.
    cbn [py_get chain_bind] in H.
    destruct (json.dict_get (lit "message") e) as [message|] eqn:Em;
      [|vm_compute in H; discriminate H].
    cbn [default from_option id] in H.
    destruct message as [| | | | |m]; try discriminate H.
    cbn [py_get] in H.
    destruct (json.dict_get (lit "content") m) as [content|] eqn:Ect;
      [|discriminate H].
    cbn [default from_option id] in H. injection H as ->. exists d, e, rest, m. auto.
  - intros (d & e & rest & m & -> & Hc & Hm & Hct).
    cbn [py_get chain_bind]. rewrite Hc. cbn [default from_option id py_item0 chain_bind py_get].
    rewrite Hm. cbn [default from_option id py_get]. rewrite Hct. reflexivity.
Qed.

(** X13: when an exception leaves [get_completion].  The [except] clauses
    name [KeyError] and [IndexError] only; a missing key or an empty list of
    choices never lets an exception out, but a body that is not an object,
    a [choices] that is null, a boolean, a number or a non-empty string, a
    first choice that is not an object, or a [message] that is there and is
    not an object raises an error that no clause names. *)
Theorem response_content_uncaught_iff result :
  response_content result = ChainUncaught <->
  match result with
  | json.Obj d =>
      match json.dict_get (lit "choices") d with
      | None | Some (json.Arr []) | Some (json.Str []) | Some (json.Obj _) => False
      | Some (json.Arr (json.Obj choice :: _)) =>
          match json.dict_get (lit "message") choice with
          | Some message => is_object message = false
          | None => False
          end
      | Some _ => True
      end
  | _ => True
  end.
Proof.
  unfold response_content.
  destruct result as [| | | | |d]; try (split; [intros _; exact I|reflexivity]).
  cbn [py_get chain_bind].
  destruct (json.dict_get (lit "choices") d) as [choices|] eqn:Ec.
  - cbn [default from_option id].
    destruct choices as [| | |[|c cs]|[|choice rest]|]; cbn [py_item0 chain_bind py_get];
      try (split; [intros _; exact I|reflexivity]);
      try (split; [discriminate|contradiction]).
    destruct choice as [| | | | |e]; cbn [py_get chain_bind];
      try (split; [intros _; exact I|reflexivity]).
    destruct (json.dict_get (lit "message") e) as [message|] eqn:Em; cbn [default from_option id].
    + destruct message; cbn [py_get is_object];
        (split; [intros H; first [reflexivity|discriminate H]
                |intros H; first [reflexivity|discriminate H]]).
    + cbn [py_get]. split; [discriminate|contradiction].
  - cbn. split; [discriminate|contradiction].
Qed.

(** ** The embedder *)

Lemma field_nullable_str_spec d k :
  embedder.field_nullable_str d k = field_optional_str d k && has_key d k.
Proof.
  unfold embedder.field_nullable_str, field_optional_str, has_key.
  destruct (json.dict_get (lit k) d) as [[| | | | |]|]; reflexivity.
Qed.

(** X14: the embedder's model is the extraction script's model made
    stricter.  A document validates as the embedder's [LegalCase] exactly
    when it validates as the extraction script's [LegalCase] and holds
    every one of the five optional text keys. *)
Theorem embedder_validation_is_stricter v :
  embedder.LegalCase_model_validate v
  = LegalCase_model_validate v
    && match v with
       | json.Obj d => forallb (has_key d) optional_text_fields
       | _ => true
       end.
Proof.
  destruct v as [| | | | |d]; try reflexivity.
  unfold embedder.LegalCase_model_validate, LegalCase_model_validate, optional_text_fields.
  cbn [forallb]. rewrite !field_nullable_str_spec.
  generalize (field_str d "document_type") (field_str d "case_number")
    (field_list Court_validate d "involved_courts") (field_list Party_validate d "parties")
    (field_list is_str d "referenced_laws").
  intros b1 b2 b3 b4 b5.
  destruct b1, b2, b3, b4, b5; cbn [andb]; try reflexivity.
  generalize (field_optional_str d "case_background_full")
    (field_optional_str d "plaintiffs_argument_full")
    (field_optional_str d "defendants_argument_full")
    (field_optional_str d "committee_reasoning_full")
    (field_optional_str d "final_decision").
  intros o1 o2 o3 o4 o5.
  generalize (has_key d "case_background_full") (has_key d "plaintiffs_argument_full")
    (has_key d "defendants_argument_full") (has_key d "committee_reasoning_full")
    (has_key d "final_decision").
  intros h1 h2 h3 h4 h5.
  destruct o1, o2, o3, o4, o5, h1, h2, h3, h4, h5; reflexivity.
Qed.

Lemma LegalCase_of_is_Some v :
  is_Some (embedder.LegalCase_of v) <-> embedder.LegalCase_model_validate v = true.
Proof.
  unfold embedder.LegalCase_of. destruct v as [| | | | |d];
    try (split; [intros [x H]; discriminate H|discriminate]).
  destruct (embedder.LegalCase_model_validate (json.Obj d)).
  - split; [reflexivity|eauto].
  - split; [intros [x H]; discriminate H|discriminate].
Qed.

Lemma case_list_of_flat data :
  Forall (fun v => is_object v = true) data -> embedder.case_list_of data = Some data.
Proof.
  intros H. destruct H as [|v vs Hv _]; [reflexivity|].
  destruct v; try discriminate Hv. reflexivity.
Qed.

Lemma mapM_LegalCase_of_length vs :
  length (default [] (mapM embedder.LegalCase_of vs))
  = if forallb embedder.LegalCase_model_validate vs then length vs else 0%nat.
Proof.
  destruct (forallb embedder.LegalCase_model_validate vs) eqn:Hall.
  - rewrite forallb_forall in Hall.
    assert (Hs : is_Some (mapM embedder.LegalCase_of vs)).
    { apply mapM_is_Some, Forall_forall. intros v Hv. unfold compose.
      apply LegalCase_of_is_Some, Hall, list_elem_of_In, Hv. }
    destruct Hs as [cases E]. rewrite E. cbn [default from_option id].
    symmetry. eapply length_mapM, E.
  - destruct (mapM embedder.LegalCase_of vs) as [cases|] eqn:E; [|reflexivity].
    exfalso. assert (Hs : is_Some (mapM embedder.LegalCase_of vs)) by (rewrite E; eauto).
    apply mapM_is_Some in Hs. rewrite Forall_forall in Hs.
    assert (Htrue : forallb embedder.LegalCase_model_validate vs = true).
    { apply forallb_forall. intros v Hv. apply LegalCase_of_is_Some.
      apply (Hs v), list_elem_of_In, Hv. }
    congruence.
Qed.

(** X15: loading is all or nothing.  For a combined file that holds a list
    of objects, [load_and_validate_cases] returns one case for each element
    when every element validates, and no case at all as soon as one element
    does not. *)
Theorem load_and_validate_cases_all_or_nothing vs :
  Forall (fun v => is_object v = true) vs ->
  length (embedder.load_and_validate_cases (Some (Doc (json.Arr vs))))
  = if forallb embedder.LegalCase_model_validate vs then length vs else 0%nat.
Proof.
  intros Hobj. unfold embedder.load_and_validate_cases.
  rewrite (case_list_of_flat _ Hobj). apply mapM_LegalCase_of_length.
Qed.

Lemma embedder_validate_has_key d k :
  embedder.LegalCase_model_validate (json.Obj d) = true ->
  k ∈ optional_text_fields -> has_key d k = true.
Proof.
  unfold embedder.LegalCase_model_validate. rewrite !field_nullable_str_spec.
  intros H Hk.
  repeat match goal with
         | H : _ && _ = true |- _ => apply andb_true_iff in H as [? ?]
         end.
  unfold optional_text_fields in Hk. field_cases Hk; assumption.
Qed.

(** X16: one record that leaves out an optional text field -- which the
    extraction script accepts and persists -- makes the embedder load
    nothing from a combined file that holds it. *)
Theorem record_without_optional_field_empties_the_load vs d k :
  Forall (fun v => is_object v = true) vs ->
  json.Obj d ∈ vs ->
  k ∈ optional_text_fields ->
  json.dict_get (lit k) d = None ->
  embedder.load_and_validate_cases (Some (Doc (json.Arr vs))) = [].
Proof.
  intros Hobj Hin Hk Hnone.
  apply length_zero_iff_nil. unfold embedder.load_and_validate_cases.
  rewrite (case_list_of_flat _ Hobj), mapM_LegalCase_of_length.
  destruct (forallb embedder.LegalCase_model_validate vs) eqn:Hall; [|reflexivity].
  exfalso. rewrite forallb_forall in Hall.
  specialize (Hall (json.Obj d) ltac:(apply list_elem_of_In; exact Hin)).
  pose proof (embedder_validate_has_key d k Hall Hk) as Hkey.
  unfold has_key in Hkey. rewrite Hnone in Hkey. discriminate Hkey.
Qed.

Lemma mapM_iterate_arrays vss :
  mapM embedder.iterate (map json.Arr vss) = Some vss.
Proof. apply mapM_fmap_Some. reflexivity. Qed.

(** X17: one level of nesting is flattened.  A combined file whose list
    holds lists of objects loads as the file holding the objects of those
    lists in one list. *)
Theorem nested_lists_are_flattened vss :
  Forall (Forall (fun v => is_object v = true)) vss ->
  embedder.load_and_validate_cases (Some (Doc (json.Arr (map json.Arr vss))))
  = embedder.load_and_validate_cases (Some (Doc (json.Arr (concat vss)))).
Proof.
  intros Hobj. unfold embedder.load_and_validate_cases.
  assert (Hflat : Forall (fun v => is_object v = true) (concat vss)).
  { apply Forall_concat. exact Hobj. }
  rewrite (case_list_of_flat _ Hflat).
  destruct vss as [|vs vss]; [reflexivity|].
  change (map json.Arr (vs :: vss)) with (json.Arr vs :: map json.Arr vss).
  unfold embedder.case_list_of.
  change (json.Arr vs :: map json.Arr vss) with (map json.Arr (vs :: vss)).
  rewrite mapM_iterate_arrays. reflexivity.
Qed.

Lemma or_not_present_empty x :
  embedder.or_not_present (empty_as_absent x) = embedder.or_not_present x.
Proof. destruct x as [[|c r]|]; reflexivity. Qed.

(** X18: in the text prepared for embedding an empty text field reads as an
    absent one: both are rendered by the same placeholder, and the case
    numbers are not affected. *)
Theorem empty_text_reads_as_absent cases :
  embedder.prepare_texts_for_embedding (map without_empty_texts cases)
  = embedder.prepare_texts_for_embedding cases.
Proof.
  unfold embedder.prepare_texts_for_embedding. rewrite !map_map. f_equal.
  apply map_ext. intros case. unfold embedder.full_text, without_empty_texts.
  cbn [embedder.case_number embedder.case_background_full
       embedder.plaintiffs_argument_full embedder.defendants_argument_full
       embedder.committee_reasoning_full embedder.final_decision].
  rewrite !or_not_present_empty. reflexivity.
Qed.

Lemma load_and_validate_cases_all_or_nothing_witness :
  let vs := [decoded answer_with_every_field; decoded answer_without_parties] in
  length (embedder.load_and_validate_cases (Some (Doc (json.Arr vs))))
  = if forallb embedder.LegalCase_model_validate vs then length vs else 0%nat.
Proof.
  cbn zeta.
  apply (load_and_validate_cases_all_or_nothing
           [decoded answer_with_every_field; decoded answer_without_parties]).
  apply List.Forall_cons; [vm_compute; reflexivity|].
  apply List.Forall_cons; [vm_compute; reflexivity|]. apply List.Forall_nil.
Defined.

Lemma record_without_optional_field_empties_the_load_witness :
  embedder.load_and_validate_cases
    (Some (Doc (json.Arr [decoded answer_with_every_field;
                          json.Obj (fields_of (decoded answer_with_digit_prefix))])))
  = [].
Proof.
  apply (record_without_optional_field_empties_the_load
           [decoded answer_with_every_field;
            json.Obj (fields_of (decoded answer_with_digit_prefix))]
           (fields_of (decoded answer_with_digit_prefix)) "case_background_full").
  - apply List.Forall_cons; [vm_compute; reflexivity|].
    apply List.Forall_cons; [reflexivity|]. apply List.Forall_nil.
  - apply elem_of_cons. right. apply elem_of_cons. left. reflexivity.
  - apply elem_of_cons. left. reflexivity.
  - vm_compute. reflexivity.
Defined.

Lemma nested_lists_are_flattened_witness :
  let vss := [[decoded answer_with_every_field]; []; [decoded answer_with_every_field]] in
  embedder.load_and_validate_cases (Some (Doc (json.Arr (map json.Arr vss))))
  = embedder.load_and_validate_cases (Some (Doc (json.Arr (concat vss)))).
Proof.
  cbn zeta.
  apply (nested_lists_are_flattened
           [[decoded answer_with_every_field]; []; [decoded answer_with_every_field]]).
  apply List.Forall_cons.
  { apply List.Forall_cons; [vm_compute; reflexivity|apply List.Forall_nil]. }
  apply List.Forall_cons; [apply List.Forall_nil|].
  apply List.Forall_cons; [|apply List.Forall_nil].
  apply List.Forall_cons; [vm_compute; reflexivity|apply List.Forall_nil].
Defined.

(** ** Filling and clearing the vector store *)

Section VectorMainFacts.
Context {vector : Type}.
Implicit Types c : gmap str (entry vector).

Lemma collection_delete_lookup ids :
  forall c i, vector_creation.collection_delete c ids !! i
              = if bool_decide (i ∈ ids) then None else c !! i.
Proof.
  unfold vector_creation.collection_delete.
  induction ids as [|j ids IH]; intros c i; cbn [foldl].
  - rewrite bool_decide_false by apply not_elem_of_nil. reflexivity.
  - rewrite IH. case_bool_decide as H1; case_bool_decide as H2.
    + reflexivity.
    + exfalso. apply H2, elem_of_cons. auto.
    + apply elem_of_cons in H2 as [->|H2]; [|contradiction].
      apply lookup_delete_eq.
    + apply lookup_delete_ne. intros ->. apply H2, elem_of_cons. auto.
Qed.

Lemma clear_collection_empty c : vector_creation.clear_collection c = ∅.
Proof.
  unfold vector_creation.clear_collection. case_bool_decide as Hs.
  - apply map_eq. intros i. rewrite collection_delete_lookup, lookup_empty.
    case_bool_decide as Hin; [reflexivity|].
    destruct (c !! i) as [e|] eqn:E; [|reflexivity].
    exfalso. apply Hin. unfold vector_creation.collection_ids.
    apply list_elem_of_fmap. exists (i, e). split; [reflexivity|].
    apply elem_of_map_to_list. exact E.
  - apply map_size_empty_iff. lia.
Qed.

Lemma new_records_fresh c embs docs metas ids :
  (forall i, i ∈ ids -> c !! i = None) ->
  length embs = length ids -> length docs = length ids -> length metas = length ids ->
  map fst (new_records c embs docs metas ids) = ids.
Proof.
  revert embs docs metas. induction ids as [|i ids IH]; intros embs docs metas Hf He Hd Hm.
  - destruct embs, docs, metas; reflexivity.
  - destruct embs as [|e embs], docs as [|d docs], metas as [|m metas]; try discriminate.
    cbn [new_records].
    rewrite (proj2 (is_id_exist_false c i)) by (apply Hf, elem_of_cons; auto).
    cbn [map fst]. f_equal. apply IH.
    + intros j Hj. apply Hf, elem_of_cons. auto.
    + cbn in He. lia.
    + cbn in Hd. lia.
    + cbn in Hm. lia.
Qed.

Lemma add_data_fresh c embs docs metas ids :
  ids <> [] -> NoDup ids -> (forall i, i ∈ ids -> c !! i = None) ->
  length embs = length ids -> length docs = length ids -> length metas = length ids ->
  exists c',
    add_data c embs docs metas ids = (Added (length ids), c')
    /\ size c' = (size c + length ids)%nat
    /\ (forall i, c !! i = None -> i ∉ ids -> c' !! i = None)
    /\ forall k i emb doc meta,
         ids !! k = Some i -> embs !! k = Some emb -> docs !! k = Some doc ->
         metas !! k = Some meta -> c' !! i = Some (Entry emb doc meta).
Proof.
  intros Hne Hnd Hf He Hd Hm.
  pose proof (new_records_fresh c embs docs metas ids Hf He Hd Hm) as Hfst.
  unfold add_data. rewrite bool_decide_true by (repeat split; congruence).
  remember (new_records c embs docs metas ids) as news eqn:Enews.
  assert (Hlen : length news = length ids).
  { rewrite <- (length_map fst news), Hfst. reflexivity. }
  destruct news as [|r news'] eqn:En.
  { destruct ids; [congruence|discriminate Hlen]. }
  rewrite <- En in *. clear r news' En.
  unfold collection_add. rewrite bool_decide_true by (rewrite Hfst; exact Hnd).
  assert (Hfst' : news.*1 = ids) by exact Hfst.
  exists (foldl add_one c news). rewrite Hlen. split; [reflexivity|]. split.
  { rewrite foldl_add_one_size, Hlen; [reflexivity|rewrite Hfst; exact Hnd|].
    intros r Hr. apply Hf. rewrite <- Hfst. apply list_elem_of_fmap. eauto. }
  split.
  { intros i Hi Hni. rewrite foldl_add_one_lookup, Hi.
    apply not_elem_of_list_to_map_1. rewrite Hfst'. exact Hni. }
  intros k i emb doc meta Hi Hemb Hdoc Hmeta.
  rewrite foldl_add_one_lookup.
  rewrite (Hf i) by (eapply list_elem_of_lookup_2, Hi).
  apply elem_of_list_to_map_1; [rewrite Hfst'; exact Hnd|].
  rewrite Enews. eapply new_records_has; eauto.
  apply Hf. eapply list_elem_of_lookup_2, Hi.
Qed.

(** X19: indexing again after [clear_collection].  Whatever the collection
    held, after it is cleared [add_data] stores the whole of a batch whose
    ids are pairwise distinct and whose four sequences have the same length:
    it reports every record as added, and the collection then holds exactly
    the records of the batch, each under its id. *)
Theorem clear_then_add_stores_the_batch c embeddings documents metadatas ids :
  ids <> [] -> NoDup ids ->
  length embeddings = length ids -> length documents = length ids ->
  length metadatas = length ids ->
  exists c',
    add_data (vector_creation.clear_collection c) embeddings documents metadatas ids
    = (Added (length ids), c')
    /\ size c' = length ids
    /\ forall k i emb doc meta,
         ids !! k = Some i -> embeddings !! k = Some emb -> documents !! k = Some doc ->
         metadatas !! k = Some meta -> c' !! i = Some (Entry emb doc meta).
Proof.
  intros Hne Hnd He Hd Hm. rewrite clear_collection_empty.
  destruct (add_data_fresh ∅ embeddings documents metadatas ids Hne Hnd
              ltac:(intros; apply lookup_empty) He Hd Hm) as (c' & Ha & Hs & _ & Hl).
  exists c'. split; [exact Ha|]. split; [|exact Hl].
  rewrite Hs, map_size_empty. reflexivity.
Qed.

Lemma doc_id_inj cn1 cn2 :
  c_dash ∉ cn1 -> c_dash ∉ cn2 ->
  vector_creation.doc_id cn1 = vector_creation.doc_id cn2 -> cn1 = cn2.
Proof.
  unfold vector_creation.doc_id. intros H1 H2 H. apply app_inv_head in H.
  rewrite !replace_char in H. revert cn2 H2 H.
  induction cn1 as [|a r1 IH]; intros [|b r2] H2 H; try discriminate; [reflexivity|].
  cbn [map] in H. injection H as Hab Hr.
  apply not_elem_of_cons in H1 as [Ha H1]. apply not_elem_of_cons in H2 as [Hb H2].
  f_equal; [|apply IH; assumption].
  destruct (N.eqb_spec a c_slash) as [->|Hna], (N.eqb_spec b c_slash) as [->|Hnb];
    congruence.
Qed.

(** X20: the ids [main] derives from case numbers.  Case numbers that are
    pairwise distinct and hold no dash get pairwise distinct ids, so the
    batch [main] builds from them names no id twice. *)
Theorem doc_ids_of_distinct_case_numbers case_numbers :
  NoDup case_numbers -> Forall (fun cn => c_dash ∉ cn) case_numbers ->
  NoDup (map vector_creation.doc_id case_numbers).
Proof.
  intros Hnd Hdash. apply (NoDup_fmap_2_strong _); [|exact Hnd].
  rewrite Forall_forall in Hdash.
  intros cn1 cn2 H1 H2. apply doc_id_inj; apply Hdash; assumption.
Qed.

(** X21: what [main] leaves in the collection.  For case numbers that are
    pairwise distinct, hold no dash and are not indexed yet, [main] adds one
    entry for each case, under the id derived from its number, holding its
    embedding and its text; and the case number the memo generator reads
    from the metadata of that entry is the case number itself. *)
Theorem main_indexes_every_case c embeddings documents case_numbers :
  case_numbers <> [] -> NoDup case_numbers ->
  Forall (fun cn => c_dash ∉ cn) case_numbers ->
  (forall cn, cn ∈ case_numbers -> c !! vector_creation.doc_id cn = None) ->
  length embeddings = length case_numbers -> length documents = length case_numbers ->
  exists c',
    vector_creation.main c embeddings documents case_numbers
    = (Added (length case_numbers), c')
    /\ size c' = (size c + length case_numbers)%nat
    /\ forall k cn emb doc,
         case_numbers !! k = Some cn -> embeddings !! k = Some emb ->
         documents !! k = Some doc ->
         exists meta,
           c' !! vector_creation.doc_id cn = Some (Entry emb doc meta)
           /\ meta_case_number meta = cn.
Proof.
  intros Hne Hnd Hdash Hfresh He Hd. unfold vector_creation.main.
  destruct (add_data_fresh c embeddings documents
              (map vector_creation.metadata case_numbers)
              (map vector_creation.doc_id case_numbers))
    as (c' & Ha & Hs & _ & Hl).
  - destruct case_numbers; [congruence|discriminate].
  - apply (NoDup_fmap_2_strong _); [|exact Hnd].
    rewrite Forall_forall in Hdash.
    intros cn1 cn2 H1 H2. apply doc_id_inj; apply Hdash; assumption.
  - intros i Hi. apply list_elem_of_fmap in Hi as (cn & -> & Hcn). apply Hfresh, Hcn.
  - rewrite length_map. exact He.
  - rewrite length_map. exact Hd.
  - rewrite !length_map. reflexivity.
  - rewrite length_map in Ha, Hs. exists c'. split; [exact Ha|]. split; [exact Hs|].
    intros k cn emb doc Hcn Hemb Hdoc. exists (vector_creation.metadata cn). split.
    + eapply Hl; eauto; rewrite list_lookup_fmap, Hcn; reflexivity.
    + unfold meta_case_number, vector_creation.metadata.
      rewrite lookup_singleton_eq. reflexivity.
Qed.

End VectorMainFacts.

Lemma clear_then_add_stores_the_batch_witness :
  let c : gmap str (entry nat) := {[ lit "case_1-2560" := Entry 0%nat (lit "old text") ∅ ]} in
  exists c',
    add_data (vector_creation.clear_collection c) [1%nat; 2%nat]
      [lit "text a"; lit "text b"] [∅; ∅] [lit "case_1-2560"; lit "case_7-2561"]
    = (Added 2, c')
    /\ size c' = 2%nat
    /\ forall k i emb doc meta,
         [lit "case_1-2560"; lit "case_7-2561"] !! k = Some i ->
         [1%nat; 2%nat] !! k = Some emb -> [lit "text a"; lit "text b"] !! k = Some doc ->
         [∅; ∅] !! k = Some meta -> c' !! i = Some (Entry emb doc meta).
Proof.
  cbn zeta.
  apply (clear_then_add_stores_the_batch
           ({[ lit "case_1-2560" := Entry 0%nat (lit "old text") ∅ ]} : gmap str (entry nat))
           [1%nat; 2%nat] [lit "text a"; lit "text b"] [∅; ∅]
           [lit "case_1-2560"; lit "case_7-2561"]).
  - discriminate.
  - apply (bool_decide_unpack _). vm_compute. exact I.
  - reflexivity.
  - reflexivity.
  - reflexivity.
Defined.

Lemma doc_ids_of_distinct_case_numbers_witness :
  NoDup (map vector_creation.doc_id [lit "12/2567"; lit "Div.2 No.12/2567"]).
Proof.
  apply (doc_ids_of_distinct_case_numbers [lit "12/2567"; lit "Div.2 No.12/2567"]).
  - apply (bool_decide_unpack _). vm_compute. exact I.
  - apply (bool_decide_unpack _). vm_compute. exact I.
Defined.

Lemma main_indexes_every_case_witness :
  let case_numbers := [lit "12/2567"; lit "7/2561"] in
  exists c' : gmap str (entry nat),
    vector_creation.main ∅ [1%nat; 2%nat] [lit "text a"; lit "text b"] case_numbers
    = (Added (length case_numbers), c')
    /\ size c' = (size (∅ : gmap str (entry nat)) + length case_numbers)%nat
    /\ forall k cn emb doc,
         case_numbers !! k = Some cn -> [1%nat; 2%nat] !! k = Some emb ->
         [lit "text a"; lit "text b"] !! k = Some doc ->
         exists meta,
           c' !! vector_creation.doc_id cn = Some (Entry emb doc meta)
           /\ meta_case_number meta = cn.
Proof.
  cbn zeta.
  apply (main_indexes_every_case (∅ : gmap str (entry nat)) [1%nat; 2%nat]
           [lit "text a"; lit "text b"] [lit "12/2567"; lit "7/2561"]).
  - discriminate.
  - apply (bool_decide_unpack _). vm_compute. exact I.
  - apply (bool_decide_unpack _). vm_compute. exact I.
  - intros cn _. apply lookup_empty.
  - reflexivity.
  - reflexivity.
Defined.

(** ** The memo generator *)

Section MemoFacts.
Variable vector_db_search : str -> option search_results.
Variables template_head template_mid template_tail : str.

Local Abbreviation memo answer :=
  (generate_memo answer vector_db_search template_head template_mid template_tail).

(** X22: the prompts sent do not depend on what the model answers, and
    neither do the sources whenever [generate_memo] returns: two calls that
    return, whatever [get_completion] answered in each, return the same
    sources.  The sources are built from the retrieved documents alone; in
    particular they are returned as they are when the model gives no
    answer. *)
Theorem sources_do_not_depend_on_the_model answer1 answer2 case_facts log :
  let first :=
    generate_memo answer1 vector_db_search template_head template_mid template_tail
      case_facts log in
  let second :=
    generate_memo answer2 vector_db_search template_head template_mid template_tail
      case_facts log in
  first.2 = second.2
  /\ forall response1 sources1 response2 sources2,
       first.1 = Memo response1 sources1 ->
       second.1 = Memo response2 sources2 ->
       sources1 = sources2.
Proof.
  cbn zeta. unfold generate_memo.
  destruct (vector_db_search case_facts) as [sr|];
    [|split; [reflexivity|cbn; congruence]].
  destruct (sr_documents sr) as [[|[|doc docs] outer]|];
    try (split; [reflexivity|cbn; congruence]).
  destruct (sr_metadatas sr) as [[|metadatas outer']|];
    try (split; [reflexivity|cbn; congruence]).
  unfold mbind, llm_calls_bind, llm_get_completion.
  destruct (answer1 _), (answer2 _); (split; [reflexivity|cbn; congruence]).
Qed.

Lemma contains_app_l (s t pre : str) : contains s t -> contains (pre ++ s) t.
Proof.
  intros (a & b & ->). exists (pre ++ a), b. rewrite <- !app_assoc. reflexivity.
Qed.

Lemma contains_app_r (s t post : str) : contains s t -> contains (s ++ post) t.
Proof.
  intros (a & b & ->). exists a, (b ++ post). rewrite <- !app_assoc. reflexivity.
Qed.

Lemma contains_here (t post : str) : contains (t ++ post) t.
Proof. exists [], post. reflexivity. Qed.

Lemma build_context_contains docs :
  forall i metas k d meta,
    docs !! k = Some d -> metas !! k = Some meta ->
    contains (build_context i docs metas) d.
Proof.
  induction docs as [|doc docs IH]; intros i metas k d meta Hd Hm; [discriminate|].
  destruct metas as [|m metas]; [discriminate|].
  cbn [build_context]. destruct k as [|k].
  - injection Hd as ->. apply contains_app_l.
    rewrite <- app_assoc. apply contains_here.
  - apply contains_app_l, contains_app_l. eapply IH; eauto.
Qed.

Lemma build_sources_length docs :
  forall metas, length (build_sources docs metas) = Nat.min (length docs) (length metas).
Proof.
  induction docs as [|doc docs IH]; intros [|m metas]; cbn [build_sources length Nat.min];
    try reflexivity.
  rewrite IH. reflexivity.
Qed.

Lemma build_sources_lookup docs :
  forall metas k d meta,
    docs !! k = Some d -> metas !! k = Some meta ->
    build_sources docs metas !! k
    = Some ([42; 42; 3648; 3621; 3586; 3588; 3604; 3637; 32]
            ++ meta_case_number meta ++ [58; 42; 42; 10]
            ++ take 250 d ++ [46; 46; 46]).
Proof.
  induction docs as [|doc docs IH]; intros metas k d meta Hd Hm; [discriminate|].
  destruct metas as [|m metas]; [discriminate|].
  cbn [build_sources]. destruct k as [|k].
  - injection Hd as ->. injection Hm as ->. reflexivity.
  - apply IH; assumption.
Qed.

(** X23: a memo over retrieved documents.  One prompt is sent; it holds the
    case facts and, in full, every document that has a metadata entry at
    its position.  When [get_completion] returns, the memo is its answer
    together with one source for each such document -- documents beyond the
    metadata list are dropped from the prompt and from the sources -- and a
    source is the label with the case number of the metadata, the first 250
    characters of the document, and three dots, whether or not anything was
    cut.  When [get_completion] raises, so does [generate_memo]. *)
Theorem memo_prompt_and_sources
    llm_answer case_facts log sr doc docs outer metadatas outer' :
  vector_db_search case_facts = Some sr ->
  sr_documents sr = Some ((doc :: docs) :: outer) ->
  sr_metadatas sr = Some (metadatas :: outer') ->
  exists final_prompt sources,
    memo llm_answer case_facts log
    = (match llm_answer final_prompt with
       | Answered response => Memo response sources
       | CompletionRaised => MemoRaised
       end,
       log ++ [final_prompt])
    /\ contains final_prompt case_facts
    /\ length sources = Nat.min (length (doc :: docs)) (length metadatas)
    /\ forall k d meta,
         (doc :: docs) !! k = Some d -> metadatas !! k = Some meta ->
         contains final_prompt d
         /\ sources !! k
            = Some ([42; 42; 3648; 3621; 3586; 3588; 3604; 3637; 32]
                    ++ meta_case_number meta ++ [58; 42; 42; 10]
                    ++ take 250 d ++ [46; 46; 46]).
Proof.
  intros Hs Hd Hm. unfold generate_memo. rewrite Hs, Hd, Hm.
  exists (format_template template_head template_mid template_tail
            (build_context 0 (doc :: docs) metadatas) case_facts),
    (build_sources (doc :: docs) metadatas).
  split; [|split; [|split]].
  - unfold mbind, llm_calls_bind, llm_get_completion.
    destruct (llm_answer _); reflexivity.
  - unfold format_template. apply contains_app_l, contains_here.
  - apply build_sources_length.
  - intros k d meta Hk Hmeta. split.
    + unfold format_template. apply contains_app_l, contains_app_l, contains_app_l.
      apply contains_app_r. eapply build_context_contains; eauto.
    + apply build_sources_lookup; assumption.
Qed.

End MemoFacts.

Lemma sources_do_not_depend_on_the_model_witness :
  let search := fun _ : str =>
    Some (SearchResults (Some [[lit "first text"; lit "second text"]])
            (Some [[ {[ key_case_number := lit "12/2567" ]}; ∅ ]])) in
  let silent := generate_memo (fun _ => Answered None) search (lit "<") (lit "|")
                  (lit ">") (lit "facts") [] in
  let answered := generate_memo (fun _ => Answered (Some (lit "a memo"))) search (lit "<")
                    (lit "|") (lit ">") (lit "facts") [] in
  exists sources1 sources2,
    silent.1 = Memo None sources1
    /\ answered.1 = Memo (Some (lit "a memo")) sources2
    /\ sources1 = sources2
    /\ silent.2 = answered.2.
Proof.
  intros search silent answered.
  eexists _, _. split; [reflexivity|]. split; [reflexivity|]. split.
  - apply (proj2 (sources_do_not_depend_on_the_model search (lit "<") (lit "|") (lit ">")
                    (fun _ => Answered None) (fun _ => Answered (Some (lit "a memo")))
                    (lit "facts") [])
             None _ (Some (lit "a memo")) _); reflexivity.
  - apply (proj1 (sources_do_not_depend_on_the_model search (lit "<") (lit "|") (lit ">")
                    (fun _ => Answered None) (fun _ => Answered (Some (lit "a memo")))
                    (lit "facts") [])).
Defined.

Lemma memo_prompt_and_sources_witness :
  let search := fun _ : str =>
    Some (SearchResults (Some [[lit "first text"; lit "second text"; lit "third text"]])
            (Some [[ {[ key_case_number := lit "12/2567" ]}; ∅ ]])) in
  let facts := lit "facts" in
  exists final_prompt sources,
    generate_memo (fun _ => Answered None) search (lit "<") (lit "|") (lit ">") facts []
    = (Memo None sources, [] ++ [final_prompt])
    /\ contains final_prompt facts
    /\ length sources = Nat.min 3 2
    /\ forall k d meta,
         [lit "first text"; lit "second text"; lit "third text"] !! k = Some d ->
         [ ({[ key_case_number := lit "12/2567" ]} : gmap str str); ∅ ] !! k = Some meta ->
         contains final_prompt d
         /\ sources !! k
            = Some ([42; 42; 3648; 3621; 3586; 3588; 3604; 3637; 32]
                    ++ meta_case_number meta ++ [58; 42; 42; 10]
                    ++ take 250 d ++ [46; 46; 46]).
Proof.
  cbn zeta.
  apply (memo_prompt_and_sources
           (fun _ => Some (SearchResults
                             (Some [[lit "first text"; lit "second text"; lit "third text"]])
                             (Some [[ {[ key_case_number := lit "12/2567" ]}; ∅ ]])))
           (lit "<") (lit "|") (lit ">") (fun _ => Answered None) (lit "facts") []
           (SearchResults (Some [[lit "first text"; lit "second text"; lit "third text"]])
              (Some [[ {[ key_case_number := lit "12/2567" ]}; ∅ ]]))
           (lit "first text") [lit "second text"; lit "third text"] []
           [ {[ key_case_number := lit "12/2567" ]}; ∅ ] []);
    reflexivity.
Defined.

(** ** Preprocessing *)

Lemma take_space_lstrip s : s = take_space s ++ str_lstrip s.
Proof.
  induction s as [|c r IH]; [reflexivity|]. cbn [take_space str_lstrip].
  destruct (is_space c); [|reflexivity]. cbn [app]. f_equal. exact IH.
Qed.

Lemma starts_with_space_lstrip s : starts_with_space (str_lstrip s) = false.
Proof.
  induction s as [|c r IH]; [reflexivity|]. cbn [str_lstrip].
  destruct (is_space c) eqn:Hc; [exact IH|]. cbn [starts_with_space]. exact Hc.
Qed.

Lemma length_lstrip s : (length (str_lstrip s) <= length s)%nat.
Proof.
  induction s as [|c r IH]; [reflexivity|]. cbn [str_lstrip].
  destruct (is_space c); cbn [length]; lia.
Qed.

Lemma greedy_spaces s : re.greedy re.Space None s Some = Some (str_lstrip s).
Proof.
  induction s as [|c r IH]; [reflexivity|].
  cbn [re.greedy re.cmatch re.may_take re.taken str_lstrip].
  rewrite andb_true_r. destruct (is_space c); [|reflexivity].
  rewrite IH. reflexivity.
Qed.

Lemma match_spaces s :
  re.match_ spaces_pattern s =
  match s with
  | c1 :: c2 :: r =>
      if is_space c1 && is_space c2
      then Some (c1 :: c2 :: take_space r, str_lstrip r)
      else None
  | _ => None
  end.
Proof.
  unfold re.match_, spaces_pattern.
  cbn [re.match_seq re.match_item re.cls re.lo re.hi re.lazy re.room re.exactly re.cmatch].
  destruct s as [|c1 [|c2 r]]; [reflexivity| |].
  - destruct (is_space c1); reflexivity.
  - destruct (is_space c1); [|reflexivity].
    destruct (is_space c2); [|reflexivity]. cbn [andb].
    rewrite greedy_spaces. f_equal. f_equal.
    assert (E : c1 :: c2 :: r = (c1 :: c2 :: take_space r) ++ str_lstrip r).
    { cbn [app]. rewrite <- take_space_lstrip. reflexivity. }
    rewrite E. apply take_prefix.
Qed.

Lemma re_sub_from_skip p repl m rest :
  re_sub_from p repl (length m) (m ++ rest) = re_sub_from p repl 0 rest.
Proof.
  induction m as [|a m IH]; [reflexivity|]. cbn [length app re_sub_from]. exact IH.
Qed.

Lemma re_sub_spaces_cons c r :
  re_sub spaces_pattern (lit " ") (c :: r) =
  match r with
  | c2 :: r' =>
      if is_space c && is_space c2
      then lit " " ++ re_sub spaces_pattern (lit " ") (str_lstrip r')
      else c :: re_sub spaces_pattern (lit " ") r
  | [] => [c]
  end.
Proof.
  unfold re_sub. cbn [re_sub_from]. rewrite match_spaces.
  destruct r as [|c2 r']; [reflexivity|].
  destruct (is_space c && is_space c2); [|reflexivity].
  f_equal. rewrite (take_space_lstrip r') at 2.
  apply (re_sub_from_skip spaces_pattern (lit " ") (c2 :: take_space r')).
Qed.

Lemma re_sub_spaces_no_run n :
  forall s, (length s <= n)%nat ->
    no_space_run (re_sub spaces_pattern (lit " ") s) = true
    /\ starts_with_space (re_sub spaces_pattern (lit " ") s) = starts_with_space s.
Proof.
  induction n as [|n IH]; intros s Hn.
  - destruct s; [split; reflexivity|cbn in Hn; lia].
  - destruct s as [|c r]; [split; reflexivity|].
    rewrite re_sub_spaces_cons. destruct r as [|c2 r']; [split; cbn; [reflexivity|reflexivity]|].
    cbn [length] in Hn.
    destruct (is_space c) eqn:Hc, (is_space c2) eqn:Hc2; cbn [andb].
    + destruct (IH (str_lstrip r')) as [Hrun Hst].
      { pose proof (length_lstrip r'). lia. }
      rewrite starts_with_space_lstrip in Hst.
      change (lit " " ++ ?x) with (32 :: x).
      split; [|cbn [starts_with_space]; rewrite Hc; reflexivity].
      cbn [no_space_run]. rewrite Hrun, andb_true_r.
      destruct (re_sub spaces_pattern (lit " ") (str_lstrip r')) as [|d out]; [reflexivity|].
      cbn [starts_with_space] in Hst. rewrite Hst, andb_false_r. reflexivity.
    + destruct (IH (c2 :: r')) as [Hrun Hst]; [cbn [length]; lia|].
      split; [|cbn [starts_with_space]; reflexivity].
      cbn [no_space_run]. rewrite Hrun, andb_true_r.
      destruct (re_sub spaces_pattern (lit " ") (c2 :: r')) as [|d out]; [reflexivity|].
      cbn [starts_with_space] in Hst. rewrite Hst, Hc2, andb_false_r. reflexivity.
    + destruct (IH (c2 :: r')) as [Hrun Hst]; [cbn [length]; lia|].
      split; [|cbn [starts_with_space]; reflexivity].
      cbn [no_space_run]. rewrite Hrun, andb_true_r, Hc.
      destruct (re_sub spaces_pattern (lit " ") (c2 :: r')); reflexivity.
    + destruct (IH (c2 :: r')) as [Hrun Hst]; [cbn [length]; lia|].
      split; [|cbn [starts_with_space]; reflexivity].
      cbn [no_space_run]. rewrite Hrun, andb_true_r, Hc.
      destruct (re_sub spaces_pattern (lit " ") (c2 :: r')); reflexivity.
Qed.

Lemma no_space_run_app_r a b : no_space_run (a ++ b) = true -> no_space_run b = true.
Proof.
  induction a as [|c a IH]; [auto|]. cbn [app no_space_run].
  intros H. apply andb_true_iff in H as [_ H]. apply IH, H.
Qed.

Lemma no_space_run_app_l a b : no_space_run (a ++ b) = true -> no_space_run a = true.
Proof.
  induction a as [|c a IH]; [reflexivity|]. cbn [app no_space_run].
  intros H. apply andb_true_iff in H as [H1 H2]. rewrite (IH H2), andb_true_r.
  destruct a as [|d a]; [reflexivity|exact H1].
Qed.

(** X24: the text placed in the prompt.  Whatever the segment, the
    preprocessed text holds no two white-space characters in a row and
    neither starts nor ends with white space. *)
Theorem preprocessed_text_has_no_space_runs text :
  let clean_text := _preprocess_text text in
  no_space_run clean_text = true
  /\ starts_with_space clean_text = false
  /\ ends_with_space clean_text = false.
Proof.
  cbn zeta. unfold _preprocess_text.
  set (out := re_sub spaces_pattern (lit " ") (re_sub page_marker_pattern [] text)).
  assert (Hrun : no_space_run out = true).
  { eapply (re_sub_spaces_no_run _ _ (Nat.le_refl _)). }
  unfold str_strip.
  destruct (lstrip_decomp out) as (ws1 & E1 & _).
  set (l := str_lstrip out) in *.
  assert (Hl : no_space_run l = true).
  { rewrite E1 in Hrun. eapply no_space_run_app_r, Hrun. }
  destruct (rstrip_decomp l) as (ws2 & E2 & _).
  split; [|split].
  - rewrite E2 in Hl. eapply no_space_run_app_l, Hl.
  - pose proof (starts_with_space_lstrip out) as Hs. fold l in Hs.
    rewrite E2 in Hs. destruct (str_rstrip l) as [|c x]; [reflexivity|exact Hs].
  - unfold ends_with_space, str_rstrip. rewrite rev_involutive.
    apply starts_with_space_lstrip.
Qed.
